(** * WeCom AI-bot callback protocol: a shallow embedding of [pkg/wecom]

    The development follows the Go package file by file: the byte and
    error vocabulary first, then the standard-library codecs the package
    calls ([encoding/base64], [encoding/hex], [crypto/sha1], [crypto/aes],
    [crypto/cipher], [net/url]), then [crypt.go], [message.go],
    [stream.go] and the refresh path of [bot.go].

    Go values are represented as follows.
    - [[]byte] is [list byte]; a Go [string] is a Rocq [string]; the
      conversions [[]byte(s)] and [string(b)] are [list_byte_of_string]
      and [string_of_list_byte].
    - machine integers are [Z] with the wrap-around written out
      ([uint32 x] is [x mod 2^32], [byte x] is [x mod 2^8]); [int] is the
      64-bit [int] of the usual server targets, and where its width
      decides the outcome it is a parameter ([decryptOn],
      [strconv_Atoi]).
    - [(T, error)] results are [result T]; a run-time panic is the
      distinguished error [panic].
    - maps are [gmap]; pointers are indices into explicit stores. *)

From Stdlib Require Import ZArith List String Ascii Strings.Byte Lia Btauto.
From stdpp Require Import gmap strings list pretty sorting.
Import ListNotations.

Local Open Scope Z_scope.

(** ** Errors and results *)

Inductive error : Type :=
| ErrInvalidSignature                      (* crypt.go: errors.New("invalid signature") *)
| ErrInvalidAESKey                         (* crypt.go: errors.New("invalid aes key length") *)
| errorString (msg : string)               (* any other errors.New(msg) *)
| wrapError (msg : string) (inner : error) (* fmt.Errorf(msg ++ ": %w", inner) *)
| CorruptInputError                        (* encoding/base64 (the byte offset is not tracked) *)
| KeySizeError (n : nat)                   (* crypto/aes *)
| EscapeError (s : list byte)              (* net/url *)
| EOF                                      (* io.EOF: nothing could be read *)
| ErrUnexpectedEOF                         (* io.ReadFull on a short source *)
| panic (msg : string).                    (* run-time panic *)

Inductive result (A : Type) : Type :=
| Ok (a : A)
| Err (e : error).
Arguments Ok {A} a.
Arguments Err {A} e.

(** [result] is used through stdpp's monad notation [x ← r; k]. *)
#[global] Instance result_ret : MRet result := fun A a => Ok a.
#[global] Instance result_bind : MBind result := fun A B k r =>
  match r with
  | Ok a => k a
  | Err e => Err e
  end.

Definition isOk {A} (r : result A) : bool :=
  match r with Ok _ => true | Err _ => false end.

(** ** Bytes *)

Definition byte_to_Z (b : byte) : Z := Z.of_N (Byte.to_N b).

(** Go's conversion [byte(x)]: truncation to the low eight bits. *)
Definition Z_to_byte (z : Z) : byte :=
  match Byte.of_N (Z.to_N (z mod 256)) with
  | Some b => b
  | None => x00
  end.

Definition byte_eqb (a b : byte) : bool := Byte.eqb a b.

Definition byte_xor (a b : byte) : byte :=
  Z_to_byte (Z.lxor (byte_to_Z a) (byte_to_Z b)).

Fixpoint bytes_eqb (a b : list byte) : bool :=
  match a, b with
  | [], [] => true
  | x :: a', y :: b' => byte_eqb x y && bytes_eqb a' b'
  | _, _ => false
  end.

(** [len(x)] as a Go [int]. *)
Definition len {A} (l : list A) : Z := Z.of_nat (length l).

(** The slice expression [l[lo:hi]] once its bounds have been checked. *)
Definition slice {A} (l : list A) (lo hi : Z) : list A :=
  firstn (Z.to_nat (hi - lo)) (skipn (Z.to_nat lo) l).

(** ** encoding/base64, [StdEncoding]

    Modelled on the Go standard library: the standard alphabet with ['=']
    padding, non-strict (trailing bits of a padded quantum are ignored),
    carriage returns and line feeds skipped on decoding. *)
Module base64.

Definition encodeStd : list byte :=
  list_byte_of_string
    "ABCDEFGHIJKLMNOPQRSTUVWXYZabcdefghijklmnopqrstuvwxyz0123456789+/".

Definition padChar : byte := "="%byte.

Definition encodeChar (i : Z) : byte := nth (Z.to_nat i) encodeStd x00.

Fixpoint indexOf (c : byte) (l : list byte) (i : Z) : option Z :=
  match l with
  | [] => None
  | x :: l' => if byte_eqb c x then Some i else indexOf c l' (i + 1)
  end.

(** [decodeMap c] is [None] where Go's table holds [0xff]. *)
Definition decodeMap (c : byte) : option Z := indexOf c encodeStd 0.

Fixpoint Encode (src : list byte) : list byte :=
  match src with
  | [] => []
  | [a] =>
      let val := Z.shiftl (byte_to_Z a) 16 in
      [ encodeChar (Z.land (Z.shiftr val 18) 63);
        encodeChar (Z.land (Z.shiftr val 12) 63);
        padChar; padChar ]
  | [a; b] =>
      let val := Z.lor (Z.shiftl (byte_to_Z a) 16) (Z.shiftl (byte_to_Z b) 8) in
      [ encodeChar (Z.land (Z.shiftr val 18) 63);
        encodeChar (Z.land (Z.shiftr val 12) 63);
        encodeChar (Z.land (Z.shiftr val 6) 63);
        padChar ]
  | a :: b :: c :: rest =>
      let val := Z.lor (Z.lor (Z.shiftl (byte_to_Z a) 16)
                              (Z.shiftl (byte_to_Z b) 8)) (byte_to_Z c) in
      encodeChar (Z.land (Z.shiftr val 18) 63)
      :: encodeChar (Z.land (Z.shiftr val 12) 63)
      :: encodeChar (Z.land (Z.shiftr val 6) 63)
      :: encodeChar (Z.land val 63)
      :: Encode rest
  end.

Definition EncodeToString (src : list byte) : string :=
  string_of_list_byte (Encode src).

Definition isNewline (c : byte) : bool :=
  byte_eqb c x0a || byte_eqb c x0d.

Fixpoint skipNewlines (src : list byte) : list byte :=
  match src with
  | c :: rest => if isNewline c then skipNewlines rest else src
  | [] => []
  end.

(** The tail of [decodeQuantum]: [dbuf] holds [dlen] sextets (the others
    are zero); [dlen - 1] bytes come out. *)
Definition assemble (d0 d1 d2 d3 : Z) (dlen : nat) : list byte :=
  let val := Z.lor (Z.lor (Z.lor (Z.shiftl d0 18) (Z.shiftl d1 12))
                          (Z.shiftl d2 6)) d3 in
  let b0 := Z_to_byte (Z.shiftr val 16) in
  let b1 := Z_to_byte (Z.shiftr val 8) in
  let b2 := Z_to_byte val in
  match dlen with
  | 4%nat => [b0; b1; b2]
  | 3%nat => [b0; b1]
  | 2%nat => [b0]
  | _ => []
  end.

Definition sextet (dbuf : list Z) (i : nat) : Z := nth i dbuf 0.

(** [Decode] with [decodeQuantum] inlined: [dbuf] are the sextets of the
    quantum being read.  The fast paths of the library (eight and four
    characters at a time) compute the same function and are not
    distinguished. *)
Fixpoint decodeLoop (dbuf : list Z) (src : list byte) : result (list byte) :=
  match src with
  | [] =>
      match dbuf with
      | [] => Ok []
      | _ => Err CorruptInputError
      end
  | c :: rest =>
      match decodeMap c with
      | Some out =>
          let dbuf' := dbuf ++ [out] in
          if (length dbuf' =? 4)%nat
          then tl ← decodeLoop [] rest;
               Ok (assemble (sextet dbuf' 0) (sextet dbuf' 1)
                            (sextet dbuf' 2) (sextet dbuf' 3) 4 ++ tl)
          else decodeLoop dbuf' rest
      | None =>
          if isNewline c then decodeLoop dbuf rest
          else if negb (byte_eqb c padChar) then Err CorruptInputError
          else
            match length dbuf with
            | 0%nat | 1%nat => Err CorruptInputError
            | 2%nat =>
                match skipNewlines rest with
                | [] => Err CorruptInputError
                | c2 :: rest2 =>
                    if negb (byte_eqb c2 padChar) then Err CorruptInputError
                    else
                      match skipNewlines rest2 with
                      | [] => Ok (assemble (sextet dbuf 0) (sextet dbuf 1) 0 0 2)
                      | _ => Err CorruptInputError
                      end
                end
            | _ =>
                match skipNewlines rest with
                | [] => Ok (assemble (sextet dbuf 0) (sextet dbuf 1)
                                     (sextet dbuf 2) 0 3)
                | _ => Err CorruptInputError
                end
            end
      end
  end.

(** [DecodeString]; on an error Go also hands back the bytes decoded so
    far, which no caller in the package looks at. *)
Definition DecodeString (s : string) : result (list byte) :=
  decodeLoop [] (list_byte_of_string s).

End base64.

(** ** encoding/hex *)
Module hex.

Definition hextable : list byte := list_byte_of_string "0123456789abcdef".

Definition digit (i : Z) : byte := nth (Z.to_nat i) hextable x00.

Definition Encode (src : list byte) : list byte :=
  flat_map (fun v => [digit (Z.shiftr (byte_to_Z v) 4);
                      digit (Z.land (byte_to_Z v) 15)]) src.

Definition EncodeToString (src : list byte) : string :=
  string_of_list_byte (Encode src).

End hex.

(** ** crypto/sha1 (FIPS 180-4) *)
Module sha1.

Definition w32 (x : Z) : Z := x mod 2 ^ 32.

Definition rotl (n x : Z) : Z :=
  w32 (Z.lor (Z.shiftl x n) (Z.shiftr x (32 - n))).

Definition be32 (b0 b1 b2 b3 : byte) : Z :=
  Z.lor (Z.lor (Z.lor (Z.shiftl (byte_to_Z b0) 24) (Z.shiftl (byte_to_Z b1) 16))
               (Z.shiftl (byte_to_Z b2) 8)) (byte_to_Z b3).

Definition put_be (width : nat) (x : Z) : list byte :=
  map (fun i => Z_to_byte (Z.shiftr x (8 * Z.of_nat i))) (rev (seq 0 width)).

Fixpoint words (n : nat) (block : list byte) : list Z :=
  match n, block with
  | S n', b0 :: b1 :: b2 :: b3 :: rest => be32 b0 b1 b2 b3 :: words n' rest
  | _, _ => []
  end.

(** The message schedule, newest word first. *)
Fixpoint extend (n : nat) (ws : list Z) : list Z :=
  match n with
  | O => ws
  | S n' =>
      let w := rotl 1 (Z.lxor (Z.lxor (Z.lxor (nth 2 ws 0) (nth 7 ws 0))
                                      (nth 13 ws 0)) (nth 15 ws 0)) in
      extend n' (w :: ws)
  end.

Definition schedule (block : list byte) : list Z :=
  rev (extend 64 (rev (words 16 block))).

Record state : Type := mkState { h0 : Z; h1 : Z; h2 : Z; h3 : Z; h4 : Z }.

Definition init : state :=
  mkState 0x67452301 0xEFCDAB89 0x98BADCFE 0x10325476 0xC3D2E1F0.

Definition f (t : nat) (b c d : Z) : Z :=
  if (t <? 20)%nat then Z.lor (Z.land b c) (Z.land (Z.lxor b 0xFFFFFFFF) d)
  else if (t <? 40)%nat then Z.lxor (Z.lxor b c) d
  else if (t <? 60)%nat then Z.lor (Z.lor (Z.land b c) (Z.land b d)) (Z.land c d)
  else Z.lxor (Z.lxor b c) d.

Definition K (t : nat) : Z :=
  if (t <? 20)%nat then 0x5A827999
  else if (t <? 40)%nat then 0x6ED9EBA1
  else if (t <? 60)%nat then 0x8F1BBCDC
  else 0xCA62C1D6.

Definition round (st : state) (tw : nat * Z) : state :=
  let '(t, w) := tw in
  let temp := w32 (rotl 5 (h0 st) + f t (h1 st) (h2 st) (h3 st) + h4 st + K t + w) in
  mkState temp (h0 st) (rotl 30 (h1 st)) (h2 st) (h3 st).

Definition compress (st : state) (block : list byte) : state :=
  let ws := schedule block in
  let r := fold_left round (combine (seq 0 80) ws) st in
  mkState (w32 (h0 st + h0 r)) (w32 (h1 st + h1 r)) (w32 (h2 st + h2 r))
          (w32 (h3 st + h3 r)) (w32 (h4 st + h4 r)).

Fixpoint blocks (n : nat) (st : state) (data : list byte) : state :=
  match n with
  | O => st
  | S n' => blocks n' (compress st (firstn 64 data)) (skipn 64 data)
  end.

Definition pad (data : list byte) : list byte :=
  let l := len data in
  let zeros := (55 - l) mod 64 in
  data ++ [x80] ++ repeat x00 (Z.to_nat zeros) ++ put_be 8 (8 * l).

Definition Sum (data : list byte) : list byte :=
  let padded := pad data in
  let st := blocks (length padded / 64) init padded in
  put_be 4 (h0 st) ++ put_be 4 (h1 st) ++ put_be 4 (h2 st)
  ++ put_be 4 (h3 st) ++ put_be 4 (h4 st).

End sha1.

(** ** crypto/aes (FIPS 197)

    The block cipher behind [aes.NewCipher]: the S-boxes are the tables
    [sbox0] and [sbox1] of the library, the rounds are the byte-oriented
    ones of the standard. *)
Module aes.

Definition BlockSize : Z := 16.

(** Multiplication by [x] in GF(2^8) modulo [x^8 + x^4 + x^3 + x + 1]. *)
Definition xtime (x : Z) : Z :=
  let y := Z.shiftl x 1 in
  if Z.testbit x 7 then Z.lxor (Z.land y 255) 0x1b else y.

Fixpoint mulAux (n : nat) (k a : Z) : Z :=
  match n with
  | O => 0
  | S n' => Z.lxor (if Z.odd k then a else 0)
                   (mulAux n' (Z.shiftr k 1) (xtime a))
  end.

(** The field product [k * a]. *)
Definition mul (k a : Z) : Z := mulAux 8 k a.

Definition gmul (k : Z) (b : byte) : byte := Z_to_byte (mul k (byte_to_Z b)).

Fixpoint pow (a : Z) (n : nat) : Z :=
  match n with
  | O => 1
  | S n' => mul a (pow a n')
  end.

Definition rotl8 (x n : Z) : Z :=
  Z.land (Z.lor (Z.shiftl x n) (Z.shiftr x (8 - n))) 255.

Definition affine (b : Z) : Z :=
  Z.lxor (Z.lxor (Z.lxor (Z.lxor (Z.lxor b (rotl8 b 1)) (rotl8 b 2))
                         (rotl8 b 3)) (rotl8 b 4)) 0x63.

Definition allBytes : list byte := map (fun i => Z_to_byte (Z.of_nat i)) (seq 0 256).

(** The forward S-box: the affine image of the field inverse. *)
Definition sbox0 : list byte :=
  Eval vm_compute in
    map (fun b => Z_to_byte (affine (pow (byte_to_Z b) 254))) allBytes.

Definition sub (b : byte) : byte := nth (Z.to_nat (byte_to_Z b)) sbox0 x00.

Fixpoint position (c : byte) (l : list byte) (i : Z) : Z :=
  match l with
  | [] => 0
  | x :: l' => if byte_eqb c x then i else position c l' (i + 1)
  end.

(** The inverse S-box. *)
Definition sbox1 : list byte :=
  Eval vm_compute in map (fun b => Z_to_byte (position b sbox0 0)) allBytes.

Definition invSub (b : byte) : byte := nth (Z.to_nat (byte_to_Z b)) sbox1 x00.

Definition xorBytes (a b : list byte) : list byte := zip_with byte_xor a b.

(** *** Key expansion *)

Definition rotWord (w : list byte) : list byte :=
  match w with
  | a :: rest => rest ++ [a]
  | [] => []
  end.

(** [expand n i Nk rcon ws]: [ws] holds the words [w[i-1]], [w[i-2]], ...
    (newest first); [n] more words are produced. *)
Fixpoint expand (n i Nk : nat) (rcon : Z) (ws : list (list byte))
  : list (list byte) :=
  match n with
  | O => ws
  | S n' =>
      let temp := nth 0 ws [] in
      let prev := nth (Nk - 1) ws [] in
      if (i mod Nk =? 0)%nat then
        let t := xorBytes (map sub (rotWord temp)) [Z_to_byte rcon; x00; x00; x00] in
        expand n' (S i) Nk (xtime rcon) (xorBytes prev t :: ws)
      else if (6 <? Nk)%nat && (i mod Nk =? 4)%nat then
        expand n' (S i) Nk rcon (xorBytes prev (map sub temp) :: ws)
      else
        expand n' (S i) Nk rcon (xorBytes prev temp :: ws)
  end.

Fixpoint chunk4 {A} (n : nat) (l : list A) : list (list A) :=
  match n with
  | O => []
  | S n' => firstn 4 l :: chunk4 n' (skipn 4 l)
  end.

(** The round keys [rk_0 .. rk_Nr], sixteen bytes each. *)
Definition expandKey (key : list byte) : list (list byte) :=
  let Nk := (length key / 4)%nat in
  let Nr := (Nk + 6)%nat in
  let w := rev (expand (4 * (Nr + 1) - Nk) Nk Nk 1 (rev (chunk4 Nk key))) in
  map (fun ws => concat ws) (chunk4 (Nr + 1) w).

Record Block : Type := mkBlock { roundKeys : list (list byte) }.

Definition NewCipher (key : list byte) : result Block :=
  match length key with
  | 16%nat | 24%nat | 32%nat => Ok (mkBlock (expandKey key))
  | k => Err (KeySizeError k)
  end.

(** *** The round functions, on a state of sixteen bytes in input order
    (column by column). *)

Definition subBytes (st : list byte) : list byte := map sub st.
Definition invSubBytes (st : list byte) : list byte := map invSub st.

Definition pick (st : list byte) (perm : list nat) : list byte :=
  map (fun i => nth i st x00) perm.

Definition shiftRows (st : list byte) : list byte :=
  pick st [0; 5; 10; 15; 4; 9; 14; 3; 8; 13; 2; 7; 12; 1; 6; 11]%nat.

Definition invShiftRows (st : list byte) : list byte :=
  pick st [0; 13; 10; 7; 4; 1; 14; 11; 8; 5; 2; 15; 12; 9; 6; 3]%nat.

Definition xor4 (a b c d : byte) : byte :=
  byte_xor (byte_xor (byte_xor a b) c) d.

Definition mixColumn (a b c d : byte) : list byte :=
  [ xor4 (gmul 2 a) (gmul 3 b) c d;
    xor4 a (gmul 2 b) (gmul 3 c) d;
    xor4 a b (gmul 2 c) (gmul 3 d);
    xor4 (gmul 3 a) b c (gmul 2 d) ].

Definition invMixColumn (a b c d : byte) : list byte :=
  [ xor4 (gmul 14 a) (gmul 11 b) (gmul 13 c) (gmul 9 d);
    xor4 (gmul 9 a) (gmul 14 b) (gmul 11 c) (gmul 13 d);
    xor4 (gmul 13 a) (gmul 9 b) (gmul 14 c) (gmul 11 d);
    xor4 (gmul 11 a) (gmul 13 b) (gmul 9 c) (gmul 14 d) ].

Fixpoint columns (f : byte -> byte -> byte -> byte -> list byte)
    (st : list byte) : list byte :=
  match st with
  | a :: b :: c :: d :: rest => f a b c d ++ columns f rest
  | _ => []
  end.

Definition mixColumns : list byte -> list byte := columns mixColumn.
Definition invMixColumns : list byte -> list byte := columns invMixColumn.

Definition addRoundKey (rk st : list byte) : list byte := xorBytes st rk.

(** Rounds [1 .. Nr] of the cipher; the last one has no [mixColumns]. *)
Fixpoint encRounds (rks : list (list byte)) (st : list byte) : list byte :=
  match rks with
  | [] => st
  | [rk] => addRoundKey rk (shiftRows (subBytes st))
  | rk :: rks' =>
      encRounds rks' (addRoundKey rk (mixColumns (shiftRows (subBytes st))))
  end.

(** The inverse cipher undoes round [Nr] first. *)
Fixpoint decRounds (rks : list (list byte)) (st : list byte) : list byte :=
  match rks with
  | [] => st
  | [rk] => invSubBytes (invShiftRows (addRoundKey rk st))
  | rk :: rks' =>
      invSubBytes (invShiftRows (invMixColumns
        (addRoundKey rk (decRounds rks' st))))
  end.

(** [Block.Encrypt] and [Block.Decrypt] on one full block. *)
Definition Encrypt (b : Block) (src : list byte) : list byte :=
  match roundKeys b with
  | [] => src
  | rk0 :: rks => encRounds rks (addRoundKey rk0 src)
  end.

Definition Decrypt (b : Block) (src : list byte) : list byte :=
  match roundKeys b with
  | [] => src
  | rk0 :: rks => addRoundKey rk0 (decRounds rks src)
  end.

End aes.

(** ** crypto/cipher: CBC mode *)
Module cipher.

(** [n] blocks of [src], chained from [iv]. *)
Fixpoint cbcEncrypt (b : aes.Block) (n : nat) (iv src : list byte) : list byte :=
  match n with
  | O => []
  | S n' =>
      let c := aes.Encrypt b (aes.xorBytes (firstn 16 src) iv) in
      c ++ cbcEncrypt b n' c (skipn 16 src)
  end.

Fixpoint cbcDecrypt (b : aes.Block) (n : nat) (iv src : list byte) : list byte :=
  match n with
  | O => []
  | S n' =>
      let c := firstn 16 src in
      aes.xorBytes (aes.Decrypt b c) iv ++ cbcDecrypt b n' c (skipn 16 src)
  end.

Inductive direction := Encrypter | Decrypter.

(** [NewCBCEncrypter(b, iv).CryptBlocks(dst, src)] with [dst] a fresh
    buffer of [len(src)] bytes, and the decrypting twin. *)
Definition CryptBlocks (d : direction) (b : aes.Block) (iv src : list byte)
  : result (list byte) :=
  if negb (len iv =? aes.BlockSize)
  then Err (panic "cipher.NewCBC: IV length must equal block size")
  else if negb (len src mod aes.BlockSize =? 0)
  then Err (panic "crypto/cipher: input not full blocks")
  else
    let n := (length src / 16)%nat in
    match d with
    | Encrypter => Ok (cbcEncrypt b n iv src)
    | Decrypter => Ok (cbcDecrypt b n iv src)
    end.

End cipher.

(** ** sort.Strings and the [strings] helpers *)

(** Go compares strings byte by byte, as [String.leb] does. *)
Fixpoint insertSorted (s : string) (l : list string) : list string :=
  match l with
  | [] => [s]
  | x :: l' => if String.leb s x then s :: l else x :: insertSorted s l'
  end.

Definition sort_Strings (l : list string) : list string :=
  fold_right insertSorted [] l.

Definition strings_Join (parts : list string) (sep : string) : string :=
  String.concat sep parts.

Definition toLowerASCII (b : byte) : byte :=
  let z := byte_to_Z b in
  if (65 <=? z) && (z <=? 90) then Z_to_byte (z + 32) else b.

(** [strings.EqualFold] on ASCII text.  Go folds by Unicode simple case
    folding; the one caller compares against a lower-case hexadecimal
    digest, whose letters [a]..[f] have no fold partner outside ASCII. *)
Definition strings_EqualFold (s t : string) : bool :=
  bytes_eqb (map toLowerASCII (list_byte_of_string s))
            (map toLowerASCII (list_byte_of_string t)).

(** ** net/url: [QueryUnescape] *)
Module url.

Definition ishex (c : byte) : bool :=
  let z := byte_to_Z c in
  ((48 <=? z) && (z <=? 57)) || ((97 <=? z) && (z <=? 102))
  || ((65 <=? z) && (z <=? 70)).

Definition unhex (c : byte) : Z :=
  let z := byte_to_Z c in
  if (48 <=? z) && (z <=? 57) then z - 48
  else if (97 <=? z) && (z <=? 102) then z - 97 + 10
  else if (65 <=? z) && (z <=? 70) then z - 65 + 10
  else 0.

(** [unescape s encodeQueryComponent]: the scan for malformed escapes and
    the rewriting pass, fused (the first malformed ['%'] aborts both). *)
Fixpoint unescape (s : list byte) : result (list byte) :=
  match s with
  | [] => Ok []
  | c :: rest =>
      if byte_eqb c "%"%byte then
        match rest with
        | h1 :: h2 :: rest' =>
            if ishex h1 && ishex h2
            then t ← unescape rest';
                 Ok (Z_to_byte (Z.lor (Z.shiftl (unhex h1) 4) (unhex h2)) :: t)
            else Err (EscapeError (firstn 3 s))
        | _ => Err (EscapeError (firstn 3 s))
        end
      else if byte_eqb c "+"%byte then
        t ← unescape rest; Ok (" "%byte :: t)
      else
        t ← unescape rest; Ok (c :: t)
  end.

Definition QueryUnescape (s : string) : result string :=
  t ← unescape (list_byte_of_string s); Ok (string_of_list_byte t).

End url.

(** ** crypt.go: key decoding *)

Definition strings_Repeat (s : string) (count : Z) : string :=
  fold_right String.append EmptyString (repeat s (Z.to_nat count)).

Definition strlen (s : string) : Z := len (list_byte_of_string s).

(** [decodeAESKey]: Go's [%] on a non-negative [int] is [Z.modulo]. *)
Definition decodeAESKey (encodingKey : string) : result (list byte) :=
  if strlen encodingKey =? 0 then Err ErrInvalidAESKey
  else
    let padding := (4 - strlen encodingKey mod 4) mod 4 in
    let encoded := String.append encodingKey (strings_Repeat "=" padding) in
    match base64.DecodeString encoded with
    | Err err => Err (wrapError "decode aes key" err)
    | Ok key =>
        if negb (len key =? 32) then Err ErrInvalidAESKey
        else Ok key
    end.

Record Crypt : Type := mkCrypt {
  token : string;
  aesKey : list byte;
  corpID : string;
}.

Definition NewCrypt (token encodingAESKey corpID : string) : result Crypt :=
  key ← decodeAESKey encodingAESKey;
  Ok {| token := token; aesKey := key; corpID := corpID |}.

(** ** crypt.go: signatures *)

Definition CalcSignature (token timestamp nonce data : string) : string :=
  let parts := sort_Strings [token; timestamp; nonce; data] in
  let s := strings_Join parts "" in
  let h := sha1.Sum (list_byte_of_string s) in
  hex.EncodeToString h.

Definition validateSignature (c : Crypt)
    (msgSignature timestamp nonce data : string) : bool :=
  let expected := CalcSignature (token c) timestamp nonce data in
  strings_EqualFold expected msgSignature.

(** ** encoding/binary: [BigEndian] *)
Module binary.

(** [BigEndian.Uint32(b)]; the caller guarantees [len(b) >= 4]. *)
Definition Uint32 (b : list byte) : Z :=
  match b with
  | b0 :: b1 :: b2 :: b3 :: _ =>
      Z.lor (Z.lor (Z.lor (Z.shiftl (byte_to_Z b0) 24) (Z.shiftl (byte_to_Z b1) 16))
                   (Z.shiftl (byte_to_Z b2) 8)) (byte_to_Z b3)
  | _ => 0
  end.

(** [BigEndian.PutUint32(b, v)] on a four-byte buffer. *)
Definition PutUint32 (v : Z) : list byte :=
  [ Z_to_byte (Z.shiftr v 24); Z_to_byte (Z.shiftr v 16);
    Z_to_byte (Z.shiftr v 8); Z_to_byte v ].

End binary.

(** ** crypt.go: padding *)

Definition padBlockSize : Z := 32.

Definition bytesRepeat (b : byte) (count : Z) : list byte :=
  repeat b (Z.to_nat count).

Definition pkcs7Pad (data : list byte) (blockSize : Z) : list byte :=
  let padLen := blockSize - len data mod blockSize in
  let pad := bytesRepeat (Z_to_byte padLen) padLen in
  data ++ pad.

(** [data[i]] for an index already known to be in range. *)
Definition at_ (data : list byte) (i : Z) : byte := nth (Z.to_nat i) data x00.

Definition pkcs7Unpad (data : list byte) (blockSize : Z) : result (list byte) :=
  if (len data =? 0) || negb (len data mod blockSize =? 0)
  then Err (errorString "invalid padding size")
  else
    let padLen := byte_to_Z (at_ data (len data - 1)) in
    if (padLen =? 0) || (padLen >? blockSize)
    then Err (errorString "invalid padding")
    else if forallb (fun i : nat =>
                       byte_eqb (at_ data (len data - 1 - Z.of_nat i))
                                (Z_to_byte padLen))
                    (seq 0 (Z.to_nat padLen))
    then Ok (slice data 0 (len data - padLen))
    else Err (errorString "invalid padding").

(** ** crypt.go: [decrypt] and [encrypt] *)

(** [uint32(x)]. *)
Definition uint32 (x : Z) : Z := x mod 2 ^ 32.

(** The slice expression [s[lo:hi]] on a slice of capacity [capacity]:
    Go panics unless [0 <= lo <= hi <= cap(s)]. *)
Definition sliceExpr (s : list byte) (lo hi capacity : Z) : result (list byte) :=
  if (0 <=? lo) && (lo <=? hi) && (hi <=? capacity)
  then Ok (slice s lo hi)
  else Err (panic "slice bounds out of range").

(** [decrypt], where [int] has 64 bits: the guard on the length field
    compares [int(msgLen)], which is then [msgLen].  [decryptOn] below
    has the conversion, for either width. *)
Definition decrypt (c : Crypt) (cipherText : string) : result (list byte) :=
  match base64.DecodeString cipherText with
  | Err err => Err (wrapError "base64 decode" err)
  | Ok cipherData =>
      block ← aes.NewCipher (aesKey c);
      if negb (len cipherData mod aes.BlockSize =? 0)
      then Err (errorString "invalid ciphertext length")
      else
        let iv := slice (aesKey c) 0 aes.BlockSize in
        plain ← cipher.CryptBlocks cipher.Decrypter block iv cipherData;
        plain ← pkcs7Unpad plain padBlockSize;
        if len plain <? 20 then Err (errorString "plaintext too short")
        else
          let content := slice plain 16 (len plain) in
          let msgLen := binary.Uint32 (slice content 0 4) in
          if msgLen >? len (slice content 4 (len content))
          then Err (errorString "invalid message length")
          else
            (* [content[4 : 4+msgLen]]: the bound is a [uint32] sum; the
               capacity of [content] is that of the decrypted buffer less
               the sixteen bytes skipped. *)
            sliceExpr content 4 (uint32 (4 + msgLen)) (len cipherData - 16)
  end.

(** [io.ReadFull(r, buf)] for a buffer of [n] bytes, the reader being
    given by the bytes it will deliver. *)
Definition io_ReadFull (r : list byte) (n : Z) : result (list byte) :=
  if n <=? len r then Ok (slice r 0 n)
  else if len r =? 0 then Err EOF
  else Err ErrUnexpectedEOF.

(** [encrypt]; [random] is what [rand.Reader] delivers. *)
Definition encrypt (c : Crypt) (random : list byte) (plain : list byte)
  : result string :=
  block ← aes.NewCipher (aesKey c);
  randomBytes ← io_ReadFull random 16;
  let msgLen := uint32 (len plain) in
  let buf := randomBytes ++ binary.PutUint32 msgLen ++ plain
             ++ list_byte_of_string (corpID c) in
  let buf := pkcs7Pad buf padBlockSize in
  let iv := slice (aesKey c) 0 aes.BlockSize in
  cipherData ← cipher.CryptBlocks cipher.Encrypter block iv buf;
  Ok (base64.EncodeToString cipherData).

Definition Encrypt := encrypt.
Definition Decrypt := decrypt.

Definition VerifyURL (c : Crypt) (msgSignature timestamp nonce echoStr : string)
  : result string :=
  _ ← (if negb (validateSignature c msgSignature timestamp nonce echoStr)
       then
         match url.QueryUnescape echoStr with
         | Err err => Err (wrapError "decode echostr" err)
         | Ok decoded =>
             if negb (validateSignature c msgSignature timestamp nonce decoded)
             then Err ErrInvalidSignature
             else Ok tt
         end
       else Ok tt);
  plain ← decrypt c echoStr;
  Ok (string_of_list_byte plain).

(** ** crypt.go: [decrypt] where [int] has 32 bits *)

(** [int(x)] for an [int] of [intSize] bits. *)
Definition toInt (intSize x : Z) : Z :=
  (x + 2 ^ (intSize - 1)) mod 2 ^ intSize - 2 ^ (intSize - 1).

(** [decrypt] for either width of [int].  The guard on the length field
    compares [int(msgLen)]; with 64 bits the conversion changes nothing
    and this is [decrypt] above, with 32 bits a length field of [2^31]
    or more turns negative and passes the guard.  The bounds of the
    slice expression are checked as numbers, whatever their type. *)
Definition decryptOn (intSize : Z) (c : Crypt) (cipherText : string)
  : result (list byte) :=
  match base64.DecodeString cipherText with
  | Err err => Err (wrapError "base64 decode" err)
  | Ok cipherData =>
      block ← aes.NewCipher (aesKey c);
      if negb (len cipherData mod aes.BlockSize =? 0)
      then Err (errorString "invalid ciphertext length")
      else
        let iv := slice (aesKey c) 0 aes.BlockSize in
        plain ← cipher.CryptBlocks cipher.Decrypter block iv cipherData;
        plain ← pkcs7Unpad plain padBlockSize;
        if len plain <? 20 then Err (errorString "plaintext too short")
        else
          let content := slice plain 16 (len plain) in
          let msgLen := binary.Uint32 (slice content 0 4) in
          if toInt intSize msgLen >? len (slice content 4 (len content))
          then Err (errorString "invalid message length")
          else
            sliceExpr content 4 (uint32 (4 + msgLen)) (len cipherData - 16)
  end.

(** ** message.go: payloads, the store they live in, replies *)

Definition ptr : Type := nat.

Record TextPayload : Type := mkText { TextContent : string }.

Record ImagePayload : Type := mkImage {
  ImageURL : string;
  ImageBase64 : string;
  ImageMD5 : string;
}.

(** [MixedItem]: the payloads are behind pointers ([*TextPayload],
    [*ImagePayload]); [None] is [nil]. *)
Record MixedItem : Type := mkItem {
  ItemMsgType : string;
  ItemText : option ptr;
  ItemImage : option ptr;
}.

Definition zeroItem : MixedItem := mkItem "" None None.

(** The part of the Go heap the package shares with its callers: text and
    image payloads reached through pointers, and the backing arrays of
    [[]MixedItem] slices.  Addresses are positions in these lists; Go
    never frees what is still referenced, so nothing is ever removed. *)
Record Heap : Type := mkHeap {
  texts : list TextPayload;
  images : list ImagePayload;
  arrays : list (list MixedItem);
}.

(** A slice value [[]MixedItem]: [nil], or a window on a backing array. *)
Inductive Slice : Type :=
| NilSlice
| SliceOf (array : ptr) (offset length : nat).

Definition slen (s : Slice) : nat :=
  match s with
  | NilSlice => 0
  | SliceOf _ _ n => n
  end.

(** The elements a slice shows in a given heap. *)
Definition elems (h : Heap) (s : Slice) : list MixedItem :=
  match s with
  | NilSlice => []
  | SliceOf a off n => take n (drop off (default [] (arrays h !! a)))
  end.

(** [make([]MixedItem, n)]. *)
Definition make (h : Heap) (n : nat) : Heap * Slice :=
  ({| texts := texts h; images := images h;
      arrays := arrays h ++ [replicate n zeroItem] |},
   SliceOf (length (arrays h)) 0 n).

Definition writeArray (h : Heap) (a : ptr) (arr : list MixedItem) : Heap :=
  {| texts := texts h; images := images h; arrays := <[a := arr]> (arrays h) |}.

(** [copy(dst, src)]: the first [min(len(dst), len(src))] elements. *)
Definition copy (h : Heap) (dst src : Slice) : Heap :=
  match dst with
  | NilSlice => h
  | SliceOf a off n =>
      let k := Nat.min n (slen src) in
      let arr := default [] (arrays h !! a) in
      writeArray h a (take off arr ++ take k (elems h src) ++ drop (off + k) arr)
  end.

(** The caller's statement [items[i] = v]. *)
Definition storeItem (h : Heap) (items : Slice) (i : nat) (v : MixedItem)
  : result Heap :=
  match items with
  | SliceOf a off n =>
      if (i <? n)%nat
      then Ok (writeArray h a (<[(off + i)%nat := v]> (default [] (arrays h !! a))))
      else Err (panic "index out of range")
  | NilSlice => Err (panic "index out of range")
  end.

(** The caller's statement [*p = v] for an image payload, as in
    [items[i].Image.Base64 = ...]. *)
Definition storeImage (h : Heap) (p : ptr) (v : ImagePayload) : Heap :=
  {| texts := texts h; images := <[p := v]> (images h); arrays := arrays h |}.

Definition storeText (h : Heap) (p : ptr) (v : TextPayload) : Heap :=
  {| texts := <[p := v]> (texts h); images := images h; arrays := arrays h |}.

Record FeedbackInfo : Type := mkFeedback { FeedbackID : string }.

Record StreamReplyBody : Type := mkBody {
  ID : string;
  Finish : bool;
  ReplyContent : string;
  MsgItem : Slice;
  Feedback : option FeedbackInfo;
}.

Record StreamReply : Type := mkReply {
  ReplyMsgType : string;
  StreamBody : StreamReplyBody;     (* the field [Stream] *)
}.

Record EncryptedResponse : Type := mkEncryptedResponse {
  RespEncrypt : string;
  MsgSignature : string;
  Timestamp : string;
  Nonce : string;
}.

Definition BuildStreamReply (streamID content : string) (finish : bool)
  : StreamReply :=
  {| ReplyMsgType := "stream";
     StreamBody := {| ID := streamID; Finish := finish; ReplyContent := content;
                  MsgItem := NilSlice; Feedback := None |} |}.

Definition setMsgItem (reply : StreamReply) (items : Slice) : StreamReply :=
  {| ReplyMsgType := ReplyMsgType reply;
     StreamBody := {| ID := ID (StreamBody reply);
                      Finish := Finish (StreamBody reply);
                      ReplyContent := ReplyContent (StreamBody reply);
                      MsgItem := items;
                      Feedback := Feedback (StreamBody reply) |} |}.

Definition BuildStreamReplyWithMsgItems (h : Heap) (streamID content : string)
    (finish : bool) (items : Slice) : Heap * StreamReply :=
  let reply := BuildStreamReply streamID content finish in
  if finish && (0 <? slen items)%nat then
    let '(h1, cloned) := make h (slen items) in
    let h2 := copy h1 cloned items in
    (h2, setMsgItem reply cloned)
  else (h, reply).

(** *** What [encoding/json] makes of a reply

    The encoder walks the struct through the [json] tags; [omitempty]
    drops a nil pointer, an empty string and a slice of length zero. *)
#[warnings="-register-all"] Inductive json : Type :=
| JNull
| JBool (b : bool)
| JString (s : string)
| JArray (l : list json)
| JObject (members : list (string * json)).

Definition omitemptyString (key value : string) : list (string * json) :=
  if String.eqb value "" then [] else [(key, JString value)].

Definition TextPayload_json (t : TextPayload) : json :=
  JObject [("content", JString (TextContent t))].

Definition ImagePayload_json (i : ImagePayload) : json :=
  JObject (omitemptyString "url" (ImageURL i)
           ++ omitemptyString "base64" (ImageBase64 i)
           ++ omitemptyString "md5" (ImageMD5 i)).

(** A pointer is followed into the heap; [JNull] stands for an address
    outside it, which no Go pointer is. *)
Definition MixedItem_json (h : Heap) (it : MixedItem) : json :=
  JObject ([("msgtype", JString (ItemMsgType it))]
           ++ match ItemText it with
              | None => []
              | Some p => [("text", from_option TextPayload_json JNull (texts h !! p))]
              end
           ++ match ItemImage it with
              | None => []
              | Some p => [("image", from_option ImagePayload_json JNull (images h !! p))]
              end).

Definition FeedbackInfo_json (f : FeedbackInfo) : json :=
  JObject (omitemptyString "id" (FeedbackID f)).

Definition StreamReplyBody_json (h : Heap) (b : StreamReplyBody) : json :=
  JObject ([("id", JString (ID b)); ("finish", JBool (Finish b));
            ("content", JString (ReplyContent b))]
           ++ (if (0 <? slen (MsgItem b))%nat
               then [("msg_item", JArray (map (MixedItem_json h) (elems h (MsgItem b))))]
               else [])
           ++ match Feedback b with
              | None => []
              | Some f => [("feedback", FeedbackInfo_json f)]
              end).

Definition StreamReply_json (h : Heap) (r : StreamReply) : json :=
  JObject [("msgtype", JString (ReplyMsgType r));
           ("stream", StreamReplyBody_json h (StreamBody r))].

(** Member lookup in an encoded object. *)
Fixpoint assoc (key : string) (members : list (string * json)) : option json :=
  match members with
  | [] => None
  | (k, v) :: rest => if String.eqb k key then Some v else assoc key rest
  end.

Definition member (key : string) (j : json) : option json :=
  match j with
  | JObject ms => assoc key ms
  | _ => None
  end.

(** What a client reads under ["stream"] / ["msg_item"] of an encoded
    reply. *)
Definition msg_item_of (j : json) : option json :=
  match member "stream" j with
  | Some body => member "msg_item" body
  | None => None
  end.

(** ** handler.go *)

(** A value held in an [any]: a stream reply, the sentinel [NoResponse]
    ([struct{}{}]), or another reply value (a template card, a text
    message) given by its encoding. *)
Inductive any : Type :=
| ReplyValue (r : StreamReply)
| NoResponse
| OtherValue (j : json).

(** Modelled from the spec: the [MsgItems] field of [Chunk], which
    [stream.go] and [bot.go] read; the declaration of [Chunk] in
    [handler.go] has [Content], [Payload] and [IsFinal] only. *)
Record Chunk : Type := mkChunk {
  Content : string;
  MsgItems : Slice;
  Payload : option any;
  IsFinal : bool;
}.

Record StreamPayload : Type := mkStreamPayload {
  StreamPayloadID : string;
}.

(** The fields of [Message] the stream manager and the dispatcher read. *)
Record Message : Type := mkMessage {
  MsgID : string;
  ChatID : string;
  FromUserID : string;
  ResponseURL : string;
  MsgType : string;
  MsgStream : option StreamPayload;
}.

(** ** stream.go *)

(** A [Stream] object.  [addr] is its address: the manager's table holds
    [*Stream], and two sessions are the same session when they are the
    same object.  [queue] is the content of the buffered channel, oldest
    first.  Times are nanoseconds. *)
Record Stream : Type := mkStream {
  addr : ptr;
  StreamID : string;
  StreamMsgID : string;
  StreamChatID : string;
  UserID : string;
  StreamResponseURL : string;
  CreatedAt : Z;
  LastAccess : Z;
  Finished : bool;
  queue : list Chunk;
  LastChunk : option Chunk;
  StreamMessage : Message;
}.

Definition queueCapacity : nat := 16.

Record StreamManager : Type := mkManager {
  streams : gmap string Stream;
  msgIndex : gmap string string;
  ttl : Z;
  timeout : Z;
  allocated : nat;           (* Stream objects allocated so far *)
}.

(** [newStreamManager], the two durations resolved ([resolveDuration]
    reads the environment, which is not modelled). *)
Definition newStreamManager (ttl timeout : Z) : StreamManager :=
  {| streams := ∅; msgIndex := ∅; ttl := ttl; timeout := timeout;
     allocated := 0 |}.

Definition withStream (m : StreamManager) (streamID : string) (s : Stream)
  : StreamManager :=
  {| streams := <[streamID := s]> (streams m); msgIndex := msgIndex m;
     ttl := ttl m; timeout := timeout m; allocated := allocated m |}.

Definition getStream (m : StreamManager) (streamID : string) : option Stream :=
  if String.eqb streamID "" then None else streams m !! streamID.

Definition getStreamIDByMsg (m : StreamManager) (msgID : string) : string * bool :=
  if String.eqb msgID "" then (""%string, false)
  else match msgIndex m !! msgID with
       | Some streamID => (streamID, true)
       | None => (""%string, false)
       end.

Definition touch (now : Z) (s : Stream) : Stream :=
  {| addr := addr s; StreamID := StreamID s; StreamMsgID := StreamMsgID s;
     StreamChatID := StreamChatID s; UserID := UserID s;
     StreamResponseURL := StreamResponseURL s; CreatedAt := CreatedAt s;
     LastAccess := now; Finished := Finished s; queue := queue s;
     LastChunk := LastChunk s; StreamMessage := StreamMessage s |}.

Definition setFinished (now : Z) (s : Stream) : Stream :=
  {| addr := addr s; StreamID := StreamID s; StreamMsgID := StreamMsgID s;
     StreamChatID := StreamChatID s; UserID := UserID s;
     StreamResponseURL := StreamResponseURL s; CreatedAt := CreatedAt s;
     LastAccess := now; Finished := true; queue := queue s;
     LastChunk := LastChunk s; StreamMessage := StreamMessage s |}.

Definition setLastChunk (now : Z) (c : Chunk) (s : Stream) : Stream :=
  {| addr := addr s; StreamID := StreamID s; StreamMsgID := StreamMsgID s;
     StreamChatID := StreamChatID s; UserID := UserID s;
     StreamResponseURL := StreamResponseURL s; CreatedAt := CreatedAt s;
     LastAccess := now; Finished := Finished s; queue := queue s;
     LastChunk := Some c; StreamMessage := StreamMessage s |}.

Definition setQueue (q : list Chunk) (s : Stream) : Stream :=
  {| addr := addr s; StreamID := StreamID s; StreamMsgID := StreamMsgID s;
     StreamChatID := StreamChatID s; UserID := UserID s;
     StreamResponseURL := StreamResponseURL s; CreatedAt := CreatedAt s;
     LastAccess := LastAccess s; Finished := Finished s; queue := q;
     LastChunk := LastChunk s; StreamMessage := StreamMessage s |}.

(** [generateStreamID]: sixteen random bytes in hexadecimal, or the
    clock in decimal when the random source fails. *)
Definition generateStreamID (random : list byte) (now : Z) : string :=
  match io_ReadFull random 16 with
  | Err _ => pretty now
  | Ok b => hex.EncodeToString b
  end.

(** [createOrGet]; [now] is the clock and [random] what [rand.Read]
    delivers.  The result is the session and whether it was created.
    This is one call with no other call on the manager between its
    lookup and its insertion; the two parts are [createOrGetFind] and
    [createOrGetInsert] below. *)
Definition createOrGet (m : StreamManager) (now : Z) (random : list byte)
    (msg : Message) : StreamManager * (Stream * bool) :=
  let existing :=
    if negb (String.eqb (MsgID msg) "") then
      let '(streamID, ok) := getStreamIDByMsg m (MsgID msg) in
      if ok then (fun s => (streamID, s)) <$> getStream m streamID else None
    else None in
  match existing with
  | Some (key, s) =>
      (* [existing.touch()] writes through the pointer held under [key] *)
      let s' := touch now s in
      (withStream m key s', (s', false))
  | None =>
      let streamID := generateStreamID random now in
      let stream :=
        {| addr := allocated m; StreamID := streamID; StreamMsgID := MsgID msg;
           StreamChatID := ChatID msg; UserID := FromUserID msg;
           StreamResponseURL := ResponseURL msg; CreatedAt := now;
           LastAccess := now; Finished := false; queue := [];
           LastChunk := None; StreamMessage := msg |} in
      ({| streams := <[streamID := stream]> (streams m);
          msgIndex := if negb (String.eqb (MsgID msg) "")
                      then <[MsgID msg := streamID]> (msgIndex m)
                      else msgIndex m;
          ttl := ttl m; timeout := timeout m;
          allocated := S (allocated m) |},
       (stream, true))
  end.

Definition setContent (c : Chunk) (content : string) : Chunk :=
  {| Content := content; MsgItems := MsgItems c; Payload := Payload c;
     IsFinal := IsFinal c |}.

Definition setMsgItems (c : Chunk) (items : Slice) : Chunk :=
  {| Content := Content c; MsgItems := items; Payload := Payload c;
     IsFinal := IsFinal c |}.

Definition setIsFinal (c : Chunk) (final : bool) : Chunk :=
  {| Content := Content c; MsgItems := MsgItems c; Payload := Payload c;
     IsFinal := final |}.

(** The section of [publish] under the stream lock: the snapshot that
    will be queued, and the stream with [LastChunk] and [LastAccess]
    updated. *)
Definition publishLocked (h : Heap) (now : Z) (stream : Stream) (chunk : Chunk)
  : Heap * Stream * Chunk :=
  let fullChunk := chunk in
  let fullChunk :=
    match Payload chunk, LastChunk stream with
    | None, Some last => setContent fullChunk (Content last ++ Content chunk)
    | Some _, _ => setMsgItems (setContent fullChunk "") NilSlice
    | None, None => fullChunk
    end in
  let '(h, fullChunk) :=
    if (0 <? slen (MsgItems fullChunk))%nat then
      let '(h1, cloned) := make h (slen (MsgItems fullChunk)) in
      (copy h1 cloned (MsgItems fullChunk), setMsgItems fullChunk cloned)
    else (h, fullChunk) in
  (h, setLastChunk now fullChunk stream, fullChunk).

(** How a call of [publish] ends: it returns, or it is parked on the send
    to a full queue, [LastChunk] already updated, until a consumer
    receives.  What becomes of the parked goroutine and of the snapshot
    in its hand is in [publishSend] and [publishResume] below. *)
Inductive published : Type :=
| PublishReturns (h : Heap) (m : StreamManager) (ok : bool)
| PublishParked (h : Heap) (m : StreamManager).

(** [publish], with no other call on the session between its locked
    section and its send. *)
Definition publish (h : Heap) (m : StreamManager) (now : Z) (streamID : string)
    (chunk : Chunk) : published :=
  match getStream m streamID with
  | None => PublishReturns h m false
  | Some stream =>
      let '(h, stream, fullChunk) := publishLocked h now stream chunk in
      let finished := IsFinal fullChunk in
      if (length (queue stream) <? queueCapacity)%nat then
        let stream := setQueue (queue stream ++ [fullChunk]) stream in
        let stream := if finished then setFinished now stream else stream in
        PublishReturns h (withStream m streamID stream) true
      else PublishParked h (withStream m streamID stream)
  end.

(** The drain loop of [getLatestChunk]: receive while the queue has
    something. *)
Fixpoint drain (latestChunk : Chunk) (finalSeen : bool) (q : list Chunk)
  : Chunk * bool :=
  match q with
  | [] => (latestChunk, finalSeen)
  | nextChunk :: q' =>
      drain nextChunk (if IsFinal nextChunk then true else finalSeen) q'
  end.

(** [getLatestChunk].  The [select] is resolved by the queue: a waiting
    element is received; on an empty queue, with no publisher running
    beside the call, the timer fires.  This is the call run alone, with
    no sender blocked on the queue and the timer not expired when the
    [select] is reached; [getLatestChunkCall] below has the rest. *)
Definition getLatestChunk (m : StreamManager) (now : Z) (streamID : string)
  : StreamManager * option Chunk :=
  if String.eqb streamID "" then (m, None)
  else
    match getStream m streamID with
    | None => (m, None)
    | Some stream =>
        let stream := touch now stream in
        match queue stream with
        | firstChunk :: rest =>
            let '(latestChunk, finalSeen) :=
              drain firstChunk (IsFinal firstChunk) rest in
            let latestChunk :=
              if finalSeen then setIsFinal latestChunk true else latestChunk in
            let stream := setQueue [] stream in
            let stream := setLastChunk now latestChunk stream in
            let stream :=
              if IsFinal latestChunk then setFinished now stream else stream in
            (withStream m streamID stream, Some latestChunk)
        | [] =>
            let stream := touch now stream in
            let cached :=
              if Finished stream then LastChunk stream else None in
            (withStream m streamID stream, cached)
        end
    end.

Definition markFinished (m : StreamManager) (now : Z) (streamID : string)
  : StreamManager :=
  match getStream m streamID with
  | None => m
  | Some stream => withStream m streamID (setFinished now stream)
  end.

(** ** bot.go: the refresh path *)
Section Bot.

(** [jsonMarshal] is a package variable of [crypt.go], replaceable in
    tests; it reads the heap to follow the pointers of what it encodes. *)
Variable jsonMarshal : Heap -> any -> result (list byte).

Definition EncryptResponse (c : Crypt) (h : Heap) (random : list byte)
    (payload : any) (timestamp nonce : string) : result EncryptedResponse :=
  body ← jsonMarshal h payload;
  encrypted ← encrypt c random body;
  let signature := CalcSignature (token c) timestamp nonce encrypted in
  Ok {| RespEncrypt := encrypted; MsgSignature := signature;
        Timestamp := timestamp; Nonce := nonce |}.

(** [refresh]: the bot is its crypt context [c] and its stream manager
    [m]; the heap and the manager after the call are returned with the
    response. *)
Definition refresh (c : Crypt) (h : Heap) (m : StreamManager) (now : Z)
    (random : list byte) (msg : Message) (timestamp nonce : string)
  : Heap * StreamManager * result EncryptedResponse :=
  let streamID :=
    match MsgStream msg with
    | Some sp => StreamPayloadID sp
    | None => ""%string
    end in
  if String.eqb streamID "" then
    let reply := BuildStreamReply "" "" true in
    (h, m, EncryptResponse c h random (ReplyValue reply) timestamp nonce)
  else
    let '(m, chunk) := getLatestChunk m now streamID in
    match chunk with
    | None =>
        let reply := BuildStreamReply streamID "" false in
        (h, m, EncryptResponse c h random (ReplyValue reply) timestamp nonce)
    | Some chunk =>
        let m := if IsFinal chunk then markFinished m now streamID else m in
        match Payload chunk with
        | Some payload =>
            (h, m, EncryptResponse c h random payload timestamp nonce)
        | None =>
            if IsFinal chunk && (0 <? slen (MsgItems chunk))%nat then
              let '(h, reply) :=
                BuildStreamReplyWithMsgItems h streamID (Content chunk) true
                                             (MsgItems chunk) in
              (h, m, EncryptResponse c h random (ReplyValue reply) timestamp nonce)
            else
              let reply := BuildStreamReply streamID (Content chunk) (IsFinal chunk) in
              (h, m, EncryptResponse c h random (ReplyValue reply) timestamp nonce)
        end
    end.

End Bot.

(** ** Runs of one session

    What happens to a session is a sequence of calls, each at its own
    clock reading: the handler task publishes, the refresh path polls.
    A run in which a publish is parked on the full queue does not
    complete. *)
Inductive event : Type :=
| Publish (now : Z) (chunk : Chunk)
| Poll (now : Z).

Fixpoint run (h : Heap) (m : StreamManager) (streamID : string)
    (tr : list event) : option (Heap * StreamManager) :=
  match tr with
  | [] => Some (h, m)
  | Publish now chunk :: tr' =>
      match publish h m now streamID chunk with
      | PublishReturns h' m' _ => run h' m' streamID tr'
      | PublishParked _ _ => None
      end
  | Poll now :: tr' => run h (getLatestChunk m now streamID).1 streamID tr'
  end.

(** The chunks a run publishes, in order. *)
Fixpoint publishedChunks (tr : list event) : list Chunk :=
  match tr with
  | [] => []
  | Publish _ chunk :: tr' => chunk :: publishedChunks tr'
  | Poll _ :: tr' => publishedChunks tr'
  end.

Definition hasPayload (c : Chunk) : bool :=
  match Payload c with Some _ => true | None => false end.

(** The chunks published after the last one that carries a payload. *)
Fixpoint afterLastPayload (cs : list Chunk) : list Chunk :=
  match cs with
  | [] => []
  | c :: cs' =>
      if existsb hasPayload cs' then afterLastPayload cs'
      else if hasPayload c then cs' else c :: cs'
  end.

(** [d1 ∥ … ∥ dn]. *)
Definition concatContent (cs : list Chunk) : string :=
  String.concat "" (map Content cs).

(** [lastChunk.content], empty while there is no [lastChunk]. *)
Definition lastContent (s : Stream) : string :=
  from_option Content ""%string (LastChunk s).

(** A slice whose window lies inside an allocated array, as every Go
    slice does. *)
Definition validSlice (h : Heap) (s : Slice) : bool :=
  match s with
  | NilSlice => true
  | SliceOf a off n =>
      match arrays h !! a with
      | Some arr => (off + n <=? length arr)%nat
      | None => false
      end
  end.

(** ** stream.go: blocked senders, and the parts of a call

    [publish] and [getLatestChunk] above are each call run alone, from
    its first line to its return or, for a [publish] that finds the queue
    full, to where it blocks.  Two things are beyond them.

    A [publish] blocked in its send keeps its snapshot in hand.  A
    receive from the full queue takes the oldest queued snapshot, moves
    the snapshot of the longest-blocked sender into the queue and
    releases that sender; so the drain loop receives the queued
    snapshots and then those of the blocked senders, oldest first.

    And both calls work in two parts, with the stream lock free in
    between and open to other goroutines: [publish] updates [LastChunk]
    under the lock and then sends; [getLatestChunk] receives and then
    updates [LastChunk] under the lock.  [createOrGet] likewise looks up
    under the read lock and inserts later under the write lock. *)

(** The heap, the manager, and the goroutines at the queue of the one
    session looked at: [blocked] holds the snapshots of the senders
    blocked on the full queue, oldest first; [released] those of the
    senders a receive has released and that have not gone on yet. *)
Record World : Type := mkWorld {
  heap : Heap;
  manager : StreamManager;
  blocked : list Chunk;
  released : list Chunk;
}.

Definition withManager (w : World) (m : StreamManager) : World :=
  {| heap := heap w; manager := m; blocked := blocked w; released := released w |}.

(** [publish] to the end of its locked section.  [None]: there is no such
    session and [publish] returns false; else the snapshot the publisher
    goes on to send. *)
Definition publishLock (w : World) (now : Z) (streamID : string) (chunk : Chunk)
  : World * option Chunk :=
  match getStream (manager w) streamID with
  | None => (w, None)
  | Some stream =>
      let '(h, stream, fullChunk) := publishLocked (heap w) now stream chunk in
      ({| heap := h; manager := withStream (manager w) streamID stream;
          blocked := blocked w; released := released w |},
       Some fullChunk)
  end.

(** The send of [publish] and, when it does not block, the rest of the
    call.  The [select] with its [default] amounts to one send that
    blocks on a full queue.  The result says whether the call has
    returned.  The publisher holds the session by its pointer; here, as
    everywhere, the session is the one in the table. *)
Definition publishSend (w : World) (now : Z) (streamID : string)
    (fullChunk : Chunk) : World * bool :=
  match streams (manager w) !! streamID with
  | None => (w, true)
  | Some stream =>
      if (length (queue stream) <? queueCapacity)%nat then
        let stream := setQueue (queue stream ++ [fullChunk]) stream in
        let stream :=
          if IsFinal fullChunk then setFinished now stream else stream in
        (withManager w (withStream (manager w) streamID stream), true)
      else
        ({| heap := heap w; manager := manager w;
            blocked := blocked w ++ [fullChunk]; released := released w |},
         false)
  end.

(** A released sender goes on after its send: [i] is its place among the
    released ones. *)
Definition publishResume (w : World) (now : Z) (streamID : string) (i : nat)
  : World :=
  match released w !! i with
  | None => w
  | Some fullChunk =>
      let m :=
        match streams (manager w) !! streamID with
        | Some stream =>
            if IsFinal fullChunk
            then withStream (manager w) streamID (setFinished now stream)
            else manager w
        | None => manager w
        end in
      {| heap := heap w; manager := m; blocked := blocked w;
         released := delete i (released w) |}
  end.

(** One call of [publish] with nothing between its two parts.  [Some b]:
    it has returned [b]; [None]: it is blocked in its send. *)
Definition publishCall (w : World) (now : Z) (streamID : string) (chunk : Chunk)
  : World * option bool :=
  match publishLock w now streamID chunk with
  | (w, None) => (w, Some false)
  | (w, Some fullChunk) =>
      let '(w, returned) := publishSend w now streamID fullChunk in
      (w, if returned then Some true else None)
  end.

(** Which case the [select] of [getLatestChunk] takes. *)
Inductive selected : Type :=
| Received (latestChunk : Chunk)   (* a chunk; [latestChunk] after the drain *)
| TimerFired.

(** [getLatestChunk] to the end of its drain loop, with no send during
    the loop.  [timerFirst] says that the [select] takes the timer case
    although a chunk waits, which it may do when the timer has expired
    by then; with nothing to receive and nobody sending, the timer case
    is what remains.  [None]: there is no such session. *)
Definition getLatestChunkReceive (w : World) (now : Z) (streamID : string)
    (timerFirst : bool) : World * option selected :=
  if String.eqb streamID "" then (w, None)
  else
    match getStream (manager w) streamID with
    | None => (w, None)
    | Some stream =>
        let stream := touch now stream in
        match (if timerFirst then [] else queue stream ++ blocked w) with
        | firstChunk :: rest =>
            let '(latestChunk, finalSeen) :=
              drain firstChunk (IsFinal firstChunk) rest in
            let latestChunk :=
              if finalSeen then setIsFinal latestChunk true else latestChunk in
            ({| heap := heap w;
                manager := withStream (manager w) streamID (setQueue [] stream);
                blocked := []; released := released w ++ blocked w |},
             Some (Received latestChunk))
        | [] =>
            (withManager w (withStream (manager w) streamID stream),
             Some TimerFired)
        end
    end.

(** The locked section that ends [getLatestChunk], and its result. *)
Definition getLatestChunkStore (w : World) (now : Z) (streamID : string)
    (sel : selected) : World * option Chunk :=
  match streams (manager w) !! streamID with
  | None => (w, match sel with Received c => Some c | TimerFired => None end)
  | Some stream =>
      match sel with
      | Received latestChunk =>
          let stream := setLastChunk now latestChunk stream in
          let stream :=
            if IsFinal latestChunk then setFinished now stream else stream in
          (withManager w (withStream (manager w) streamID stream),
           Some latestChunk)
      | TimerFired =>
          let stream := touch now stream in
          let cached := if Finished stream then LastChunk stream else None in
          (withManager w (withStream (manager w) streamID stream), cached)
      end
  end.

(** One call of [getLatestChunk] with nothing between its two parts. *)
Definition getLatestChunkCall (w : World) (now : Z) (streamID : string)
    (timerFirst : bool) : World * option Chunk :=
  match getLatestChunkReceive w now streamID timerFirst with
  | (w, None) => (w, None)
  | (w, Some sel) => getLatestChunkStore w now streamID sel
  end.

(** What goes on at one session, call by call: no call runs between the
    two parts of another, but a [publish] blocked on the full queue stays
    there while other calls run, until a poll releases it. *)
Inductive op : Type :=
| OpPublish (now : Z) (chunk : Chunk)
| OpPoll (now : Z) (timerFirst : bool)
| OpResume (now : Z) (i : nat).

Definition perform (streamID : string) (w : World) (o : op) : World :=
  match o with
  | OpPublish now chunk => (publishCall w now streamID chunk).1
  | OpPoll now timerFirst => (getLatestChunkCall w now streamID timerFirst).1
  | OpResume now i => publishResume w now streamID i
  end.

Definition performAll (streamID : string) (w : World) (ops : list op) : World :=
  fold_left (perform streamID) ops w.

(** The chunks the publishes of a sequence carry, in order. *)
Fixpoint opChunks (ops : list op) : list Chunk :=
  match ops with
  | [] => []
  | OpPublish _ chunk :: ops' => chunk :: opChunks ops'
  | _ :: ops' => opChunks ops'
  end.

(** A run of the kind above as such a sequence: every poll with the
    timer not expired at its [select]. *)
Definition opOfEvent (e : event) : op :=
  match e with
  | Publish now chunk => OpPublish now chunk
  | Poll now => OpPoll now false
  end.

(** [createOrGet] to the end of its lookup: the session found, touched,
    if there is one. *)
Definition createOrGetFind (m : StreamManager) (now : Z) (msg : Message)
  : StreamManager * option Stream :=
  let existing :=
    if negb (String.eqb (MsgID msg) "") then
      let '(streamID, ok) := getStreamIDByMsg m (MsgID msg) in
      if ok then (fun s => (streamID, s)) <$> getStream m streamID else None
    else None in
  match existing with
  | Some (key, s) =>
      let s' := touch now s in
      (withStream m key s', Some s')
  | None => (m, None)
  end.

(** The rest of [createOrGet] when nothing was found: the new session
    and its insertion under the write lock. *)
Definition createOrGetInsert (m : StreamManager) (now : Z) (random : list byte)
    (msg : Message) : StreamManager * Stream :=
  let streamID := generateStreamID random now in
  let stream :=
    {| addr := allocated m; StreamID := streamID; StreamMsgID := MsgID msg;
       StreamChatID := ChatID msg; UserID := FromUserID msg;
       StreamResponseURL := ResponseURL msg; CreatedAt := now;
       LastAccess := now; Finished := false; queue := [];
       LastChunk := None; StreamMessage := msg |} in
  ({| streams := <[streamID := stream]> (streams m);
      msgIndex := if negb (String.eqb (MsgID msg) "")
                  then <[MsgID msg := streamID]> (msgIndex m)
                  else msgIndex m;
      ttl := ttl m; timeout := timeout m;
      allocated := S (allocated m) |},
   stream).

(** ** Notions the statements use *)

(** [gmul k] is additive, checked on every pair of bytes. *)
Definition gmul_linear_on (k : Z) : bool :=
  forallb (fun a => forallb (fun b =>
    byte_eqb (aes.gmul k (byte_xor a b)) (byte_xor (aes.gmul k a) (aes.gmul k b)))
    aes.allBytes) aes.allBytes.

(** A cipher whose round keys are sixteen bytes each, as [expandKey]
    makes them. *)
Definition wellKeyed (b : aes.Block) : Prop :=
  Forall (fun rk => length rk = 16%nat) (aes.roundKeys b).

(** The plaintext envelope [encrypt] builds. *)
Definition envelope (c : Crypt) (random plain : list byte) : list byte :=
  slice random 0 16
  ++ binary.PutUint32 (uint32 (len plain)) ++ plain
  ++ list_byte_of_string (corpID c).

(** The padded key text [decodeAESKey] hands to the Base64 decoder. *)
Definition paddedKey (encodingKey : string) : string :=
  String.append encodingKey (strings_Repeat "=" ((4 - strlen encodingKey mod 4) mod 4)).

(** The content of the snapshot [publish] makes of a chunk, from the
    content accumulated so far. *)
Definition accumulate (acc : string) (c : Chunk) : string :=
  if hasPayload c then ""%string else String.append acc (Content c).

(** ** Sample values *)

Definition emptyHeap : Heap := mkHeap [] [] [].

Definition textChunk (delta : string) (final : bool) : Chunk :=
  mkChunk delta NilSlice None final.

(** A chunk whose payload is a template-card reply. *)
Definition cardChunk : Chunk :=
  mkChunk "ignored" NilSlice
          (Some (OtherValue (JObject [("msgtype", JString "template_card")])))
          false.

(** A first packet with an empty [msgid]. *)
Definition anonymousMessage : Message :=
  mkMessage "" "chat-1" "user-1" "" "text" None.

Definition sampleRandom : list byte := list_byte_of_string "0960688932c47ef1".

(** The manager after the first packet [anonymousMessage], and the id of
    the session it opened. *)
Definition sampleManager : StreamManager :=
  (createOrGet (newStreamManager 60000000000 500000000) 0 sampleRandom
               anonymousMessage).1.

Definition sampleStreamID : string := generateStreamID sampleRandom 0.

(** The heap of [TestBuildStreamReplyWithMsgItems_MsgItemOnlyOnFinish]:
    one image payload, a slice of one item pointing to it, and the text
    payload the test later assigns. *)
Definition sampleHeap : Heap :=
  mkHeap [mkText "changed"] [mkImage "" "BASE64" "MD5"]
         [[mkItem "image" None (Some 0%nat)]].

Definition sampleItems : Slice := SliceOf 0%nat 0%nat 1%nat.

(** A stand-in for [json.Marshal], for texts in which nothing needs
    escaping. *)
Definition quoted (s : string) : string :=
  String "034"%char (String.append s (String "034"%char "")).

Fixpoint render (j : json) : string :=
  match j with
  | JNull => "null"
  | JBool true => "true"
  | JBool false => "false"
  | JString s => quoted s
  | JArray l => String.append "[" (String.append (String.concat "," (map render l)) "]")
  | JObject ms =>
      String.append "{"
        (String.append
           (String.concat ","
              (map (fun kv => String.append (quoted (fst kv))
                                (String.append ":" (render (snd kv)))) ms))
           "}")
  end.

Definition sampleMarshal (h : Heap) (v : any) : result (list byte) :=
  match v with
  | ReplyValue r => Ok (list_byte_of_string (render (StreamReply_json h r)))
  | NoResponse => Ok (list_byte_of_string "{}")
  | OtherValue j => Ok (list_byte_of_string (render j))
  end.

Definition helloTrace : list event :=
  [Publish 1 (textChunk "H" false); Publish 2 (textChunk "el" false);
   Poll 3; Publish 4 (textChunk "lo" false); Publish 5 (textChunk "!" true)].


(** The sample session after [helloTrace]: two snapshots wait in the
    queue, the second one final. *)
Definition helloManager : StreamManager :=
  from_option snd sampleManager
    (run emptyHeap sampleManager sampleStreamID helloTrace).

(** The refresh packet for the sample session. *)
Definition refreshMessage : Message :=
  mkMessage "" "chat-1" "user-1" "" "stream"
            (Some (mkStreamPayload sampleStreamID)).

(** The sample of the WeCom documentation, as in
    [TestDecryptMessageWithDocSample]. *)
Definition docCrypt : result Crypt :=
  NewCrypt "QDG6eK" "jWmYm7qr5nMoAUwZRjGtBxmz3KA1tkAj3ykkR6q2B2C" "wx5823bf96d3bd56c7".

Definition docCipherText : string :=
  "RypEvHKD8QQKFhvQ6QleEB4J58tiPdvo+rtK1I9qca6aM/wvqnLSV5zEPeusUiX5L5X/0lWfrf0QADHHhGd3QczcdCUpj911L3vg3W/sYYvuJTs3TUUkSUXxaccAS0qhxchrRYt66wiSpGLYL42aM6A8dTT+6k4aSknmPj48kzJs8qLjvd4Xgpue06DOdnLxAUHzM6+kDZ+HMZfJYuR+LtwGc2hgf5gsijff0ekUNXZiqATP7PF5mZxZ3Izoun1s4zG4LUMnvw2r+KqCKIw+3IQH03v+BCA9nMELNqbSf6tiWSrXJB3LAVGUcallcrw8V2t9EL4EhzJWrQUax5wLVMNS0+rUPA3k22Ncx4XXZS9o0MBH27Bo6BpNelZpS+/uh9KsNlY6bHCmJU9p8g7m3fVKn28H3KDYA5Pl/T8Z1ptDAVe0lXdQ2YoyyH2uyPIGHBZZIs2pDBS8R07+qN+E7Q==".

Definition docPlainText : string :=
  "<xml><ToUserName><![CDATA[wx5823bf96d3bd56c7]]></ToUserName>
<FromUserName><![CDATA[mycreate]]></FromUserName>
<CreateTime>1409659813</CreateTime>
<MsgType><![CDATA[text]]></MsgType>
<Content><![CDATA[hello]]></Content>
<MsgId>4561255354251345929</MsgId>
<AgentID>218</AgentID>
</xml>".

(** Hexadecimal text to bytes, for the test vectors. *)
Definition unhexString (s : string) : list byte :=
  (fix go (l : list byte) : list byte :=
     match l with
     | h :: l0 :: rest =>
         Z_to_byte (Z.lor (Z.shiftl (url.unhex h) 4) (url.unhex l0)) :: go rest
     | _ => []
     end) (list_byte_of_string s).

(** ** crypto/md5 (RFC 1321) *)
Module md5.

Definition w32 (x : Z) : Z := x mod 2 ^ 32.

Definition rotl (n x : Z) : Z :=
  w32 (Z.lor (Z.shiftl x n) (Z.shiftr x (32 - n))).

Definition not32 (x : Z) : Z := Z.lxor x 0xFFFFFFFF.

Definition le32 (b0 b1 b2 b3 : byte) : Z :=
  Z.lor (Z.lor (Z.lor (byte_to_Z b0) (Z.shiftl (byte_to_Z b1) 8))
               (Z.shiftl (byte_to_Z b2) 16)) (Z.shiftl (byte_to_Z b3) 24).

Definition put_le (width : nat) (x : Z) : list byte :=
  map (fun i => Z_to_byte (Z.shiftr x (8 * Z.of_nat i))) (seq 0 width).

Fixpoint words (n : nat) (block : list byte) : list Z :=
  match n, block with
  | S n', b0 :: b1 :: b2 :: b3 :: rest => le32 b0 b1 b2 b3 :: words n' rest
  | _, _ => []
  end.

(** [K i] is the integer part of [2^32 * abs (sin (i + 1))]. *)
Definition K : list Z :=
  [ 0xd76aa478; 0xe8c7b756; 0x242070db; 0xc1bdceee; 0xf57c0faf; 0x4787c62a;
    0xa8304613; 0xfd469501; 0x698098d8; 0x8b44f7af; 0xffff5bb1; 0x895cd7be;
    0x6b901122; 0xfd987193; 0xa679438e; 0x49b40821; 0xf61e2562; 0xc040b340;
    0x265e5a51; 0xe9b6c7aa; 0xd62f105d; 0x02441453; 0xd8a1e681; 0xe7d3fbc8;
    0x21e1cde6; 0xc33707d6; 0xf4d50d87; 0x455a14ed; 0xa9e3e905; 0xfcefa3f8;
    0x676f02d9; 0x8d2a4c8a; 0xfffa3942; 0x8771f681; 0x6d9d6122; 0xfde5380c;
    0xa4beea44; 0x4bdecfa9; 0xf6bb4b60; 0xbebfbc70; 0x289b7ec6; 0xeaa127fa;
    0xd4ef3085; 0x04881d05; 0xd9d4d039; 0xe6db99e5; 0x1fa27cf8; 0xc4ac5665;
    0xf4292244; 0x432aff97; 0xab9423a7; 0xfc93a039; 0x655b59c3; 0x8f0ccc92;
    0xffeff47d; 0x85845dd1; 0x6fa87e4f; 0xfe2ce6e0; 0xa3014314; 0x4e0811a1;
    0xf7537e82; 0xbd3af235; 0x2ad7d2bb; 0xeb86d391 ].

Definition shifts : list Z :=
  [ 7; 12; 17; 22; 7; 12; 17; 22; 7; 12; 17; 22; 7; 12; 17; 22;
    5; 9; 14; 20; 5; 9; 14; 20; 5; 9; 14; 20; 5; 9; 14; 20;
    4; 11; 16; 23; 4; 11; 16; 23; 4; 11; 16; 23; 4; 11; 16; 23;
    6; 10; 15; 21; 6; 10; 15; 21; 6; 10; 15; 21; 6; 10; 15; 21 ].

Record state : Type := mkState { sa : Z; sb : Z; sc : Z; sd : Z }.

Definition init : state :=
  mkState 0x67452301 0xefcdab89 0x98badcfe 0x10325476.

Definition round (M : list Z) (st : state) (i : nat) : state :=
  let '(f, g) :=
    if (i <? 16)%nat then
      (Z.lor (Z.land (sb st) (sc st)) (Z.land (not32 (sb st)) (sd st)), i)
    else if (i <? 32)%nat then
      (Z.lor (Z.land (sd st) (sb st)) (Z.land (not32 (sd st)) (sc st)),
       ((5 * i + 1) mod 16)%nat)
    else if (i <? 48)%nat then
      (Z.lxor (Z.lxor (sb st) (sc st)) (sd st), ((3 * i + 5) mod 16)%nat)
    else
      (Z.lxor (sc st) (Z.lor (sb st) (not32 (sd st))), ((7 * i) mod 16)%nat) in
  let f := w32 (f + sa st + nth i K 0 + nth g M 0) in
  mkState (sd st) (w32 (sb st + rotl (nth i shifts 0) f)) (sb st) (sc st).

Definition compress (st : state) (block : list byte) : state :=
  let r := fold_left (round (words 16 block)) (seq 0 64) st in
  mkState (w32 (sa st + sa r)) (w32 (sb st + sb r)) (w32 (sc st + sc r))
          (w32 (sd st + sd r)).

Fixpoint blocks (n : nat) (st : state) (data : list byte) : state :=
  match n with
  | O => st
  | S n' => blocks n' (compress st (firstn 64 data)) (skipn 64 data)
  end.

Definition pad (data : list byte) : list byte :=
  let l := len data in
  let zeros := (55 - l) mod 64 in
  data ++ [x80] ++ repeat x00 (Z.to_nat zeros) ++ put_le 8 (8 * l).

Definition Sum (data : list byte) : list byte :=
  let padded := pad data in
  let st := blocks (length padded / 64) init padded in
  put_le 4 (sa st) ++ put_le 4 (sb st) ++ put_le 4 (sc st) ++ put_le 4 (sd st).

End md5.

(** ** message.go: [BuildStreamImageItemFromBytes] *)

(** [&ImagePayload{...}] allocates the payload; the error returned is
    always nil. *)
Definition BuildStreamImageItemFromBytes (h : Heap) (img : list byte)
  : Heap * result MixedItem :=
  let sum := md5.Sum img in
  let payload :=
    {| ImageURL := ""; ImageBase64 := base64.EncodeToString img;
       ImageMD5 := hex.EncodeToString sum |} in
  ({| texts := texts h; images := images h ++ [payload]; arrays := arrays h |},
   Ok {| ItemMsgType := "image"; ItemText := None;
         ItemImage := Some (length (images h)) |}).

(** ** crypt.go: downloaded files *)

(** The errors of [DecryptDownloadedFile]: those of the kinds above, and
    the two it formats with [fmt.Errorf]. *)
Inductive fileError : Type :=
| plainError (e : error)
| keyLengthError (got : Z)
    (* fmt.Errorf("%w: got %d, want 32", ErrInvalidAESKey, got) *)
| ciphertextLengthError (got : Z).
    (* fmt.Errorf("invalid ciphertext length: %d (must be multiple of %d)", got, 16) *)

Inductive fileResult : Type :=
| FileOk (plain : list byte)
| FileErr (e : fileError).

(** [DecryptDownloadedFile] of [Crypt]; [None] is the nil receiver. *)
Definition DecryptDownloadedFile (c : option Crypt) (cipherData : list byte)
  : fileResult :=
  match c with
  | None => FileErr (plainError (errorString "crypt is nil"))
  | Some c =>
      if len cipherData =? 0
      then FileErr (plainError (errorString "cipher data is empty"))
      else if negb (len (aesKey c) =? 32)
      then FileErr (keyLengthError (len (aesKey c)))
      else if negb (len cipherData mod aes.BlockSize =? 0)
      then FileErr (ciphertextLengthError (len cipherData))
      else
        match aes.NewCipher (aesKey c) with
        | Err err => FileErr (plainError err)
        | Ok block =>
            let iv := slice (aesKey c) 0 aes.BlockSize in
            match cipher.CryptBlocks cipher.Decrypter block iv cipherData with
            | Err err => FileErr (plainError err)
            | Ok plain =>
                match pkcs7Unpad plain padBlockSize with
                | Err err => FileErr (plainError err)
                | Ok plain => FileOk plain
                end
            end
        end
  end.

(** ** crypt.go: [DecryptMessage] *)
Section Receive.

(** [parseMessage] is [json.Unmarshal] into a [Message]. *)
Variable parseMessage : list byte -> result Message.

(** [DecryptMessage], the request given by its [encrypt] field; what it
    writes to the log is left out. *)
Definition DecryptMessage (c : Crypt) (msgSignature timestamp nonce : string)
    (reqEncrypt : string) : result Message :=
  if negb (validateSignature c msgSignature timestamp nonce reqEncrypt)
  then Err ErrInvalidSignature
  else
    plain ← decrypt c reqEncrypt;
    msg ← parseMessage plain;
    Ok msg.

End Receive.

(** ** stream.go: [getMessage] and [cleanup] *)

Definition getMessage (m : StreamManager) (streamID : string) : option Message :=
  StreamMessage <$> getStream m streamID.

Definition maxDuration : Z := 2 ^ 63 - 1.
Definition minDuration : Z := - 2 ^ 63.

(** [t.Sub(u)]: the difference as a [Duration], saturated at both ends. *)
Definition time_Sub (t u : Z) : Z := Z.max minDuration (Z.min maxDuration (t - u)).

(** The test of [cleanup] on one session. *)
Definition expired (now ttl : Z) (stream : Stream) : bool :=
  time_Sub now (LastAccess stream) >? ttl.

(** One turn of the loop of [cleanup], on the entry [(streamID, stream)]
    the iteration has reached. *)
Definition cleanupVisit (now : Z) (m : StreamManager) (entry : string * Stream)
  : StreamManager :=
  let '(streamID, stream) := entry in
  if negb (expired now (ttl m) stream) then m
  else
    {| streams := delete streamID (streams m);
       msgIndex :=
         if negb (String.eqb (StreamMsgID stream) "") then
           match msgIndex m !! StreamMsgID stream with
           | Some mapped =>
               if String.eqb mapped streamID
               then delete (StreamMsgID stream) (msgIndex m)
               else msgIndex m
           | None => msgIndex m
           end
         else msgIndex m;
       ttl := ttl m; timeout := timeout m; allocated := allocated m |}.

(** [cleanup] along a given iteration order: Go leaves the order of a
    [range] over a map unspecified, and the loop deletes nothing but the
    entry it stands on. *)
Definition cleanupOver (order : list (string * Stream)) (m : StreamManager)
    (now : Z) : StreamManager :=
  fold_left (cleanupVisit now) order m.

Definition cleanup (m : StreamManager) (now : Z) : StreamManager :=
  cleanupOver (map_to_list (streams m)) m now.

(** ** bot.go: the first packet, the handler's output, the final message *)


Section Dispatch.

Variable jsonMarshal : Heap -> any -> result (list byte).


End Dispatch.

(** [Chunk{Content: content, IsFinal: true}]. *)
Definition finalChunk (content : string) : Chunk := mkChunk content NilSlice None true.

(** [chunk.Payload == NoResponse]. *)
Definition isNoResponse (chunk : Chunk) : bool :=
  match Payload chunk with
  | Some NoResponse => true
  | _ => false
  end.

(** The chunks [doHandler] skips. *)
Definition isEmptyChunk (chunk : Chunk) : bool :=
  String.eqb (Content chunk) "" && negb (hasPayload chunk)
  && (slen (MsgItems chunk) =? 0)%nat && negb (IsFinal chunk).

(** The loop of [doHandler] over what the handler sends before it closes
    the channel, each chunk with the clock reading at which it is
    published; [closed] is the reading when the channel is found closed.
    [None]: a publish is parked on the full queue. *)
Fixpoint doHandlerLoop (h : Heap) (m : StreamManager) (streamID : string)
    (outCh : list (Z * Chunk)) (closed : Z) (published : bool)
  : option (Heap * StreamManager) :=
  match outCh with
  | [] =>
      if negb published then
        match publish h m closed streamID (finalChunk "") with
        | PublishReturns h m _ => Some (h, m)
        | PublishParked _ _ => None
        end
      else Some (h, m)
  | (now, chunk) :: rest =>
      if isNoResponse chunk then
        match publish h m now streamID (finalChunk "") with
        | PublishReturns h m _ => Some (h, m)
        | PublishParked _ _ => None
        end
      else if isEmptyChunk chunk then
        doHandlerLoop h m streamID rest closed published
      else
        match publish h m now streamID chunk with
        | PublishReturns h m ok =>
            doHandlerLoop h m streamID rest closed (if ok then true else published)
        | PublishParked _ _ => None
        end
  end.

(** [doHandler]; [None] for [outCh] is the nil channel. *)
Definition doHandler (h : Heap) (m : StreamManager)
    (outCh : option (list (Z * Chunk))) (closed : Z) (streamID : string)
  : option (Heap * StreamManager) :=
  match outCh with
  | None => Some (h, m)
  | Some sent => doHandlerLoop h m streamID sent closed false
  end.

(** [setFinalMessage]. *)
Definition setFinalMessage (h : Heap) (m : StreamManager) (now : Z)
    (msgID content : string) : option (Heap * StreamManager) :=
  if String.eqb msgID "" then Some (h, m)
  else
    let '(streamID, ok) := getStreamIDByMsg m msgID in
    if negb ok || String.eqb streamID "" then Some (h, m)
    else
      match publish h m now streamID (finalChunk content) with
      | PublishReturns h m _ => Some (h, m)
      | PublishParked _ _ => None
      end.

(** ** bot.go: the URL verification request *)

(** What a handler has written to its [http.ResponseWriter]. *)
Record HTTPResponse : Type := mkHTTPResponse {
  StatusCode : Z;
  Header : list (string * string);
  Body : list byte;
}.

(** [http.Error(w, msg, code)]. *)
Definition http_Error (msg : string) (code : Z) : HTTPResponse :=
  {| StatusCode := code;
     Header := [("Content-Type", "text/plain; charset=utf-8");
                ("X-Content-Type-Options", "nosniff")];
     Body := list_byte_of_string msg ++ [x0a] |}.

(** [handleGet]: [crypto] is [b.crypto], [None] for a nil bot or a nil
    field; the four texts are what [r.URL.Query().Get] returns for
    [msg_signature], [timestamp], [nonce] and [echostr].  A panic below
    is not an answer: it unwinds the handler. *)
Definition handleGet (crypto : option Crypt) (sig ts nonce echostr : string)
  : result HTTPResponse :=
  match crypto with
  | None => Ok (http_Error "server misconfigured" 500)
  | Some c =>
      if String.eqb sig "" || String.eqb ts "" || String.eqb nonce ""
         || String.eqb echostr ""
      then Ok (http_Error "missing parameters" 400)
      else
        match VerifyURL c sig ts nonce echostr with
        | Err (panic msg) => Err (panic msg)
        | Err _ => Ok (http_Error "forbidden" 403)
        | Ok plain =>
            Ok {| StatusCode := 200;
                  Header := [("Content-Type", "text/plain; charset=utf-8")];
                  Body := list_byte_of_string plain |}
        end
  end.

(** ** config.go *)

(** [strconv.Atoi] where [int] has [intSize] bits, its error kept only
    as far as [err == nil] goes: an optional sign, then decimal digits,
    at least one, then nothing; the value within [int]. *)
Definition isDigit (ch : byte) : bool :=
  (48 <=? byte_to_Z ch) && (byte_to_Z ch <=? 57).

Fixpoint digitsValue (acc : Z) (s : list byte) : option Z :=
  match s with
  | [] => Some acc
  | ch :: s' =>
      if isDigit ch then digitsValue (acc * 10 + (byte_to_Z ch - 48)) s' else None
  end.

Definition strconv_Atoi (intSize : Z) (s : string) : option Z :=
  let b := list_byte_of_string s in
  let '(neg, digits) :=
    match b with
    | ch :: rest =>
        if byte_eqb ch "-" then (true, rest)
        else if byte_eqb ch "+" then (false, rest)
        else (false, b)
    | [] => (false, [])
    end in
  match digits with
  | [] => None
  | _ =>
      match digitsValue 0 digits with
      | Some n =>
          let v := if neg then - n else n in
          if (- 2 ^ (intSize - 1) <=? v) && (v <=? 2 ^ (intSize - 1) - 1)
          then Some v else None
      | None => None
      end
  end.

(** [int64(x)]: the low 64 bits, as a signed number. *)
Definition int64 (x : Z) : Z := (x + 2 ^ 63) mod 2 ^ 64 - 2 ^ 63.

(** [resolveDuration]; [getenv] is [os.Getenv], durations are
    nanoseconds.  The product [time.Duration(secs) * time.Second] is an
    [int64] product, whatever the width of [int]. *)
Definition resolveDuration (intSize : Z) (getenv : string -> string)
    (paramVal : Z) (envKey : string) (defaultVal : Z) : Z :=
  if paramVal >? 0 then paramVal
  else
    let envStr := getenv envKey in
    if negb (String.eqb envStr "") then
      match strconv_Atoi intSize envStr with
      | Some secs =>
          if secs >? 0 then int64 (secs * 1000000000) else defaultVal
      | None => defaultVal
      end
    else defaultVal.

(** ** strings: [TrimRight] *)

(** [strings.TrimRight(s, cutset)] for a cutset of one ASCII character:
    the trailing run of that character is removed. *)
Fixpoint trimRightByte (s : list byte) (c : byte) : list byte :=
  match s with
  | [] => []
  | x :: s' =>
      match trimRightByte s' c with
      | [] => if byte_eqb x c then [] else [x]
      | t => x :: t
      end
  end.

Definition strings_TrimRight (s : string) (c : byte) : string :=
  string_of_list_byte (trimRightByte (list_byte_of_string s) c).

(** ** Further notions the statements use *)

(** A character [base64.StdEncoding] reads without an error: one of the
    alphabet, the padding ['='], a carriage return or a line feed. *)
Definition base64Char (c : byte) : bool :=
  match base64.decodeMap c with
  | Some _ => true
  | None => byte_eqb c base64.padChar || base64.isNewline c
  end.

(** The order [sort.Strings] sorts by. *)
Definition lebString : relation string := fun s t => String.leb s t = true.

(** What [doHandler] passes on of what the handler sent: the chunks
    before the first [NoResponse], the empty ones left out. *)
Fixpoint forwarded (sent : list (Z * Chunk)) : list (Z * Chunk) :=
  match sent with
  | [] => []
  | (now, chunk) :: rest =>
      if isNoResponse chunk then []
      else if isEmptyChunk chunk then forwarded rest
      else (now, chunk) :: forwarded rest
  end.

(** The clock reading at the first [NoResponse], if the handler sent one. *)
Fixpoint cutAt (sent : list (Z * Chunk)) : option Z :=
  match sent with
  | [] => None
  | (now, chunk) :: rest => if isNoResponse chunk then Some now else cutAt rest
  end.

Definition publishAt (p : Z * Chunk) : event := Publish p.1 p.2.

(** The publishes [doHandler] amounts to on a registered session. *)
Definition handlerEvents (sent : list (Z * Chunk)) (closed : Z) : list event :=
  map publishAt (forwarded sent)
  ++ match cutAt sent with
     | Some now => [Publish now (finalChunk "")]
     | None =>
         match forwarded sent with
         | [] => [Publish closed (finalChunk "")]
         | _ => []
         end
     end.

(** Whether [cleanup] at [now] takes the entry [msgID -> streamID] out
    of the index: the session under [streamID] has expired, and [msgID]
    is its own, non-empty [MsgID]. *)
Definition unindexed (now : Z) (m : StreamManager) (msgID streamID : string) : bool :=
  match streams m !! streamID with
  | Some s =>
      expired now (ttl m) s && String.eqb (StreamMsgID s) msgID
      && negb (String.eqb msgID "")
  | None => false
  end.

(** The index and the table agree: every index entry leads to a session
    in the table whose [MsgID] is the entry's key, and every session is
    filed under its own [StreamID] and, if it has a [MsgID], indexed
    under it. *)
Definition indexed (m : StreamManager) : Prop :=
  (forall msgID streamID,
     msgIndex m !! msgID = Some streamID ->
     msgID <> ""%string /\ streamID <> ""%string
     /\ exists s, streams m !! streamID = Some s /\ StreamMsgID s = msgID)
  /\ (forall streamID s,
        streams m !! streamID = Some s ->
        StreamID s = streamID
        /\ (StreamMsgID s <> ""%string ->
            msgIndex m !! StreamMsgID s = Some streamID)).

(** The calls the bot makes on its stream manager. *)
Inductive call : Type :=
| CallCreateOrGet (now : Z) (random : list byte) (msg : Message)
| CallPublish (now : Z) (streamID : string) (chunk : Chunk)
| CallGetLatestChunk (now : Z) (streamID : string)
| CallMarkFinished (now : Z) (streamID : string)
| CallCleanup (now : Z).

(** One call after another, each complete before the next begins;
    [None] when a publish is parked. *)
Definition exec (state : Heap * StreamManager) (c : call)
  : option (Heap * StreamManager) :=
  let '(h, m) := state in
  match c with
  | CallCreateOrGet now random msg => Some (h, (createOrGet m now random msg).1)
  | CallPublish now streamID chunk =>
      match publish h m now streamID chunk with
      | PublishReturns h' m' _ => Some (h', m')
      | PublishParked _ _ => None
      end
  | CallGetLatestChunk now streamID => Some (h, (getLatestChunk m now streamID).1)
  | CallMarkFinished now streamID => Some (h, markFinished m now streamID)
  | CallCleanup now => Some (h, cleanup m now)
  end.

Fixpoint execAll (state : Heap * StreamManager) (calls : list call)
  : option (Heap * StreamManager) :=
  match calls with
  | [] => Some state
  | c :: rest =>
      match exec state c with
      | Some state' => execAll state' rest
      | None => None
      end
  end.

(** A call that opens a session draws an id the table does not hold. *)
Definition freshDraw (m : StreamManager) (c : call) : bool :=
  match c with
  | CallCreateOrGet now random msg =>
      let '(_, (s, isNew)) := createOrGet m now random msg in
      negb isNew || bool_decide (streams m !! StreamID s = None)
  | _ => true
  end.

Fixpoint freshDraws (state : Heap * StreamManager) (calls : list call) : bool :=
  match calls with
  | [] => true
  | c :: rest =>
      freshDraw state.2 c
      && match exec state c with
         | Some state' => freshDraws state' rest
         | None => true
         end
  end.

(** ** Further sample values *)

(** Two first packets with a [msgid], and the manager after both: one
    session opened at 0 s, one at 50 s, the limit being one minute. *)
Definition firstMessage : Message := mkMessage "msg-a" "chat-1" "user-1" "" "text" None.
Definition secondMessage : Message := mkMessage "msg-b" "chat-2" "user-2" "" "text" None.

Definition twoSessions : StreamManager :=
  (createOrGet
     (createOrGet (newStreamManager 60000000000 500000000) 0 sampleRandom
                  firstMessage).1
     50000000000 (repeat x00 16) secondMessage).1.

(** Seventeen publishes to the sample session with no poll: the queue
    takes sixteen snapshots and the seventeenth publisher is blocked. *)
Definition seventeenPublishes : list op :=
  map (fun p : Z * string => OpPublish p.1 (textChunk p.2 false))
      [(1, "a"); (2, "b"); (3, "c"); (4, "d"); (5, "e"); (6, "f"); (7, "g");
       (8, "h"); (9, "i"); (10, "j"); (11, "k"); (12, "l"); (13, "m");
       (14, "n"); (15, "o"); (16, "p"); (17, "q")]%string.

Definition sampleWorld : World := mkWorld emptyHeap sampleManager [] [].

Definition crowdedWorld : World :=
  performAll sampleStreamID sampleWorld seventeenPublishes.

(** A ciphertext, under the key of [docCrypt], of a plaintext whose
    length field is [80 00 00 00]: sixteen zero bytes, the field, no
    message, twelve bytes of padding. *)
Definition negativeLengthCipherText : string :=
  "dfcu7pOxWg63TnYmNfybOmV+c6cDa+9ROeh+Vr2Iq5g=".

(** * Test vectors *)

Example base64_hello :
  base64.EncodeToString (list_byte_of_string "hello") = "aGVsbG8="%string.
Proof. reflexivity. Qed.

Example base64_decode_hello :
  base64.DecodeString "aGVs
bG8=" = Ok (list_byte_of_string "hello").
Proof. vm_compute. reflexivity. Qed.

Example decodeAESKey_doc_sample :
  isOk (decodeAESKey "jWmYm7qr5nMoAUwZRjGtBxmz3KA1tkAj3ykkR6q2B2C") = true.
Proof. vm_compute. reflexivity. Qed.

Example sha1_abc :
  hex.EncodeToString (sha1.Sum (list_byte_of_string "abc"))
  = "a9993e364706816aba3e25717850c26c9cd0d89d"%string.
Proof. vm_compute. reflexivity. Qed.

Example sha1_two_blocks :
  hex.EncodeToString (sha1.Sum (list_byte_of_string
    "abcdbcdecdefdefgefghfghighijhijkijkljklmklmnlmnomnopnopq"))
  = "84983e441c3bd26ebaae4aa1f95129e5e54670f1"%string.
Proof. vm_compute. reflexivity. Qed.

Example CalcSignature_sample :
  CalcSignature "token" "12345" "nonce" "cipher"
  = "b35d633d4607581fbc52dce7b205e367f0bf3b0f"%string.
Proof. vm_compute. reflexivity. Qed.

Example QueryUnescape_sample :
  url.QueryUnescape "a+b%2Bc d" = Ok "a b+c d"%string.
Proof. vm_compute. reflexivity. Qed.

Example aes256_fips197_C3 :
  (b ← aes.NewCipher (unhexString
         "000102030405060708090a0b0c0d0e0f101112131415161718191a1b1c1d1e1f");
   Ok (hex.EncodeToString
         (aes.Encrypt b (unhexString "00112233445566778899aabbccddeeff"))))
  = Ok "8ea2b7ca516745bfeafc49904b496089"%string.
Proof. vm_compute. reflexivity. Qed.

Example aes128_fips197_C1 :
  (b ← aes.NewCipher (unhexString "000102030405060708090a0b0c0d0e0f");
   Ok (hex.EncodeToString
         (aes.Encrypt b (unhexString "00112233445566778899aabbccddeeff"))))
  = Ok "69c4e0d86a7b0430d8cdb78070b4c55a"%string.
Proof. vm_compute. reflexivity. Qed.

Example aes256_fips197_C3_inverse :
  (b ← aes.NewCipher (unhexString
         "000102030405060708090a0b0c0d0e0f101112131415161718191a1b1c1d1e1f");
   Ok (hex.EncodeToString
         (aes.Decrypt b (unhexString "8ea2b7ca516745bfeafc49904b496089"))))
  = Ok "00112233445566778899aabbccddeeff"%string.
Proof. vm_compute. reflexivity. Qed.

(** [TestDecryptMessageWithDocSample] of [crypt_test.go]. *)
Example decrypt_doc_sample :
  (c ← docCrypt; p ← decrypt c docCipherText; Ok (string_of_list_byte p))
  = Ok docPlainText.
Proof. vm_compute. reflexivity. Qed.

Example encrypt_decrypt_sample :
  (c ← docCrypt;
   e ← encrypt c (repeat x2a 16) (list_byte_of_string "roundtrip-payload");
   p ← decrypt c e; Ok (string_of_list_byte p))
  = Ok "roundtrip-payload"%string.
Proof. vm_compute. reflexivity. Qed.

Example md5_empty :
  hex.EncodeToString (md5.Sum []) = "d41d8cd98f00b204e9800998ecf8427e"%string.
Proof. vm_compute. reflexivity. Qed.

Example md5_abc :
  hex.EncodeToString (md5.Sum (list_byte_of_string "abc"))
  = "900150983cd24fb0d6963f7d28e17f72"%string.
Proof. vm_compute. reflexivity. Qed.

Example md5_two_blocks :
  hex.EncodeToString (md5.Sum (list_byte_of_string
    "12345678901234567890123456789012345678901234567890123456789012345678901234567890"))
  = "57edf4a22be3c955ac49da2e2107b67a"%string.
Proof. vm_compute. reflexivity. Qed.

(** [TestBuildStreamImageItemFromBytes] of [message_test.go]. *)
Example BuildStreamImageItemFromBytes_hello :
  BuildStreamImageItemFromBytes emptyHeap (list_byte_of_string "hello")
  = (mkHeap [] [mkImage "" "aGVsbG8=" "5d41402abc4b2a76b9719d911017c592"] [],
     Ok (mkItem "image" None (Some 0%nat))).
Proof. vm_compute. reflexivity. Qed.

(** A length field of [2^31] in 44 characters of ciphertext: refused
    where [int] has 64 bits, a panic where it has 32. *)
Example decryptOn_negative_length :
  (c ← docCrypt;
   Ok (strlen negativeLengthCipherText,
       decryptOn 64 c negativeLengthCipherText,
       decryptOn 32 c negativeLengthCipherText))
  = Ok (44, Err (errorString "invalid message length"),
        Err (panic "slice bounds out of range")).
Proof. vm_compute. reflexivity. Qed.

(** * Properties *)

(** ** Bytes and bit arithmetic *)

Lemma byte_to_Z_range (b : byte) : 0 <= byte_to_Z b < 256.
Proof.
  unfold byte_to_Z. pose proof (Byte.to_N_bounded b). lia.
Qed.

Lemma Z_to_byte_to_Z (b : byte) : Z_to_byte (byte_to_Z b) = b.
Proof.
  unfold Z_to_byte. pose proof (byte_to_Z_range b) as Hr.
  rewrite Z.mod_small by lia. unfold byte_to_Z.
  rewrite N2Z.id, Byte.of_to_N. reflexivity.
Qed.

Lemma byte_to_Z_to_byte (z : Z) : byte_to_Z (Z_to_byte z) = z mod 256.
Proof.
  unfold Z_to_byte, byte_to_Z.
  pose proof (Z.mod_pos_bound z 256 ltac:(lia)) as Hr.
  pose proof (Byte.to_of_N_option_map (Z.to_N (z mod 256))) as Hm.
  destruct (Byte.of_N (Z.to_N (z mod 256))) as [b|] eqn:Hb; simpl in Hm.
  - apply Byte.to_of_N in Hb. rewrite Hb. lia.
  - destruct (N.leb_spec (Z.to_N (z mod 256)) 255); [discriminate | lia].
Qed.

Lemma Z_to_byte_eq (z : Z) (b : byte) : z mod 256 = byte_to_Z b -> Z_to_byte z = b.
Proof.
  intros H. unfold Z_to_byte. rewrite H. unfold byte_to_Z.
  rewrite N2Z.id, Byte.of_to_N. reflexivity.
Qed.

Lemma byte_eqb_eq (a b : byte) : byte_eqb a b = true <-> a = b.
Proof.
  unfold byte_eqb. split; [apply Byte.byte_dec_bl | apply Byte.byte_dec_lb].
Qed.

Lemma byte_eqb_refl (a : byte) : byte_eqb a a = true.
Proof. apply byte_eqb_eq. reflexivity. Qed.

Lemma len_app {A} (l1 l2 : list A) : len (l1 ++ l2) = len l1 + len l2.
Proof. unfold len. rewrite length_app. lia. Qed.

Lemma len_nonneg {A} (l : list A) : 0 <= len l.
Proof. unfold len. lia. Qed.

(** [Z.lor] of two numbers with no bit in common is their sum. *)
Lemma lor_disjoint (a b k : Z) :
  0 <= k -> 0 <= b < 2 ^ k -> a mod 2 ^ k = 0 -> Z.lor a b = a + b.
Proof.
  intros Hk Hb Ha. rewrite <- Z.add_lor_land.
  assert (Z.land a b = 0) as ->; [| lia].
  apply Z.bits_inj'. intros n Hn. rewrite Z.land_spec, Z.bits_0.
  destruct (Z.lt_ge_cases n k) as [Hlt | Hge].
  - rewrite <- (Z.mod_pow2_bits_low a k n) by lia.
    rewrite Ha, Z.bits_0. reflexivity.
  - rewrite <- (Z.mod_small b (2 ^ k)) by lia.
    rewrite Z.mod_pow2_bits_high by lia. apply andb_false_r.
Qed.

(** ** Base64: decoding inverts encoding *)

Lemma decodeMap_encodeChar_table :
  forallb (fun i => match base64.decodeMap (base64.encodeChar i) with
                    | Some j => j =? i
                    | None => false
                    end) (map Z.of_nat (seq 0 64)) = true.
Proof. vm_compute. reflexivity. Qed.

Lemma decodeMap_encodeChar (i : Z) :
  0 <= i < 64 -> base64.decodeMap (base64.encodeChar i) = Some i.
Proof.
  intros Hi. pose proof decodeMap_encodeChar_table as H.
  rewrite forallb_forall in H. specialize (H i).
  destruct (base64.decodeMap (base64.encodeChar i)) as [j|].
  - f_equal. apply Z.eqb_eq. apply H.
    apply in_map_iff. exists (Z.to_nat i). split; [lia |]. apply in_seq. lia.
  - discriminate H.
    apply in_map_iff. exists (Z.to_nat i). split; [lia |]. apply in_seq. lia.
Qed.

Lemma list_ind3 {A} (P : list A -> Prop) :
  P [] -> (forall a, P [a]) -> (forall a b, P [a; b]) ->
  (forall a b c l, P l -> P (a :: b :: c :: l)) ->
  forall l, P l.
Proof.
  intros H0 H1 H2 H3 l.
  assert (P l /\ (forall a, P (a :: l)) /\ (forall a b, P (a :: b :: l))) as [H _].
  { induction l as [| x l (IH0 & IH1 & IH2)]; [auto |].
    split; [apply IH1 |]. split; [intros; apply IH2 |]. intros a b. apply H3, IH0. }
  exact H.
Qed.

Ltac shifts_to_arith :=
  change 63 with (Z.ones 6);
  rewrite ?Z.land_ones by lia;
  rewrite ?Z.shiftr_div_pow2 by lia;
  rewrite ?Z.shiftl_mul_pow2 by lia.

Lemma sextet_range (x : Z) : 0 <= Z.land x 63 < 64.
Proof.
  change 63 with (Z.ones 6). rewrite Z.land_ones by lia.
  apply Z.mod_pos_bound. lia.
Qed.

Lemma pack3 (a b c : Z) :
  0 <= a < 256 -> 0 <= b < 256 -> 0 <= c < 256 ->
  Z.lor (Z.lor (Z.shiftl a 16) (Z.shiftl b 8)) c = a * 65536 + b * 256 + c.
Proof.
  intros Ha Hb Hc. rewrite !Z.shiftl_mul_pow2 by lia.
  rewrite (lor_disjoint (a * 2 ^ 16) (b * 2 ^ 8) 16) by (try apply Z_mod_mult; lia).
  rewrite (lor_disjoint _ c 8); [lia | lia | lia |].
  change (2 ^ 16) with (2 ^ 8 * 2 ^ 8). 
  replace (a * (2 ^ 8 * 2 ^ 8) + b * 2 ^ 8) with ((a * 2 ^ 8 + b) * 2 ^ 8) by lia.
  apply Z_mod_mult.
Qed.

Lemma unpack4 (s0 s1 s2 s3 : Z) :
  0 <= s0 < 64 -> 0 <= s1 < 64 -> 0 <= s2 < 64 -> 0 <= s3 < 64 ->
  Z.lor (Z.lor (Z.lor (Z.shiftl s0 18) (Z.shiftl s1 12)) (Z.shiftl s2 6)) s3
  = s0 * 262144 + s1 * 4096 + s2 * 64 + s3.
Proof.
  intros H0 H1 H2 H3. rewrite !Z.shiftl_mul_pow2 by lia.
  rewrite (lor_disjoint (s0 * 2 ^ 18) (s1 * 2 ^ 12) 18) by (try apply Z_mod_mult; lia).
  rewrite (lor_disjoint _ (s2 * 2 ^ 6) 12); [| lia | lia |].
  2:{ replace (s0 * 2 ^ 18 + s1 * 2 ^ 12) with ((s0 * 2 ^ 6 + s1) * 2 ^ 12) by lia.
      apply Z_mod_mult. }
  rewrite (lor_disjoint _ s3 6); [lia | lia | lia |].
  replace (s0 * 2 ^ 18 + s1 * 2 ^ 12 + s2 * 2 ^ 6)
    with ((s0 * 2 ^ 12 + s1 * 2 ^ 6 + s2) * 2 ^ 6) by lia.
  apply Z_mod_mult.
Qed.

(** A full quantum: three bytes out of four characters. *)
Lemma assemble_full (a b c : byte) :
  let val := Z.lor (Z.lor (Z.shiftl (byte_to_Z a) 16)
                          (Z.shiftl (byte_to_Z b) 8)) (byte_to_Z c) in
  base64.assemble (Z.land (Z.shiftr val 18) 63) (Z.land (Z.shiftr val 12) 63)
                  (Z.land (Z.shiftr val 6) 63) (Z.land val 63) 4
  = [a; b; c].
Proof.
  intros val. unfold base64.assemble.
  pose proof (byte_to_Z_range a) as Ha. pose proof (byte_to_Z_range b) as Hb.
  pose proof (byte_to_Z_range c) as Hc.
  rewrite unpack4 by apply sextet_range.
  subst val. rewrite pack3 by assumption.
  shifts_to_arith.
  f_equal; [| f_equal; [| f_equal]]; apply Z_to_byte_eq;
    change (2 ^ 18) with 262144; change (2 ^ 12) with 4096;
    change (2 ^ 6) with 64; change (2 ^ 16) with 65536; change (2 ^ 8) with 256;
    Z.div_mod_to_equations; lia.
Qed.

Lemma assemble_two (a b : byte) :
  let val := Z.lor (Z.shiftl (byte_to_Z a) 16) (Z.shiftl (byte_to_Z b) 8) in
  base64.assemble (Z.land (Z.shiftr val 18) 63) (Z.land (Z.shiftr val 12) 63)
                  (Z.land (Z.shiftr val 6) 63) 0 3
  = [a; b].
Proof.
  intros val. unfold base64.assemble.
  pose proof (byte_to_Z_range a) as Ha. pose proof (byte_to_Z_range b) as Hb.
  rewrite unpack4 by (try apply sextet_range; lia).
  assert (val = byte_to_Z a * 65536 + byte_to_Z b * 256) as ->.
  { subst val. rewrite <- (Z.lor_0_r (Z.lor _ _)). rewrite pack3 by lia. lia. }
  shifts_to_arith.
  f_equal; [| f_equal]; apply Z_to_byte_eq;
    change (2 ^ 18) with 262144; change (2 ^ 12) with 4096;
    change (2 ^ 6) with 64; change (2 ^ 16) with 65536; change (2 ^ 8) with 256;
    Z.div_mod_to_equations; lia.
Qed.

Lemma assemble_one (a : byte) :
  let val := Z.shiftl (byte_to_Z a) 16 in
  base64.assemble (Z.land (Z.shiftr val 18) 63) (Z.land (Z.shiftr val 12) 63) 0 0 2
  = [a].
Proof.
  intros val. unfold base64.assemble.
  pose proof (byte_to_Z_range a) as Ha.
  rewrite unpack4 by (try apply sextet_range; lia).
  subst val. shifts_to_arith.
  f_equal; apply Z_to_byte_eq;
    change (2 ^ 18) with 262144; change (2 ^ 12) with 4096;
    change (2 ^ 6) with 64; change (2 ^ 16) with 65536;
    Z.div_mod_to_equations; lia.
Qed.

Lemma decodeLoop_sextet (dbuf : list Z) (i : Z) (rest : list byte) :
  0 <= i < 64 ->
  base64.decodeLoop dbuf (base64.encodeChar i :: rest)
  = if (length (dbuf ++ [i]) =? 4)%nat
    then tl ← base64.decodeLoop [] rest;
         Ok (base64.assemble (base64.sextet (dbuf ++ [i]) 0)
                             (base64.sextet (dbuf ++ [i]) 1)
                             (base64.sextet (dbuf ++ [i]) 2)
                             (base64.sextet (dbuf ++ [i]) 3) 4 ++ tl)
    else base64.decodeLoop (dbuf ++ [i]) rest.
Proof.
  intros Hi. cbn [base64.decodeLoop]. rewrite decodeMap_encodeChar by assumption.
  reflexivity.
Qed.

Theorem base64_decode_encode (src : list byte) :
  base64.decodeLoop [] (base64.Encode src) = Ok src.
Proof.
  induction src as [| a | a b | a b c rest IH] using list_ind3.
  - reflexivity.
  - cbn [base64.Encode].
    rewrite !decodeLoop_sextet by apply sextet_range. cbn [length app Nat.eqb].
    cbn. f_equal. apply assemble_one.
  - cbn [base64.Encode].
    rewrite !decodeLoop_sextet by apply sextet_range. cbn [length app Nat.eqb].
    cbn. f_equal. apply assemble_two.
  - cbn [base64.Encode].
    rewrite !decodeLoop_sextet by apply sextet_range. cbn [length app Nat.eqb].
    rewrite IH. cbn [mbind result_bind base64.sextet nth].
    f_equal. rewrite assemble_full. reflexivity.
Qed.

Corollary base64_DecodeString_EncodeToString (src : list byte) :
  base64.DecodeString (base64.EncodeToString src) = Ok src.
Proof.
  unfold base64.DecodeString, base64.EncodeToString.
  rewrite list_byte_of_string_of_list_byte. apply base64_decode_encode.
Qed.

(** ** AES: the inverse cipher inverts the cipher *)

Lemma allBytes_complete (b : byte) : In b aes.allBytes.
Proof.
  unfold aes.allBytes. apply in_map_iff.
  pose proof (byte_to_Z_range b) as Hr.
  exists (Z.to_nat (byte_to_Z b)). split.
  - rewrite Z2Nat.id by lia. apply Z_to_byte_to_Z.
  - apply in_seq. lia.
Qed.

(** A property of two bytes that holds on the whole table holds. *)
Lemma forall_bytes2 (P : byte -> byte -> bool) :
  forallb (fun a => forallb (P a) aes.allBytes) aes.allBytes = true ->
  forall a b, P a b = true.
Proof.
  intros H a b. rewrite forallb_forall in H.
  specialize (H a (allBytes_complete a)). rewrite forallb_forall in H.
  apply H, allBytes_complete.
Qed.

Lemma invSub_sub (b : byte) : aes.invSub (aes.sub b) = b.
Proof. destruct b; vm_compute; reflexivity. Qed.

Lemma byte_to_Z_inj (a b : byte) : byte_to_Z a = byte_to_Z b -> a = b.
Proof.
  intros H. rewrite <- (Z_to_byte_to_Z a), <- (Z_to_byte_to_Z b), H. reflexivity.
Qed.

Lemma lxor_byte_range (a b : Z) :
  0 <= a < 256 -> 0 <= b < 256 -> Z.lxor a b mod 256 = Z.lxor a b.
Proof.
  intros Ha Hb. change 256 with (2 ^ 8). apply Z.bits_inj'. intros n Hn.
  destruct (Z.lt_ge_cases n 8) as [Hlt | Hge].
  - apply Z.mod_pow2_bits_low. lia.
  - rewrite Z.mod_pow2_bits_high by lia. rewrite Z.lxor_spec.
    rewrite <- (Z.mod_small a (2 ^ 8)), <- (Z.mod_small b (2 ^ 8)) by (change (2 ^ 8) with 256; lia).
    rewrite !Z.mod_pow2_bits_high by lia. reflexivity.
Qed.

Lemma byte_to_Z_xor (a b : byte) :
  byte_to_Z (byte_xor a b) = Z.lxor (byte_to_Z a) (byte_to_Z b).
Proof.
  unfold byte_xor. rewrite byte_to_Z_to_byte.
  apply lxor_byte_range; apply byte_to_Z_range.
Qed.

Lemma byte_xor_cancel (a k : byte) : byte_xor (byte_xor a k) k = a.
Proof.
  apply byte_to_Z_inj. rewrite !byte_to_Z_xor.
  rewrite Z.lxor_assoc, Z.lxor_nilpotent, Z.lxor_0_r. reflexivity.
Qed.

Lemma byte_xor_zero_r (a : byte) : byte_xor a x00 = a.
Proof.
  apply byte_to_Z_inj. rewrite byte_to_Z_xor. apply Z.lxor_0_r.
Qed.

Lemma byte_to_Z_xor4 (a b c d : byte) :
  byte_to_Z (aes.xor4 a b c d)
  = Z.lxor (Z.lxor (Z.lxor (byte_to_Z a) (byte_to_Z b)) (byte_to_Z c)) (byte_to_Z d).
Proof. unfold aes.xor4. rewrite !byte_to_Z_xor. reflexivity. Qed.

(** Sixteen terms summed by rows or by columns. *)
Lemma xor4_transpose (a1 a2 a3 a4 b1 b2 b3 b4 c1 c2 c3 c4 d1 d2 d3 d4 : byte) :
  aes.xor4 (aes.xor4 a1 a2 a3 a4) (aes.xor4 b1 b2 b3 b4)
           (aes.xor4 c1 c2 c3 c4) (aes.xor4 d1 d2 d3 d4)
  = aes.xor4 (aes.xor4 a1 b1 c1 d1) (aes.xor4 a2 b2 c2 d2)
             (aes.xor4 a3 b3 c3 d3) (aes.xor4 a4 b4 c4 d4).
Proof.
  apply byte_to_Z_inj. rewrite !byte_to_Z_xor4.
  apply Z.bits_inj'. intros n _. rewrite !Z.lxor_spec. btauto.
Qed.

Lemma gmul_linear (k : Z) (a b : byte) :
  gmul_linear_on k = true ->
  aes.gmul k (byte_xor a b) = byte_xor (aes.gmul k a) (aes.gmul k b).
Proof.
  intros H. apply byte_eqb_eq.
  apply (forall_bytes2 (fun a b => byte_eqb (aes.gmul k (byte_xor a b))
                                     (byte_xor (aes.gmul k a) (aes.gmul k b)))).
  exact H.
Qed.

Lemma gmul_linear_9 : gmul_linear_on 9 = true.
Proof. vm_compute. reflexivity. Qed.
Lemma gmul_linear_11 : gmul_linear_on 11 = true.
Proof. vm_compute. reflexivity. Qed.
Lemma gmul_linear_13 : gmul_linear_on 13 = true.
Proof. vm_compute. reflexivity. Qed.
Lemma gmul_linear_14 : gmul_linear_on 14 = true.
Proof. vm_compute. reflexivity. Qed.

Lemma gmul_xor4 (k : Z) (a b c d : byte) :
  gmul_linear_on k = true ->
  aes.gmul k (aes.xor4 a b c d)
  = aes.xor4 (aes.gmul k a) (aes.gmul k b) (aes.gmul k c) (aes.gmul k d).
Proof.
  intros H. unfold aes.xor4. rewrite !(gmul_linear k) by assumption. reflexivity.
Qed.

(** The product of the two circulant matrices is the identity: the
    entries, one byte at a time. *)
Lemma circulant_diag (a : byte) :
  aes.xor4 (aes.gmul 14 (aes.gmul 2 a)) (aes.gmul 11 a) (aes.gmul 13 a)
           (aes.gmul 9 (aes.gmul 3 a)) = a.
Proof. destruct a; vm_compute; reflexivity. Qed.

Lemma circulant_off1 (a : byte) :
  aes.xor4 (aes.gmul 14 (aes.gmul 3 a)) (aes.gmul 11 (aes.gmul 2 a))
           (aes.gmul 13 a) (aes.gmul 9 a) = x00.
Proof. destruct a; vm_compute; reflexivity. Qed.

Lemma circulant_off2 (a : byte) :
  aes.xor4 (aes.gmul 14 a) (aes.gmul 11 (aes.gmul 3 a))
           (aes.gmul 13 (aes.gmul 2 a)) (aes.gmul 9 a) = x00.
Proof. destruct a; vm_compute; reflexivity. Qed.

Lemma circulant_off3 (a : byte) :
  aes.xor4 (aes.gmul 14 a) (aes.gmul 11 a) (aes.gmul 13 (aes.gmul 3 a))
           (aes.gmul 9 (aes.gmul 2 a)) = x00.
Proof. destruct a; vm_compute; reflexivity. Qed.
Ltac one_byte a := clear; destruct a; vm_compute; reflexivity.

Lemma byte_xor_zero_l (a : byte) : byte_xor x00 a = a.
Proof.
  apply byte_to_Z_inj. rewrite byte_to_Z_xor. apply Z.lxor_0_l.
Qed.

Ltac column_entry a b c d ra rb rc rd :=
  rewrite xor4_transpose;
  match goal with
  | |- aes.xor4 ?ta ?tb ?tc ?td = _ =>
      assert (ta = ra) as -> by one_byte a;
      assert (tb = rb) as -> by one_byte b;
      assert (tc = rc) as -> by one_byte c;
      assert (td = rd) as -> by one_byte d
  end;
  unfold aes.xor4; rewrite ?byte_xor_zero_r, ?byte_xor_zero_l; reflexivity.

Lemma invMix_mix (a b c d : byte) :
  match aes.mixColumn a b c d with
  | [w; x; y; z] => aes.invMixColumn w x y z
  | _ => []
  end = [a; b; c; d].
Proof.
  unfold aes.mixColumn, aes.invMixColumn.
  rewrite !(gmul_xor4 9) by apply gmul_linear_9.
  rewrite !(gmul_xor4 11) by apply gmul_linear_11.
  rewrite !(gmul_xor4 13) by apply gmul_linear_13.
  rewrite !(gmul_xor4 14) by apply gmul_linear_14.
  f_equal; [| f_equal; [| f_equal; [| f_equal]]].
  - column_entry a b c d a x00 x00 x00.
  - column_entry a b c d x00 b x00 x00.
  - column_entry a b c d x00 x00 c x00.
  - column_entry a b c d x00 x00 x00 d.
Qed.

Lemma columns_inverse (a b c d : byte) (rest : list byte) :
  aes.invMixColumns (aes.mixColumns (a :: b :: c :: d :: rest))
  = a :: b :: c :: d :: aes.invMixColumns (aes.mixColumns rest).
Proof.
  unfold aes.invMixColumns, aes.mixColumns. cbn [aes.columns].
  pose proof (invMix_mix a b c d) as H.
  unfold aes.mixColumn in *. cbn [app aes.columns]. rewrite H. reflexivity.
Qed.

Lemma xorBytes_length (a b : list byte) :
  length a = length b -> length (aes.xorBytes a b) = length a.
Proof.
  unfold aes.xorBytes. intros H. rewrite length_zip_with. lia.
Qed.

Lemma xorBytes_cancel (a k : list byte) :
  length a = length k -> aes.xorBytes (aes.xorBytes a k) k = a.
Proof.
  unfold aes.xorBytes. revert k.
  induction a as [| x a IH]; intros [| y k] H; try discriminate H; [reflexivity |].
  cbn. rewrite byte_xor_cancel. f_equal. apply IH. injection H as H. exact H.
Qed.

Lemma state16 (st : list byte) :
  length st = 16%nat ->
  exists b0 b1 b2 b3 b4 b5 b6 b7 b8 b9 b10 b11 b12 b13 b14 b15,
    st = [b0; b1; b2; b3; b4; b5; b6; b7; b8; b9; b10; b11; b12; b13; b14; b15].
Proof.
  intros H.
  do 16 (destruct st as [| ? st]; [discriminate H |]).
  destruct st; [| discriminate H]. repeat eexists.
Qed.

Lemma invShiftRows_shiftRows (st : list byte) :
  length st = 16%nat -> aes.invShiftRows (aes.shiftRows st) = st.
Proof.
  intros H. destruct (state16 st H) as (?&?&?&?&?&?&?&?&?&?&?&?&?&?&?&?&->).
  reflexivity.
Qed.

Lemma invMixColumns_mixColumns (st : list byte) :
  length st = 16%nat -> aes.invMixColumns (aes.mixColumns st) = st.
Proof.
  intros H. destruct (state16 st H) as (?&?&?&?&?&?&?&?&?&?&?&?&?&?&?&?&->).
  rewrite !columns_inverse. reflexivity.
Qed.

Lemma invSubBytes_subBytes (st : list byte) :
  aes.invSubBytes (aes.subBytes st) = st.
Proof.
  unfold aes.invSubBytes, aes.subBytes. rewrite map_map.
  induction st as [| x st IH]; [reflexivity |].
  cbn [map]. rewrite invSub_sub, IH. reflexivity.
Qed.

Lemma subBytes_length (st : list byte) : length (aes.subBytes st) = length st.
Proof. apply length_map. Qed.

Lemma shiftRows_length (st : list byte) : length (aes.shiftRows st) = 16%nat.
Proof. reflexivity. Qed.

Lemma mixColumns_length (st : list byte) :
  length st = 16%nat -> length (aes.mixColumns st) = 16%nat.
Proof.
  intros H. destruct (state16 st H) as (?&?&?&?&?&?&?&?&?&?&?&?&?&?&?&?&->).
  reflexivity.
Qed.

Lemma addRoundKey_length (rk st : list byte) :
  length st = 16%nat -> length rk = 16%nat ->
  length (aes.addRoundKey rk st) = 16%nat.
Proof.
  intros Hs Hk. unfold aes.addRoundKey. rewrite xorBytes_length; congruence.
Qed.

Lemma addRoundKey_cancel (rk st : list byte) :
  length st = 16%nat -> length rk = 16%nat ->
  aes.addRoundKey rk (aes.addRoundKey rk st) = st.
Proof.
  intros Hs Hk. unfold aes.addRoundKey. apply xorBytes_cancel. congruence.
Qed.

Create HintDb aes_len.
#[local] Hint Resolve subBytes_length shiftRows_length mixColumns_length
  addRoundKey_length : aes_len.

Lemma encRounds_length (rks : list (list byte)) (st : list byte) :
  Forall (fun rk => length rk = 16%nat) rks -> length st = 16%nat ->
  length (aes.encRounds rks st) = 16%nat.
Proof.
  revert st. induction rks as [| rk rks IH]; intros st Hk Hs; [exact Hs |].
  inversion Hk as [| ? ? Hrk Hrks]; subst.
  destruct rks as [| rk2 rks'].
  - cbn [aes.encRounds]. apply addRoundKey_length; [reflexivity | assumption].
  - change (aes.encRounds (rk :: rk2 :: rks') st)
      with (aes.encRounds (rk2 :: rks')
              (aes.addRoundKey rk (aes.mixColumns (aes.shiftRows (aes.subBytes st))))).
    apply IH; auto with aes_len.
Qed.

Lemma decRounds_encRounds (rks : list (list byte)) (st : list byte) :
  Forall (fun rk => length rk = 16%nat) rks -> length st = 16%nat ->
  aes.decRounds rks (aes.encRounds rks st) = st.
Proof.
  revert st. induction rks as [| rk rks IH]; intros st Hk Hs; [reflexivity |].
  inversion Hk as [| ? ? Hrk Hrks]; subst.
  destruct rks as [| rk2 rks'].
  - cbn [aes.decRounds aes.encRounds].
    rewrite addRoundKey_cancel by auto with aes_len.
    rewrite invShiftRows_shiftRows by (rewrite subBytes_length; exact Hs).
    apply invSubBytes_subBytes.
  - change (aes.encRounds (rk :: rk2 :: rks') st)
      with (aes.encRounds (rk2 :: rks')
              (aes.addRoundKey rk (aes.mixColumns (aes.shiftRows (aes.subBytes st))))).
    change (aes.decRounds (rk :: rk2 :: rks') ?x)
      with (aes.invSubBytes (aes.invShiftRows (aes.invMixColumns
              (aes.addRoundKey rk (aes.decRounds (rk2 :: rks') x))))).
    rewrite IH by auto with aes_len.
    rewrite addRoundKey_cancel by auto with aes_len.
    rewrite invMixColumns_mixColumns by auto with aes_len.
    rewrite invShiftRows_shiftRows by (rewrite subBytes_length; exact Hs).
    apply invSubBytes_subBytes.
Qed.

Lemma Encrypt_length (b : aes.Block) (src : list byte) :
  wellKeyed b -> length src = 16%nat -> length (aes.Encrypt b src) = 16%nat.
Proof.
  unfold wellKeyed, aes.Encrypt. intros Hk Hs.
  destruct (aes.roundKeys b) as [| rk0 rks]; [exact Hs |].
  inversion Hk; subst. apply encRounds_length; auto with aes_len.
Qed.

Theorem Decrypt_Encrypt (b : aes.Block) (src : list byte) :
  wellKeyed b -> length src = 16%nat -> aes.Decrypt b (aes.Encrypt b src) = src.
Proof.
  unfold wellKeyed, aes.Encrypt, aes.Decrypt. intros Hk Hs.
  destruct (aes.roundKeys b) as [| rk0 rks]; [reflexivity |].
  inversion Hk; subst.
  rewrite decRounds_encRounds by auto with aes_len.
  apply addRoundKey_cancel; assumption.
Qed.

Lemma expandKey_lengths (key : list byte) :
  length key = 32%nat -> map length (aes.expandKey key) = repeat 16%nat 15.
Proof.
  intros H.
  do 32 (destruct key as [| ? key]; [discriminate H |]).
  destruct key; [| discriminate H].
  vm_compute. reflexivity.
Qed.

Lemma NewCipher_256 (key : list byte) :
  length key = 32%nat ->
  exists b, aes.NewCipher key = Ok b /\ wellKeyed b.
Proof.
  intros H. exists (aes.mkBlock (aes.expandKey key)). split.
  - unfold aes.NewCipher. rewrite H. reflexivity.
  - unfold wellKeyed. cbn [aes.roundKeys].
    pose proof (expandKey_lengths key H) as Hl.
    apply Forall_forall. intros rk Hin. apply list_elem_of_In in Hin.
    assert (In (length rk) (map length (aes.expandKey key))) as Hin'
      by (apply in_map; exact Hin).
    rewrite Hl in Hin'. apply repeat_spec in Hin'. exact Hin'.
Qed.

(** ** CBC: decryption inverts encryption *)

Lemma cbcEncrypt_length (b : aes.Block) (n : nat) (iv src : list byte) :
  wellKeyed b -> length iv = 16%nat -> length src = (16 * n)%nat ->
  length (cipher.cbcEncrypt b n iv src) = (16 * n)%nat.
Proof.
  intros Hk. revert iv src. induction n as [| n IH]; intros iv src Hiv Hs; [reflexivity |].
  cbn [cipher.cbcEncrypt]. rewrite length_app.
  assert (length (aes.xorBytes (firstn 16 src) iv) = 16%nat) as Hx.
  { rewrite xorBytes_length; rewrite length_firstn; lia. }
  rewrite Encrypt_length by assumption.
  rewrite IH; [lia | apply Encrypt_length; assumption |].
  rewrite length_skipn. lia.
Qed.

Theorem cbcDecrypt_cbcEncrypt (b : aes.Block) (n : nat) (iv src : list byte) :
  wellKeyed b -> length iv = 16%nat -> length src = (16 * n)%nat ->
  cipher.cbcDecrypt b n iv (cipher.cbcEncrypt b n iv src) = src.
Proof.
  intros Hk. revert iv src. induction n as [| n IH]; intros iv src Hiv Hs.
  - destruct src; [reflexivity | discriminate Hs].
  - cbn [cipher.cbcEncrypt cipher.cbcDecrypt].
    assert (length (aes.xorBytes (firstn 16 src) iv) = 16%nat) as Hx.
    { rewrite xorBytes_length; rewrite length_firstn; lia. }
    pose proof (Encrypt_length b _ Hk Hx) as He.
    rewrite firstn_app, He, Nat.sub_diag, firstn_O, app_nil_r.
    rewrite firstn_all2 by lia.
    rewrite skipn_app, He, Nat.sub_diag, skipn_O.
    rewrite skipn_all2 by lia. cbn [app].
    rewrite Decrypt_Encrypt by assumption.
    rewrite xorBytes_cancel by (rewrite length_firstn; lia).
    rewrite IH; [apply firstn_skipn | assumption |].
    rewrite length_skipn. lia.
Qed.

(** ** PKCS#7 at block size 32 *)

Lemma CryptBlocks_roundtrip (b : aes.Block) (iv src : list byte) :
  wellKeyed b -> len iv = 16 -> len src mod 16 = 0 ->
  exists ct,
    cipher.CryptBlocks cipher.Encrypter b iv src = Ok ct
    /\ len ct = len src
    /\ cipher.CryptBlocks cipher.Decrypter b iv ct = Ok src.
Proof.
  intros Hk Hiv Hs. unfold cipher.CryptBlocks, aes.BlockSize.
  assert (length iv = 16%nat) as Hiv' by (unfold len in Hiv; lia).
  assert (length src = (16 * (length src / 16))%nat) as Hn.
  { unfold len in Hs. 
    pose proof (Nat.div_mod_eq (length src) 16) as Hd.
    assert (length src mod 16 = 0)%nat; [| lia].
    apply Nat2Z.inj. rewrite Nat2Z.inj_mod. exact Hs. }
  rewrite Hiv, Hs. cbn [Z.eqb negb Pos.eqb].
  pose proof (cbcEncrypt_length b (length src / 16) iv src Hk Hiv' Hn) as Hl.
  eexists. split; [reflexivity |]. split.
  - unfold len. rewrite Hl. lia.
  - replace (len (cipher.cbcEncrypt b (length src / 16) iv src) mod 16) with 0.
    2:{ unfold len. rewrite Hl. rewrite Nat2Z.inj_mul, Z.mul_comm. 
        symmetry. apply Z_mod_mult. }
    cbn [Z.eqb negb]. rewrite Hl.
    replace (16 * (length src / 16) / 16)%nat with (length src / 16)%nat
      by (rewrite Nat.mul_comm, Nat.div_mul; lia).
    rewrite cbcDecrypt_cbcEncrypt by assumption. reflexivity.
Qed.

Lemma padLen_range (n : Z) : 1 <= 32 - n mod 32 <= 32.
Proof. pose proof (Z.mod_pos_bound n 32 ltac:(lia)). lia. Qed.

Lemma pkcs7Pad_len (data : list byte) :
  len (pkcs7Pad data padBlockSize) = len data + (32 - len data mod 32).
Proof.
  unfold pkcs7Pad, bytesRepeat, padBlockSize. rewrite len_app. unfold len at 2.
  rewrite repeat_length. pose proof (padLen_range (len data)). lia.
Qed.

Lemma pkcs7Pad_len_mod32 (data : list byte) :
  len (pkcs7Pad data padBlockSize) mod 32 = 0.
Proof.
  rewrite pkcs7Pad_len. pose proof (len_nonneg data).
  Z.div_mod_to_equations. lia.
Qed.

Lemma pkcs7Pad_len_mod16 (data : list byte) :
  len (pkcs7Pad data padBlockSize) mod 16 = 0.
Proof.
  pose proof (pkcs7Pad_len_mod32 data). Z.div_mod_to_equations. lia.
Qed.

Lemma at_app_r (a b : list byte) (i : Z) :
  len a <= i -> at_ (a ++ b) i = at_ b (i - len a).
Proof.
  unfold at_, len. intros H. rewrite app_nth2 by lia.
  f_equal. lia.
Qed.

Lemma at_repeat (x : byte) (n : nat) (i : Z) :
  0 <= i < Z.of_nat n -> at_ (repeat x n) i = x.
Proof.
  unfold at_. intros H. apply nth_repeat_lt. lia.
Qed.

Lemma slice_prefix {A} (a b : list A) : slice (a ++ b) 0 (len a) = a.
Proof.
  unfold slice, len. rewrite Z.sub_0_r, Nat2Z.id.
  change (Z.to_nat 0) with 0%nat. rewrite skipn_O.
  rewrite firstn_app, Nat.sub_diag, firstn_O, app_nil_r. apply firstn_all.
Qed.

Theorem pkcs7Unpad_pkcs7Pad (data : list byte) :
  pkcs7Unpad (pkcs7Pad data padBlockSize) padBlockSize = Ok data.
Proof.
  pose proof (pkcs7Pad_len data) as Hlen.
  pose proof (pkcs7Pad_len_mod32 data) as Hmod.
  pose proof (padLen_range (len data)) as Hp.
  pose proof (len_nonneg data) as Hd.
  assert (pkcs7Pad data padBlockSize
          = data ++ repeat (Z_to_byte (32 - len data mod 32))
                           (Z.to_nat (32 - len data mod 32))) as Hpad
    by reflexivity.
  set (p := 32 - len data mod 32) in *.
  set (padded := pkcs7Pad data padBlockSize) in *.
  assert (forall i, 0 <= i < p -> at_ padded (len padded - 1 - i) = Z_to_byte p) as Hat.
  { intros i Hi. rewrite Hlen, Hpad. rewrite at_app_r by lia.
    apply at_repeat. lia. }
  unfold pkcs7Unpad, padBlockSize. rewrite Hmod.
  destruct (Z.eqb_spec (len padded) 0) as [H0 | _]; [lia |].
  cbn [orb negb Z.eqb].
  rewrite <- (Z.sub_0_r (len padded - 1)).
  rewrite (Hat 0) by lia.
  rewrite byte_to_Z_to_byte, (Z.mod_small p 256) by lia.
  destruct (Z.eqb_spec p 0) as [? | _]; [lia |].
  destruct (Z.gtb_spec p 32) as [? | _]; [lia |].
  cbn [orb].
  rewrite (proj2 (forallb_forall _ _)).
  - rewrite Hlen. replace (len data + p - p) with (len data) by lia.
    rewrite Hpad. rewrite slice_prefix. reflexivity.
  - intros i Hi. apply in_seq in Hi.
    rewrite Z.sub_0_r. rewrite Hat by lia. apply byte_eqb_refl.
Qed.

(** ** The envelope: [decrypt] after [encrypt] *)

Lemma bind_Ok {A B} (a : A) (k : A -> result B) : (x ← Ok a; k x) = k a.
Proof. reflexivity. Qed.

Lemma pack4 (a b c d : Z) :
  0 <= a < 256 -> 0 <= b < 256 -> 0 <= c < 256 -> 0 <= d < 256 ->
  Z.lor (Z.lor (Z.lor (Z.shiftl a 24) (Z.shiftl b 16)) (Z.shiftl c 8)) d
  = a * 16777216 + b * 65536 + c * 256 + d.
Proof.
  intros Ha Hb Hc Hd. rewrite !Z.shiftl_mul_pow2 by lia.
  rewrite (lor_disjoint (a * 2 ^ 24) (b * 2 ^ 16) 24) by (try apply Z_mod_mult; lia).
  rewrite (lor_disjoint _ (c * 2 ^ 8) 16); [| lia | lia |].
  2:{ replace (a * 2 ^ 24 + b * 2 ^ 16) with ((a * 2 ^ 8 + b) * 2 ^ 16) by lia.
      apply Z_mod_mult. }
  rewrite (lor_disjoint _ d 8); [lia | lia | lia |].
  replace (a * 2 ^ 24 + b * 2 ^ 16 + c * 2 ^ 8)
    with ((a * 2 ^ 16 + b * 2 ^ 8 + c) * 2 ^ 8) by lia.
  apply Z_mod_mult.
Qed.

Lemma Uint32_PutUint32 (v : Z) :
  0 <= v < 2 ^ 32 -> binary.Uint32 (binary.PutUint32 v) = v.
Proof.
  intros Hv. unfold binary.Uint32, binary.PutUint32.
  rewrite !byte_to_Z_to_byte.
  rewrite pack4 by (apply Z.mod_pos_bound; lia).
  rewrite !Z.shiftr_div_pow2 by lia.
  change (2 ^ 24) with 16777216. change (2 ^ 16) with 65536.
  change (2 ^ 8) with 256. change (2 ^ 32) with 4294967296 in Hv.
  Z.div_mod_to_equations. lia.
Qed.

Lemma uint32_range (x : Z) : 0 <= uint32 x < 2 ^ 32.
Proof. unfold uint32. apply Z.mod_pos_bound. lia. Qed.

Lemma len_PutUint32 (v : Z) : len (binary.PutUint32 v) = 4.
Proof. reflexivity. Qed.

Lemma slice_suffix {A} (a b : list A) : slice (a ++ b) (len a) (len (a ++ b)) = b.
Proof.
  unfold slice. rewrite len_app. unfold len.
  replace (Z.of_nat (length a) + Z.of_nat (length b) - Z.of_nat (length a))
    with (Z.of_nat (length b)) by lia.
  rewrite !Nat2Z.id. rewrite skipn_app, Nat.sub_diag, skipn_O.
  rewrite skipn_all, app_nil_l. apply firstn_all.
Qed.

Lemma len_slice_prefix {A} (l : list A) (n : Z) :
  0 <= n <= len l -> len (slice l 0 n) = n.
Proof.
  unfold slice, len. intros H. rewrite Z.sub_0_r.
  change (Z.to_nat 0) with 0%nat. rewrite skipn_O, length_firstn. lia.
Qed.

Lemma slice_suffix_at {A} (a b : list A) (n : Z) :
  len a = n -> slice (a ++ b) n (len (a ++ b)) = b.
Proof. intros <-. apply slice_suffix. Qed.

Lemma slice_prefix_at {A} (a b : list A) (n : Z) :
  len a = n -> slice (a ++ b) 0 n = a.
Proof. intros <-. apply slice_prefix. Qed.

(** [encrypt] succeeds whenever the key has 32 bytes and the random source
    delivers 16, and [decrypt] of its result is the last step of
    [decrypt], the slice expression, on the envelope less its random
    prefix. *)
Lemma decrypt_encrypt_open (c : Crypt) (random plain : list byte) :
  len (aesKey c) = 32 -> 16 <= len random ->
  exists e,
    encrypt c random plain = Ok e
    /\ decrypt c e
       = sliceExpr (binary.PutUint32 (uint32 (len plain)) ++ plain
                    ++ list_byte_of_string (corpID c))
                   4 (uint32 (4 + uint32 (len plain)))
                   (len (pkcs7Pad (envelope c random plain) padBlockSize) - 16).
Proof.
  intros Hkey Hrand.
  destruct (NewCipher_256 (aesKey c)) as (b & Hb & Hwk);
    [unfold len in Hkey; lia |].
  set (env := envelope c random plain).
  set (content := binary.PutUint32 (uint32 (len plain)) ++ plain
                  ++ list_byte_of_string (corpID c)).
  assert (len (slice random 0 16) = 16) as Hr16
    by (apply len_slice_prefix; lia).
  assert (env = slice random 0 16 ++ content) as Henv by reflexivity.
  assert (len (slice (aesKey c) 0 aes.BlockSize) = 16) as Hiv
    by (apply len_slice_prefix; unfold aes.BlockSize; lia).
  destruct (CryptBlocks_roundtrip b (slice (aesKey c) 0 aes.BlockSize)
              (pkcs7Pad env padBlockSize) Hwk Hiv (pkcs7Pad_len_mod16 env))
    as (ct & Henc & Hct & Hdec).
  exists (base64.EncodeToString ct). split.
  - unfold encrypt. rewrite Hb, bind_Ok.
    unfold io_ReadFull. destruct (Z.leb_spec 16 (len random)) as [_ | ?]; [| lia].
    rewrite bind_Ok.
    change (cipher.CryptBlocks cipher.Encrypter b _ _)
      with (cipher.CryptBlocks cipher.Encrypter b
              (slice (aesKey c) 0 aes.BlockSize) (pkcs7Pad env padBlockSize)).
    rewrite Henc. reflexivity.
  - unfold decrypt. rewrite base64_DecodeString_EncodeToString.
    rewrite Hb, bind_Ok.
    rewrite Hct. unfold aes.BlockSize at 1. rewrite pkcs7Pad_len_mod16.
    cbn [Z.eqb negb]. rewrite Hdec, bind_Ok.
    rewrite pkcs7Unpad_pkcs7Pad, bind_Ok.
    assert (len content = 4 + len plain + len (list_byte_of_string (corpID c))) as Hcl.
    { unfold content. rewrite !len_app, len_PutUint32. lia. }
    assert (len env = 16 + len content) as Hel
      by (rewrite Henv, len_app; lia).
    pose proof (len_nonneg plain) as Hp.
    pose proof (len_nonneg (list_byte_of_string (corpID c))) as Hc.
    destruct (Z.ltb_spec (len env) 20) as [? | _]; [lia |].
    assert (slice env 16 (len env) = content) as ->.
    { rewrite Henv. apply slice_suffix_at, Hr16. }
    assert (slice content 0 4 = binary.PutUint32 (uint32 (len plain))) as ->.
    { unfold content. apply slice_prefix_at, len_PutUint32. }
    rewrite Uint32_PutUint32 by apply uint32_range.
    assert (slice content 4 (len content) = plain ++ list_byte_of_string (corpID c)) as ->.
    { unfold content. apply slice_suffix_at, len_PutUint32. }
    rewrite len_app.
    assert (uint32 (len plain) <= len plain) as Hle.
    { unfold uint32. apply Z.mod_le; lia. }
    destruct (Z.gtb_spec (uint32 (len plain))
                (len plain + len (list_byte_of_string (corpID c)))) as [? | _]; [lia |].
    reflexivity.
Qed.

(** ** C8: key decoding *)

Lemma list_byte_of_string_append (s t : string) :
  list_byte_of_string (String.append s t)
  = list_byte_of_string s ++ list_byte_of_string t.
Proof.
  induction s as [| a s IH]; [reflexivity |].
  change (list_byte_of_string (String.append (String a s) t))
    with (byte_of_ascii a :: list_byte_of_string (String.append s t)).
  rewrite IH. reflexivity.
Qed.

Lemma strlen_append (s t : string) :
  strlen (String.append s t) = strlen s + strlen t.
Proof.
  unfold strlen. rewrite list_byte_of_string_append. apply len_app.
Qed.

Lemma strlen_Repeat_pad (n : Z) :
  0 <= n -> strlen (strings_Repeat "=" n) = n.
Proof.
  intros Hn. unfold strings_Repeat.
  rewrite <- (Z2Nat.id n) at 2 by lia.
  induction (Z.to_nat n) as [| k IH]; [reflexivity |].
  cbn [repeat fold_right]. rewrite strlen_append, IH.
  change (strlen "=") with 1. lia.
Qed.

Lemma strlen_zero (s : string) : strlen s = 0 -> s = ""%string.
Proof.
  destruct s; [reflexivity |]. unfold strlen, len. cbn. lia.
Qed.

Lemma NewCrypt_decoded (tok encodingKey corp : string) :
  NewCrypt tok encodingKey corp
  = match base64.DecodeString (paddedKey encodingKey) with
    | Err e => Err (wrapError "decode aes key" e)
    | Ok key =>
        if len key =? 32 then Ok (mkCrypt tok key corp)
        else Err ErrInvalidAESKey
    end.
Proof.
  unfold NewCrypt, decodeAESKey. fold (paddedKey encodingKey).
  destruct (Z.eqb_spec (strlen encodingKey) 0) as [H0 | Hne].
  - apply strlen_zero in H0. subst encodingKey. reflexivity.
  - destruct (base64.DecodeString (paddedKey encodingKey)) as [key | e];
      [| reflexivity].
    destruct (len key =? 32); reflexivity.
Qed.

Lemma NewCrypt_key_length (tok key corp : string) (c : Crypt) :
  NewCrypt tok key corp = Ok c -> len (aesKey c) = 32.
Proof.
  rewrite NewCrypt_decoded.
  destruct (base64.DecodeString (paddedKey key)) as [k | e]; [| discriminate].
  destruct (Z.eqb_spec (len k) 32) as [H32 | H32]; [| discriminate].
  intros H. injection H as <-. exact H32.
Qed.

(** C8, as the code has it: the key is padded with the fewest ['=']
    that make its length a multiple of four and Base64-decoded;
    construction fails with [ErrInvalidAESKey] exactly when the decoding
    succeeds with other than 32 bytes (the empty key included), fails with
    the Base64 error wrapped as "decode aes key" exactly when the decoding
    fails, and otherwise succeeds with the 32 decoded bytes as the key. *)
Theorem C8_NewCrypt_key_decoding (tok encodingKey corp : string) :
  (exists r, 0 <= r < 4
             /\ paddedKey encodingKey = String.append encodingKey (strings_Repeat "=" r)
             /\ strlen (paddedKey encodingKey) mod 4 = 0)
  /\ NewCrypt tok encodingKey corp
     = match base64.DecodeString (paddedKey encodingKey) with
       | Err e => Err (wrapError "decode aes key" e)
       | Ok key =>
           if len key =? 32 then Ok (mkCrypt tok key corp)
           else Err ErrInvalidAESKey
       end
  /\ (NewCrypt tok encodingKey corp = Err ErrInvalidAESKey
      <-> exists key, base64.DecodeString (paddedKey encodingKey) = Ok key
                      /\ len key <> 32)
  /\ ((exists e, NewCrypt tok encodingKey corp = Err (wrapError "decode aes key" e))
      <-> isOk (base64.DecodeString (paddedKey encodingKey)) = false)
  /\ (forall c, NewCrypt tok encodingKey corp = Ok c
      <-> base64.DecodeString (paddedKey encodingKey) = Ok (aesKey c)
          /\ len (aesKey c) = 32 /\ token c = tok /\ corpID c = corp).
Proof.
  pose proof (NewCrypt_decoded tok encodingKey corp) as Heq.
  split; [| split; [exact Heq | rewrite Heq; clear Heq; split; [| split]]].
  - exists ((4 - strlen encodingKey mod 4) mod 4).
    pose proof (Z.mod_pos_bound (4 - strlen encodingKey mod 4) 4 ltac:(lia)) as Hr.
    split; [exact Hr |]. split; [reflexivity |].
    unfold paddedKey. rewrite strlen_append, strlen_Repeat_pad by lia.
    Z.div_mod_to_equations. lia.
  - destruct (base64.DecodeString (paddedKey encodingKey)) as [key | e].
    + destruct (Z.eqb_spec (len key) 32) as [H32 | H32]; split.
      * discriminate.
      * intros (key' & Hk & Hne). injection Hk as <-. contradiction.
      * intros _. exists key. split; [reflexivity | exact H32].
      * reflexivity.
    + split; [discriminate |]. intros (key & Hk & _). discriminate Hk.
  - destruct (base64.DecodeString (paddedKey encodingKey)) as [key | e].
    + destruct (len key =? 32); split;
        try (intros (e & He); discriminate He); discriminate.
    + split; [reflexivity |]. intros _. exists e. reflexivity.
  - intros c. destruct (base64.DecodeString (paddedKey encodingKey)) as [key | e].
    + destruct (Z.eqb_spec (len key) 32) as [H32 | H32]; split.
      * intros H. injection H as <-. cbn. auto.
      * intros (Hk & _ & Ht & Hc). injection Hk as Hk. subst.
        destruct c; reflexivity.
      * discriminate.
      * intros (Hk & Hl & _). injection Hk as Hk. subst. contradiction.
    + split; [discriminate |]. intros (Hk & _). discriminate Hk.
Qed.

(** C8 as stated fails: a key the Base64 decoder rejects makes
    construction fail with the wrapped decoder error, which is not
    [ErrInvalidAESKey]. *)
Lemma C8_decode_failure_is_not_ErrInvalidAESKey :
  let encodingKey := "jWmYm7qr5nMoAUwZRjGtBxmz3KA1tkAj3ykkR6q2B2-"%string in
  strlen encodingKey = 43
  /\ isOk (base64.DecodeString (paddedKey encodingKey)) = false
  /\ NewCrypt "QDG6eK" encodingKey "wx5823bf96d3bd56c7"
     = Err (wrapError "decode aes key" CorruptInputError)
  /\ ~ (NewCrypt "QDG6eK" encodingKey "wx5823bf96d3bd56c7" = Err ErrInvalidAESKey
        <-> (isOk (base64.DecodeString (paddedKey encodingKey)) = false
             \/ exists key, base64.DecodeString (paddedKey encodingKey) = Ok key
                            /\ len key <> 32)).
Proof.
  cbv zeta. split; [reflexivity |]. split; [vm_compute; reflexivity |].
  assert (NewCrypt "QDG6eK" "jWmYm7qr5nMoAUwZRjGtBxmz3KA1tkAj3ykkR6q2B2-"
                   "wx5823bf96d3bd56c7"
          = Err (wrapError "decode aes key" CorruptInputError)) as H
    by (vm_compute; reflexivity).
  split; [exact H |]. rewrite H. intros [_ Hr].
  discriminate Hr. left. vm_compute. reflexivity.
Qed.


(** ** C1 and C9: the envelope round trip and its limits *)

Lemma slice_middle {A} (a b c : list A) (lo hi : Z) :
  len a = lo -> lo + len b = hi -> slice (a ++ b ++ c) lo hi = b.
Proof.
  intros <- <-. unfold slice, len.
  replace (Z.of_nat (length a) + Z.of_nat (length b) - Z.of_nat (length a))
    with (Z.of_nat (length b)) by lia.
  rewrite !Nat2Z.id. rewrite skipn_app, Nat.sub_diag, skipn_O.
  rewrite skipn_all, app_nil_l.
  rewrite firstn_app, Nat.sub_diag, firstn_O, app_nil_r. apply firstn_all.
Qed.

Lemma envelope_len (c : Crypt) (random plain : list byte) :
  16 <= len random ->
  len (envelope c random plain)
  = 20 + len plain + len (list_byte_of_string (corpID c)).
Proof.
  intros H. unfold envelope. rewrite !len_app, len_PutUint32.
  rewrite len_slice_prefix by lia. lia.
Qed.

(** C1, as the code has it: for every plaintext [P] shorter than
    [2^32 - 4] bytes and every crypt context built by [NewCrypt],
    [encrypt] succeeds once the random source has delivered its sixteen
    bytes, and [decrypt] of the result is exactly [P]. *)
Theorem C1_decrypt_encrypt_roundtrip
    (tok encodingKey corp : string) (c : Crypt) (random P : list byte) :
  NewCrypt tok encodingKey corp = Ok c ->
  16 <= len random ->
  4 + len P < 2 ^ 32 ->
  exists e, encrypt c random P = Ok e /\ decrypt c e = Ok P.
Proof.
  intros Hc Hr HP. pose proof (NewCrypt_key_length _ _ _ _ Hc) as Hkey.
  destruct (decrypt_encrypt_open c random P Hkey Hr) as (e & He & Hd).
  exists e. split; [exact He |]. rewrite Hd. clear He Hd.
  pose proof (len_nonneg P) as HP0.
  pose proof (len_nonneg (list_byte_of_string (corpID c))) as Hc0.
  pose proof (pkcs7Pad_len (envelope c random P)) as Hpl.
  pose proof (padLen_range (len (envelope c random P))) as Hpr.
  rewrite envelope_len in Hpl, Hpr by assumption.
  unfold sliceExpr, uint32. rewrite (Z.mod_small (len P)) by lia.
  rewrite (Z.mod_small (4 + len P)) by lia.
  destruct (Z.leb_spec 0 4) as [_ | ?]; [| lia].
  destruct (Z.leb_spec 4 (4 + len P)) as [_ | ?]; [| lia].
  destruct (Z.leb_spec (4 + len P)
              (len (pkcs7Pad (envelope c random P) padBlockSize) - 16)) as [_ | ?];
    [| lia].
  cbn [andb]. f_equal. apply slice_middle; [apply len_PutUint32 | lia].
Qed.

Lemma C1_decrypt_encrypt_roundtrip_witness :
  exists c e,
    NewCrypt "QDG6eK" "jWmYm7qr5nMoAUwZRjGtBxmz3KA1tkAj3ykkR6q2B2C"
             "wx5823bf96d3bd56c7" = Ok c
    /\ encrypt c (list_byte_of_string "0960688932c47ef1")
               (list_byte_of_string "roundtrip-payload") = Ok e
    /\ decrypt c e = Ok (list_byte_of_string "roundtrip-payload").
Proof.
  destruct (NewCrypt "QDG6eK" "jWmYm7qr5nMoAUwZRjGtBxmz3KA1tkAj3ykkR6q2B2C"
                     "wx5823bf96d3bd56c7") as [c | err] eqn:Hc;
    [| vm_compute in Hc; discriminate Hc].
  destruct (C1_decrypt_encrypt_roundtrip _ _ _ c
              (list_byte_of_string "0960688932c47ef1")
              (list_byte_of_string "roundtrip-payload") Hc) as (e & He & Hd).
  - vm_compute. discriminate.
  - vm_compute. reflexivity.
  - exists c, e. auto.
Defined.

Lemma len_repeat (x : byte) (n : Z) : 0 <= n -> len (repeat x (Z.to_nat n)) = n.
Proof. intros H. unfold len. rewrite repeat_length. lia. Qed.

(** The round trip on a plaintext of [2^32] bytes: the length field wraps
    to zero and [decrypt] returns the empty message. *)
Lemma decrypt_encrypt_wrapped_length (c : Crypt) (random P : list byte) :
  len (aesKey c) = 32 -> 16 <= len random -> len P = 2 ^ 32 ->
  exists e, encrypt c random P = Ok e /\ decrypt c e = Ok [].
Proof.
  intros Hkey Hr HP.
  destruct (decrypt_encrypt_open c random P Hkey Hr) as (e & He & Hd).
  exists e. split; [exact He |]. rewrite Hd. clear He Hd.
  pose proof (len_nonneg (list_byte_of_string (corpID c))) as Hc0.
  pose proof (pkcs7Pad_len (envelope c random P)) as Hpl.
  pose proof (padLen_range (len (envelope c random P))) as Hpr.
  rewrite envelope_len in Hpl, Hpr by assumption.
  unfold sliceExpr, uint32. rewrite HP, Z_mod_same_full, Z.add_0_r.
  rewrite (Z.mod_small 4) by lia.
  destruct (Z.leb_spec 4 (len (pkcs7Pad (envelope c random P) padBlockSize) - 16))
    as [_ | ?]; [| lia].
  cbn [andb Z.leb Z.compare Pos.compare Pos.compare_cont].
  unfold slice. rewrite Z.sub_diag. reflexivity.
Qed.

(** C1 as stated fails at a plaintext of [2^32] bytes. *)
Lemma C1_roundtrip_fails_at_4GiB :
  let P := repeat x00 (Z.to_nat (2 ^ 32)) in
  exists c e,
    NewCrypt "QDG6eK" "jWmYm7qr5nMoAUwZRjGtBxmz3KA1tkAj3ykkR6q2B2C"
             "wx5823bf96d3bd56c7" = Ok c
    /\ encrypt c (list_byte_of_string "0960688932c47ef1") P = Ok e
    /\ decrypt c e = Ok []
    /\ decrypt c e <> Ok P.
Proof.
  intros P.
  assert (len P = 2 ^ 32) as HP by (apply len_repeat; lia).
  clearbody P.
  destruct (NewCrypt "QDG6eK" "jWmYm7qr5nMoAUwZRjGtBxmz3KA1tkAj3ykkR6q2B2C"
                     "wx5823bf96d3bd56c7") as [c | err] eqn:Hc;
    [| vm_compute in Hc; discriminate Hc].
  pose proof (NewCrypt_key_length _ _ _ _ Hc) as Hkey.
  destruct (decrypt_encrypt_wrapped_length c
              (list_byte_of_string "0960688932c47ef1") P Hkey) as (e & He & Hd);
    [vm_compute; discriminate | exact HP |].
  exists c, e. repeat split; try assumption.
  rewrite Hd. intros H. injection H as H. subst P. discriminate HP.
Qed.

(** [decrypt] on the envelope of a plaintext of [2^32 - 4] bytes: the
    length check passes, the upper bound [4 + msgLen] wraps to zero, and
    the slice expression [content[4:0]] panics. *)
Lemma decrypt_wrapped_bound (c : Crypt) (random P : list byte) :
  len (aesKey c) = 32 -> 16 <= len random -> len P = 2 ^ 32 - 4 ->
  exists e, encrypt c random P = Ok e
            /\ decrypt c e = Err (panic "slice bounds out of range").
Proof.
  intros Hkey Hr HP.
  destruct (decrypt_encrypt_open c random P Hkey Hr) as (e & He & Hd).
  exists e. split; [exact He |]. rewrite Hd. clear He Hd.
  unfold sliceExpr, uint32. rewrite HP.
  rewrite (Z.mod_small (2 ^ 32 - 4)) by lia.
  replace (4 + (2 ^ 32 - 4)) with (2 ^ 32) by lia.
  rewrite Z_mod_same_full. reflexivity.
Qed.

(** C9 fails on the code at the envelope of a plaintext of [2^32 - 4]
    bytes: neither guard of [decrypt] fires and the call panics. *)
Theorem C9_decrypt_panics_on_wrapped_bound :
  let P := repeat x00 (Z.to_nat (2 ^ 32 - 4)) in
  exists c e,
    NewCrypt "QDG6eK" "jWmYm7qr5nMoAUwZRjGtBxmz3KA1tkAj3ykkR6q2B2C"
             "wx5823bf96d3bd56c7" = Ok c
    /\ encrypt c (list_byte_of_string "0960688932c47ef1") P = Ok e
    /\ decrypt c e = Err (panic "slice bounds out of range").
Proof.
  intros P.
  assert (len P = 2 ^ 32 - 4) as HP by (apply len_repeat; lia).
  clearbody P.
  destruct (NewCrypt "QDG6eK" "jWmYm7qr5nMoAUwZRjGtBxmz3KA1tkAj3ykkR6q2B2C"
                     "wx5823bf96d3bd56c7") as [c | err] eqn:Hc;
    [| vm_compute in Hc; discriminate Hc].
  pose proof (NewCrypt_key_length _ _ _ _ Hc) as Hkey.
  destruct (decrypt_wrapped_bound c
              (list_byte_of_string "0960688932c47ef1") P Hkey) as (e & He & Hd);
    [vm_compute; discriminate | exact HP |].
  exists c, e. auto.
Qed.

(** ** C9: where the framing of [decrypt] is in bounds *)

Lemma cbcDecrypt_length_le (b : aes.Block) (n : nat) (iv src : list byte) :
  (length iv <= 16)%nat -> (length (cipher.cbcDecrypt b n iv src) <= 16 * n)%nat.
Proof.
  revert iv src. induction n as [| n IH]; intros iv src Hiv; [cbn; lia |].
  cbn [cipher.cbcDecrypt]. rewrite length_app.
  assert (length (aes.xorBytes (aes.Decrypt b (firstn 16 src)) iv) <= 16)%nat.
  { unfold aes.xorBytes. rewrite length_zip_with. lia. }
  specialize (IH (firstn 16 src) (skipn 16 src)).
  rewrite length_firstn in IH. lia.
Qed.

Lemma pkcs7Unpad_Ok (data plain : list byte) :
  pkcs7Unpad data padBlockSize = Ok plain ->
  exists padLen, 1 <= padLen <= 32 /\ padLen <= len data
                 /\ plain = slice data 0 (len data - padLen).
Proof.
  unfold pkcs7Unpad, padBlockSize.
  destruct (Z.eqb_spec (len data) 0) as [? | Hne]; [discriminate |].
  destruct (Z.eqb_spec (len data mod 32) 0) as [Hmod | ?]; [| discriminate].
  cbn [orb negb].
  pose proof (byte_to_Z_range (at_ data (len data - 1))) as Hr.
  set (padLen := byte_to_Z (at_ data (len data - 1))) in *.
  destruct (Z.eqb_spec padLen 0) as [? | Hp0]; [discriminate |].
  destruct (Z.gtb_spec padLen 32) as [? | Hp32]; [discriminate |].
  cbn [orb]. destruct (forallb _ _); [| discriminate].
  intros H. injection H as <-. exists padLen.
  pose proof (len_nonneg data).
  split; [lia |]. split; [| reflexivity].
  Z.div_mod_to_equations. lia.
Qed.

Lemma len_slice {A} (l : list A) (lo hi : Z) :
  0 <= lo <= hi -> hi <= len l -> len (slice l lo hi) = hi - lo.
Proof.
  unfold slice, len. intros H1 H2. rewrite length_firstn, length_skipn. lia.
Qed.

Lemma NewCipher_Ok (key : list byte) (b : aes.Block) :
  aes.NewCipher key = Ok b -> 16 <= len key.
Proof.
  unfold aes.NewCipher, len. intros H.
  remember (length key) as n eqn:Hn.
  do 33 (destruct n as [| n]; [try discriminate H; lia |]).
  discriminate H.
Qed.

Lemma NewCipher_Err (key : list byte) (e : error) :
  aes.NewCipher key = Err e -> exists k, e = KeySizeError k.
Proof.
  unfold aes.NewCipher. intros H.
  remember (length key) as n eqn:Hn. clear Hn.
  do 33 (destruct n as [| n];
         [try discriminate H; injection H as <-; eexists; reflexivity |]).
  injection H as <-. eexists; reflexivity.
Qed.

Lemma pkcs7Unpad_Err (data : list byte) (e : error) :
  pkcs7Unpad data padBlockSize = Err e -> exists msg, e = errorString msg.
Proof.
  unfold pkcs7Unpad. intros H.
  repeat match type of H with
         | (if ?b then _ else _) = _ => destruct b
         end; try discriminate H; injection H as <-; eexists; reflexivity.
Qed.

Lemma uint32_be_range (b : list byte) : 0 <= binary.Uint32 b.
Proof.
  unfold binary.Uint32.
  destruct b as [| b0 [| b1 [| b2 [| b3 rest]]]]; try lia.
  pose proof (byte_to_Z_range b0). pose proof (byte_to_Z_range b1).
  pose proof (byte_to_Z_range b2). pose proof (byte_to_Z_range b3).
  rewrite pack4 by assumption. lia.
Qed.

Lemma uint32_be_lt (b : list byte) : binary.Uint32 b < 2 ^ 32.
Proof.
  unfold binary.Uint32.
  destruct b as [| b0 [| b1 [| b2 [| b3 rest]]]]; try lia.
  pose proof (byte_to_Z_range b0). pose proof (byte_to_Z_range b1).
  pose proof (byte_to_Z_range b2). pose proof (byte_to_Z_range b3).
  rewrite pack4 by assumption. lia.
Qed.

Lemma toInt_fits (intSize x : Z) :
  intSize = 32 \/ intSize = 64 ->
  0 <= x < 2 ^ (intSize - 1) -> toInt intSize x = x.
Proof.
  intros [-> | ->] H; unfold toInt.
  - change (2 ^ (32 - 1)) with 2147483648 in *.
    change (2 ^ 32) with 4294967296. rewrite Z.mod_small; lia.
  - change (2 ^ (64 - 1)) with 9223372036854775808 in *.
    change (2 ^ 64) with 18446744073709551616. rewrite Z.mod_small; lia.
Qed.

Lemma toInt_32_negative (x : Z) :
  2 ^ 31 <= x < 2 ^ 32 -> toInt 32 x = x - 2 ^ 32.
Proof.
  intros H. unfold toInt.
  change (2 ^ (32 - 1)) with 2147483648. change (2 ^ 31) with 2147483648 in H.
  change (2 ^ 32) with 4294967296 in *.
  replace (x + 2147483648) with ((x - 2147483648) + 1 * 4294967296) by lia.
  rewrite Z.mod_add by lia. rewrite Z.mod_small; lia.
Qed.

(** With 64 bits [decryptOn] is [decrypt]. *)
Lemma decryptOn_64 (c : Crypt) (cipherText : string) :
  decryptOn 64 c cipherText = decrypt c cipherText.
Proof.
  unfold decryptOn, decrypt.
  destruct (base64.DecodeString cipherText) as [cipherData | e]; [| reflexivity].
  destruct (aes.NewCipher (aesKey c)) as [block | e]; [| reflexivity].
  rewrite !bind_Ok.
  destruct (negb (len cipherData mod aes.BlockSize =? 0)); [reflexivity |].
  destruct (cipher.CryptBlocks _ _ _ _) as [padded | e]; [| reflexivity].
  rewrite !bind_Ok.
  destruct (pkcs7Unpad padded padBlockSize) as [plain | e]; [| reflexivity].
  rewrite !bind_Ok.
  destruct (len plain <? 20); [reflexivity |].
  cbv zeta. rewrite toInt_fits; [reflexivity | right; reflexivity |].
  pose proof (uint32_be_range (slice (slice plain 16 (len plain)) 0 4)).
  pose proof (uint32_be_lt (slice (slice plain 16 (len plain)) 0 4)).
  change (2 ^ (64 - 1)) with 9223372036854775808.
  change (2 ^ 32) with 4294967296 in *. lia.
Qed.

Ltac no_panic_no_result :=
  split; [intros ? Hok; discriminate Hok |];
  split; [intros ? Hpanic; discriminate Hpanic |];
  intros _ ? ? ? Hb'; try discriminate Hb'.

(** The framing of [decrypt], on a ciphertext below four gibibytes whose
    length fits an [int], as every length does.  What [decrypt] returns
    is the range [20 .. 20 + msgLen] of the unpadded plaintext, [msgLen]
    being the length field and within what follows it.  Where [int] has
    64 bits it never panics.  Where [int] has 32 bits it panics exactly
    when the unpadded plaintext has its twenty bytes and a length field
    of [2^31] or more: the guard compares [int(msgLen)], which is then
    negative. *)
Theorem decrypt_in_bounds_below_4GiB (intSize : Z) (c : Crypt)
    (cipherText : string) (cipherData : list byte) :
  intSize = 32 \/ intSize = 64 ->
  base64.DecodeString cipherText = Ok cipherData ->
  len cipherData < 2 ^ 32 -> len cipherData < 2 ^ (intSize - 1) ->
  (forall payload, decryptOn intSize c cipherText = Ok payload ->
      exists block padded plain msgLen,
        aes.NewCipher (aesKey c) = Ok block
        /\ cipher.CryptBlocks cipher.Decrypter block
             (slice (aesKey c) 0 aes.BlockSize) cipherData = Ok padded
        /\ pkcs7Unpad padded padBlockSize = Ok plain
        /\ msgLen = binary.Uint32 (slice plain 16 20)
        /\ 20 + msgLen <= len plain
        /\ payload = slice plain 20 (20 + msgLen))
  /\ (forall msg, decryptOn intSize c cipherText = Err (panic msg) ->
        intSize = 32
        /\ exists block padded plain,
             aes.NewCipher (aesKey c) = Ok block
             /\ cipher.CryptBlocks cipher.Decrypter block
                  (slice (aesKey c) 0 aes.BlockSize) cipherData = Ok padded
             /\ pkcs7Unpad padded padBlockSize = Ok plain
             /\ 20 <= len plain
             /\ 2 ^ 31 <= binary.Uint32 (slice plain 16 20))
  /\ (intSize = 32 ->
      forall block padded plain,
        aes.NewCipher (aesKey c) = Ok block ->
        cipher.CryptBlocks cipher.Decrypter block
          (slice (aesKey c) 0 aes.BlockSize) cipherData = Ok padded ->
        pkcs7Unpad padded padBlockSize = Ok plain ->
        20 <= len plain -> 2 ^ 31 <= binary.Uint32 (slice plain 16 20) ->
        decryptOn intSize c cipherText = Err (panic "slice bounds out of range"))
  /\ (intSize = 64 ->
      decryptOn intSize c cipherText = decrypt c cipherText
      /\ forall msg, decrypt c cipherText <> Err (panic msg)).
Proof.
  intros Hint Hdec Hsize Hfits.
  assert (intSize = 64 -> decryptOn intSize c cipherText = decrypt c cipherText)
    as H64 by (intros ->; apply decryptOn_64).
  cut ((forall payload, decryptOn intSize c cipherText = Ok payload ->
          exists block padded plain msgLen,
            aes.NewCipher (aesKey c) = Ok block
            /\ cipher.CryptBlocks cipher.Decrypter block
                 (slice (aesKey c) 0 aes.BlockSize) cipherData = Ok padded
            /\ pkcs7Unpad padded padBlockSize = Ok plain
            /\ msgLen = binary.Uint32 (slice plain 16 20)
            /\ 20 + msgLen <= len plain
            /\ payload = slice plain 20 (20 + msgLen))
       /\ (forall msg, decryptOn intSize c cipherText = Err (panic msg) ->
             intSize = 32
             /\ exists block padded plain,
                  aes.NewCipher (aesKey c) = Ok block
                  /\ cipher.CryptBlocks cipher.Decrypter block
                       (slice (aesKey c) 0 aes.BlockSize) cipherData = Ok padded
                  /\ pkcs7Unpad padded padBlockSize = Ok plain
                  /\ 20 <= len plain
                  /\ 2 ^ 31 <= binary.Uint32 (slice plain 16 20))
       /\ (intSize = 32 ->
           forall block padded plain,
             aes.NewCipher (aesKey c) = Ok block ->
             cipher.CryptBlocks cipher.Decrypter block
               (slice (aesKey c) 0 aes.BlockSize) cipherData = Ok padded ->
             pkcs7Unpad padded padBlockSize = Ok plain ->
             20 <= len plain -> 2 ^ 31 <= binary.Uint32 (slice plain 16 20) ->
             decryptOn intSize c cipherText
             = Err (panic "slice bounds out of range"))).
  { intros (Hok & Hpanic & H32). split; [exact Hok |]. split; [exact Hpanic |].
    split; [exact H32 |]. intros E. split; [exact (H64 E) |].
    intros msg Hp. rewrite <- (H64 E) in Hp.
    destruct (Hpanic msg Hp) as [E32 _]. lia. }
  clear H64.
  remember (decryptOn intSize c cipherText) as r eqn:Hr.
  unfold decryptOn in Hr. rewrite Hdec in Hr.
  destruct (aes.NewCipher (aesKey c)) as [block | e] eqn:Hb.
  2:{ destruct (NewCipher_Err _ _ Hb) as (k & ->). subst r. no_panic_no_result. }
  rewrite bind_Ok in Hr. unfold aes.BlockSize at 1 in Hr.
  pose proof (NewCipher_Ok _ _ Hb) as Hkey.
  assert (len (slice (aesKey c) 0 aes.BlockSize) = 16) as Hiv
    by (apply len_slice_prefix; unfold aes.BlockSize; lia).
  destruct (Z.eqb_spec (len cipherData mod 16) 0) as [Hmod | Hmod];
    cbn [negb] in Hr.
  2:{ subst r. split; [intros ? Hok; discriminate Hok |].
      split; [intros ? Hpanic; discriminate Hpanic |].
      intros _ block' padded' plain' _ Hcb'. exfalso.
      unfold cipher.CryptBlocks in Hcb'. rewrite Hiv in Hcb'.
      unfold aes.BlockSize in Hcb'. cbn [Z.eqb negb orb Pos.eqb] in Hcb'.
      destruct (Z.eqb_spec (len cipherData mod 16) 0) as [? | _];
        [contradiction | discriminate Hcb']. }
  set (padded := cipher.cbcDecrypt block (length cipherData / 16)
                   (slice (aesKey c) 0 aes.BlockSize) cipherData).
  assert (cipher.CryptBlocks cipher.Decrypter block
            (slice (aesKey c) 0 aes.BlockSize) cipherData = Ok padded) as Hcb.
  { unfold cipher.CryptBlocks. rewrite Hiv. unfold aes.BlockSize.
    rewrite Hmod. reflexivity. }
  rewrite Hcb, bind_Ok in Hr.
  assert (len padded <= len cipherData) as Hpl.
  { unfold padded, len.
    pose proof (cbcDecrypt_length_le block (length cipherData / 16)
                  (slice (aesKey c) 0 aes.BlockSize) cipherData) as Hle.
    unfold len in Hiv.
    pose proof (Nat.div_mod_eq (length cipherData) 16). lia. }
  destruct (pkcs7Unpad padded padBlockSize) as [plain | e] eqn:Hun.
  2:{ destruct (pkcs7Unpad_Err _ _ Hun) as (msg' & ->). subst r.
      split; [intros ? Hok; discriminate Hok |].
      split; [intros ? Hpanic; discriminate Hpanic |].
      intros _ block' padded' plain' [= <-] Hcb' Hun'.
      rewrite Hcb in Hcb'. injection Hcb' as <-. rewrite Hun in Hun'.
      discriminate Hun'. }
  rewrite bind_Ok in Hr.
  destruct (pkcs7Unpad_Ok _ _ Hun) as (padLen & Hp & Hpd & Hplain).
  assert (len plain = len padded - padLen) as Hlen.
  { rewrite Hplain. rewrite len_slice; lia. }
  destruct (Z.ltb_spec (len plain) 20) as [Hshort | H20].
  { subst r. split; [intros ? Hok; discriminate Hok |].
    split; [intros ? Hpanic; discriminate Hpanic |].
    intros _ block' padded' plain' [= <-] Hcb' Hun' H20'.
    rewrite Hcb in Hcb'. injection Hcb' as <-. rewrite Hun in Hun'.
    injection Hun' as <-. lia. }
  set (content := slice plain 16 (len plain)) in *.
  assert (len content = len plain - 16) as Hcl
    by (unfold content; apply len_slice; lia).
  assert (forall lo hi, 0 <= lo -> lo <= hi -> hi <= len content ->
            slice content lo hi = slice plain (16 + lo) (16 + hi)) as Hsub.
  { intros lo hi H0 H1 H2. unfold content, slice.
    replace (16 + hi - (16 + lo)) with (hi - lo) by lia.
    rewrite skipn_firstn_comm, firstn_firstn, skipn_skipn.
    replace (Z.to_nat lo + Z.to_nat 16)%nat with (Z.to_nat (16 + lo)) by lia.
    f_equal. lia. }
  assert (slice content 0 4 = slice plain 16 20) as Hfield
    by (rewrite Hsub by lia; reflexivity).
  set (msgLen := binary.Uint32 (slice content 0 4)) in *.
  assert (msgLen = binary.Uint32 (slice plain 16 20)) as HmsgLen
    by (unfold msgLen; rewrite Hfield; reflexivity).
  assert (len (slice content 4 (len content)) = len content - 4) as Hrest
    by (apply len_slice; lia).
  pose proof (uint32_be_range (slice content 0 4)) as Hm0. fold msgLen in Hm0.
  pose proof (uint32_be_lt (slice content 0 4)) as Hm1. fold msgLen in Hm1.
  assert (forall block' padded' plain',
            Ok block = Ok block' ->
            cipher.CryptBlocks cipher.Decrypter block'
              (slice (aesKey c) 0 aes.BlockSize) cipherData = Ok padded' ->
            pkcs7Unpad padded' padBlockSize = Ok plain' ->
            plain' = plain) as Hsame.
  { intros block' padded' plain' Hb' Hcb' Hun'.
    injection Hb' as <-.
    rewrite Hcb in Hcb'. injection Hcb' as <-. rewrite Hun in Hun'.
    injection Hun' as <-. reflexivity. }
  change (2 ^ 32) with 4294967296 in *. change (2 ^ 31) with 2147483648 in *.
  assert ((toInt intSize msgLen = msgLen
           /\ (intSize = 32 -> msgLen < 2147483648))
          \/ (intSize = 32 /\ 2147483648 <= msgLen)) as Hcases.
  { destruct Hint as [-> | ->].
    - destruct (Z.lt_ge_cases msgLen 2147483648) as [Hsmall | Hbig];
        [left | right; auto].
      split; [| auto]. apply toInt_fits; [left; reflexivity |].
      change (2 ^ (32 - 1)) with 2147483648. lia.
    - left. split; [| intros E; discriminate E].
      apply toInt_fits; [right; reflexivity |].
      change (2 ^ (64 - 1)) with 9223372036854775808. lia. }
  destruct Hcases as [[Hexact Hlt] | [-> Hbig]].
  - (* the conversion is exact *)
    rewrite Hexact in Hr.
    destruct (Z.gtb_spec msgLen (len (slice content 4 (len content))))
      as [? | Hfit].
    { subst r. split; [intros ? Hok; discriminate Hok |].
      split; [intros ? Hpanic; discriminate Hpanic |].
      intros E block' padded' plain' Hb' Hcb' Hun' _ Hbig'.
      rewrite (Hsame _ _ _ Hb' Hcb' Hun'), <- HmsgLen in Hbig'.
      specialize (Hlt E). lia. }
    unfold sliceExpr, uint32 in Hr. change (2 ^ 32) with 4294967296 in Hr.
    rewrite (Z.mod_small (4 + msgLen)) in Hr by lia.
    destruct (Z.leb_spec 4 (4 + msgLen)) as [_ | ?]; [| lia].
    destruct (Z.leb_spec (4 + msgLen) (len cipherData - 16)) as [_ | ?]; [| lia].
    cbn [Z.leb andb Z.compare] in Hr. subst r.
    split.
    { intros payload H. injection H as <-.
      exists block, padded, plain, msgLen.
      split; [reflexivity |]. split; [exact Hcb |]. split; [exact Hun |].
      split; [exact HmsgLen |]. split; [lia |].
      rewrite Hsub by lia. f_equal. lia. }
    split; [intros ? Hpanic; discriminate Hpanic |].
    intros E block' padded' plain' Hb' Hcb' Hun' _ Hbig'.
    rewrite (Hsame _ _ _ Hb' Hcb' Hun'), <- HmsgLen in Hbig'.
    specialize (Hlt E). lia.
  - (* 32 bits, and the length field is 2^31 or more *)
    change (2 ^ (32 - 1)) with 2147483648 in Hfits.
    rewrite toInt_32_negative in Hr
      by (change (2 ^ 31) with 2147483648; change (2 ^ 32) with 4294967296; lia).
    change (2 ^ 32) with 4294967296 in Hr.
    destruct (Z.gtb_spec (msgLen - 4294967296) (len (slice content 4 (len content))))
      as [? | _]; [lia |].
    assert (sliceExpr content 4 (uint32 (4 + msgLen)) (len cipherData - 16)
            = Err (panic "slice bounds out of range")) as Hpanics.
    { unfold sliceExpr, uint32. change (2 ^ 32) with 4294967296.
      destruct (Z.lt_ge_cases (4 + msgLen) 4294967296) as [Hlo | Hhi].
      - rewrite Z.mod_small by lia.
        destruct (Z.leb_spec (4 + msgLen) (len cipherData - 16)) as [? | _];
          [lia |]. rewrite andb_false_r. reflexivity.
      - replace (4 + msgLen) with ((4 + msgLen - 4294967296) + 1 * 4294967296)
          by lia.
        rewrite Z.mod_add by lia. rewrite Z.mod_small by lia.
        destruct (Z.leb_spec 4 (4 + msgLen - 4294967296)) as [? | _]; [lia |].
        rewrite andb_false_r. reflexivity. }
    rewrite Hpanics in Hr. subst r.
    split; [intros ? Hok; discriminate Hok |].
    split.
    { intros msg _. split; [reflexivity |].
      exists block, padded, plain.
      split; [reflexivity |]. split; [exact Hcb |]. split; [exact Hun |].
      split; [lia |]. rewrite <- HmsgLen. exact Hbig. }
    intros _ block' padded' plain' _ _ _ _ _. reflexivity.
Qed.

Lemma decrypt_in_bounds_below_4GiB_witness :
  exists c cipherData,
    docCrypt = Ok c
    /\ base64.DecodeString docCipherText = Ok cipherData
    /\ decryptOn 64 c docCipherText = decrypt c docCipherText
    /\ forall msg, decrypt c docCipherText <> Err (panic msg).
Proof.
  destruct docCrypt as [c | err] eqn:Hc; [| vm_compute in Hc; discriminate Hc].
  destruct (base64.DecodeString docCipherText) as [cipherData | err] eqn:Hd;
    [| vm_compute in Hd; discriminate Hd].
  exists c, cipherData. split; [reflexivity |]. split; [reflexivity |].
  assert (len cipherData < 2 ^ 32) as H32.
  { pose proof Hd as Hv. vm_compute in Hv. injection Hv as <-.
    vm_compute. reflexivity. }
  apply (decrypt_in_bounds_below_4GiB 64 c docCipherText cipherData
           (or_intror eq_refl) Hd H32); [| reflexivity].
  change (2 ^ (64 - 1)) with 9223372036854775808.
  change (2 ^ 32) with 4294967296 in H32. lia.
Defined.

(** ** C5: the retry of [VerifyURL] *)

(** [QueryUnescape] changes nothing in a text with no ['%'] and no ['+'];
    what query parsing hands over is such a text whenever the raw value
    was Base64. *)
Lemma unescape_fixed (s : list byte) :
  forallb (fun ch => negb (byte_eqb ch "%"%byte) && negb (byte_eqb ch "+"%byte)) s = true ->
  url.unescape s = Ok s.
Proof.
  induction s as [| ch s IH]; [reflexivity |].
  cbn [forallb]. intros H. apply andb_prop in H as [Hc Hs].
  apply andb_prop in Hc as [Hp Hq].
  apply negb_true_iff in Hp, Hq.
  cbn [url.unescape]. rewrite Hp, Hq, (IH Hs). reflexivity.
Qed.

(** On such a text the retry repeats the first signature check: the
    outcome of [VerifyURL] is decided by the raw value alone. *)
Lemma VerifyURL_without_escapes (c : Crypt) (sig ts nonce echoStr : string) :
  forallb (fun ch => negb (byte_eqb ch "%"%byte) && negb (byte_eqb ch "+"%byte))
          (list_byte_of_string echoStr) = true ->
  VerifyURL c sig ts nonce echoStr
  = if validateSignature c sig ts nonce echoStr
    then plain ← decrypt c echoStr; Ok (string_of_list_byte plain)
    else Err ErrInvalidSignature.
Proof.
  intros H. unfold VerifyURL, url.QueryUnescape.
  rewrite (unescape_fixed _ H). cbn [mbind result_bind].
  rewrite string_of_list_byte_of_string.
  destruct (validateSignature c sig ts nonce echoStr); reflexivity.
Qed.

(** C5 fails on the code.  The echo string is the sample of the WeCom
    documentation, reproduced by [encrypt]; it contains ['+'].  Signed as
    sent and handed over after query decoding (every ['+'] a space),
    [VerifyURL] rejects it with [ErrInvalidSignature]; handed over
    unchanged it verifies. *)
Theorem C5_VerifyURL_rejects_query_decoded_echostr :
  exists c e e',
    NewCrypt "QDG6eK" "jWmYm7qr5nMoAUwZRjGtBxmz3KA1tkAj3ykkR6q2B2C"
             "wx5823bf96d3bd56c7" = Ok c
    /\ encrypt c (list_byte_of_string "0960688932c47ef1")
               (list_byte_of_string docPlainText) = Ok e
    /\ existsb (byte_eqb "+"%byte) (list_byte_of_string e) = true
    /\ url.QueryUnescape e = Ok e'
    /\ VerifyURL c (CalcSignature (token c) "1409659813" "1372623149" e)
                 "1409659813" "1372623149" e = Ok docPlainText
    /\ VerifyURL c (CalcSignature (token c) "1409659813" "1372623149" e)
                 "1409659813" "1372623149" e' = Err ErrInvalidSignature.
Proof.
  do 3 eexists.
  split; [vm_compute; reflexivity |].
  split; [vm_compute; reflexivity |].
  split; [vm_compute; reflexivity |].
  split; [vm_compute; reflexivity |].
  split; vm_compute; reflexivity.
Qed.

(** ** The stream manager *)

Lemma getStream_lookup (m : StreamManager) (streamID : string) :
  streamID <> ""%string -> getStream m streamID = streams m !! streamID.
Proof.
  intros H. unfold getStream.
  destruct (String.eqb_spec streamID "") as [-> | _]; [contradiction | reflexivity].
Qed.

Lemma eqb_nonempty (s : string) : s <> ""%string -> String.eqb s "" = false.
Proof. intros H. destruct (String.eqb_spec s ""); [contradiction | reflexivity]. Qed.

Lemma last_cons_default {A} (x : A) (q : list A) (d d' : A) :
  List.last (x :: q) d = List.last (x :: q) d'.
Proof.
  revert x. induction q as [| y q IH]; intros x; [reflexivity |].
  change (List.last (x :: y :: q) d) with (List.last (y :: q) d).
  change (List.last (x :: y :: q) d') with (List.last (y :: q) d').
  apply IH.
Qed.

Lemma lookup_last {A} (x : A) (q : list A) (d : A) :
  (x :: q) !! (length (x :: q) - 1)%nat = Some (List.last (x :: q) d).
Proof.
  revert x. induction q as [| y q IH]; intros x; [reflexivity |].
  replace (length (x :: y :: q) - 1)%nat with (S (length (y :: q) - 1))
    by (cbn [length]; lia).
  change ((x :: y :: q) !! S (length (y :: q) - 1))
    with ((y :: q) !! (length (y :: q) - 1)%nat).
  apply IH.
Qed.

(** The drain loop ends on the last element received, the final bit
    or-folded over all of them. *)
Lemma drain_spec (q : list Chunk) (latest : Chunk) (finalSeen : bool) :
  drain latest finalSeen q
  = (List.last (latest :: q) latest, finalSeen || existsb IsFinal q).
Proof.
  revert latest finalSeen. induction q as [| x q IH]; intros latest finalSeen.
  - cbn. rewrite orb_false_r. reflexivity.
  - cbn [drain]. rewrite IH. cbn [existsb]. f_equal.
    + change (List.last (latest :: x :: q) latest) with (List.last (x :: q) latest).
      apply last_cons_default.
    + destruct (IsFinal x), finalSeen; reflexivity.
Qed.

(** [getLatestChunk] on a queue that holds something. *)
Lemma getLatestChunk_drains (m : StreamManager) (now : Z) (streamID : string)
    (s : Stream) (first : Chunk) (rest : list Chunk) :
  streamID <> ""%string -> streams m !! streamID = Some s ->
  queue s = first :: rest ->
  let latest := List.last (first :: rest) first in
  let final := existsb IsFinal (first :: rest) in
  let out := if final then setIsFinal latest true else latest in
  getLatestChunk m now streamID
  = (withStream m streamID
       ((if IsFinal out then setFinished now else id)
          (setLastChunk now out (setQueue [] (touch now s)))),
     Some out).
Proof.
  intros Hne Hs Hq. cbv zeta. unfold getLatestChunk.
  rewrite (eqb_nonempty _ Hne), (getStream_lookup _ _ Hne), Hs.
  cbn [queue touch]. rewrite Hq. rewrite drain_spec. cbn [existsb].
  destruct (IsFinal first || existsb IsFinal rest);
    destruct (IsFinal _); reflexivity.
Qed.

Lemma getLatestChunk_times_out (m : StreamManager) (now : Z) (streamID : string)
    (s : Stream) :
  streamID <> ""%string -> streams m !! streamID = Some s -> queue s = [] ->
  getLatestChunk m now streamID
  = (withStream m streamID (touch now s),
     if Finished s then LastChunk s else None).
Proof.
  intros Hne Hs Hq. unfold getLatestChunk.
  rewrite (eqb_nonempty _ Hne), (getStream_lookup _ _ Hne), Hs.
  cbn [queue touch]. rewrite Hq. reflexivity.
Qed.

(** ** The accumulated content *)

Lemma append_empty_r (s : string) : String.append s "" = s.
Proof.
  induction s as [| a s IH]; [reflexivity |].
  change (String.append (String a s) "") with (String a (String.append s "")).
  rewrite IH. reflexivity.
Qed.

Lemma append_associative (a b c : string) :
  String.append (String.append a b) c = String.append a (String.append b c).
Proof.
  induction a as [| x a IH]; [reflexivity |].
  change (String.append (String.append (String x a) b) c)
    with (String x (String.append (String.append a b) c)).
  rewrite IH. reflexivity.
Qed.

Lemma concatContent_cons (c : Chunk) (cs : list Chunk) :
  concatContent (c :: cs) = String.append (Content c) (concatContent cs).
Proof.
  unfold concatContent. destruct cs as [| c' cs]; cbn [map String.concat].
  - symmetry. apply append_empty_r.
  - reflexivity.
Qed.

Lemma accumulate_all (cs : list Chunk) (acc : string) :
  fold_left accumulate cs acc
  = if existsb hasPayload cs then concatContent (afterLastPayload cs)
    else String.append acc (concatContent cs).
Proof.
  revert acc. induction cs as [| c cs IH]; intros acc.
  - cbn. symmetry. apply append_empty_r.
  - cbn [fold_left existsb afterLastPayload]. rewrite IH.
    destruct (existsb hasPayload cs) eqn:Hcs.
    + rewrite orb_true_r. reflexivity.
    + rewrite orb_false_r. unfold accumulate.
      destruct (hasPayload c).
      * reflexivity.
      * rewrite concatContent_cons, append_associative. reflexivity.
Qed.

Lemma publishLocked_spec (h : Heap) (now : Z) (s : Stream) (chunk : Chunk) :
  exists h' full,
    publishLocked h now s chunk = (h', setLastChunk now full s, full)
    /\ Content full = accumulate (lastContent s) chunk
    /\ Payload full = Payload chunk
    /\ IsFinal full = IsFinal chunk.
Proof.
  unfold publishLocked, accumulate, lastContent, hasPayload.
  destruct (Payload chunk) as [p |] eqn:Hp.
  - cbn [setMsgItems setContent MsgItems slen Nat.ltb Nat.leb].
    eexists _, _. split; [reflexivity |]. cbn. auto.
  - destruct (LastChunk s) as [last |]; cbn [from_option].
    + destruct (0 <? slen (MsgItems (setContent chunk _)))%nat.
      * destruct (make h _) as [h1 cloned].
        eexists _, _. split; [reflexivity |]. cbn. auto.
      * eexists _, _. split; [reflexivity |]. cbn. auto.
    + destruct (0 <? slen (MsgItems chunk))%nat.
      * destruct (make h _) as [h1 cloned].
        eexists _, _. split; [reflexivity |]. cbn. auto.
      * eexists _, _. split; [reflexivity |]. cbn. auto.
Qed.

(** [publish] on a registered session. *)
Lemma publish_registered (h : Heap) (m : StreamManager) (now : Z)
    (streamID : string) (s : Stream) (chunk : Chunk) :
  streamID <> ""%string -> streams m !! streamID = Some s ->
  exists h' full,
    Content full = accumulate (lastContent s) chunk
    /\ Payload full = Payload chunk
    /\ IsFinal full = IsFinal chunk
    /\ publish h m now streamID chunk
       = if (length (queue s) <? queueCapacity)%nat
         then PublishReturns h'
                (withStream m streamID
                   ((if IsFinal full then setFinished now else id)
                      (setQueue (queue s ++ [full]) (setLastChunk now full s))))
                true
         else PublishParked h' (withStream m streamID (setLastChunk now full s)).
Proof.
  intros Hne Hs.
  destruct (publishLocked_spec h now s chunk) as (h' & full & Hpl & Hc & Hp & Hf).
  exists h', full. repeat split; try assumption.
  unfold publish. rewrite (getStream_lookup _ _ Hne), Hs, Hpl.
  cbn [queue setLastChunk].
  destruct (length (queue s) <? queueCapacity)%nat; [| reflexivity].
  destruct (IsFinal full); reflexivity.
Qed.

(** ** Blocked senders and the parts of a call *)

Lemma last_default {A} (x : A) (q : list A) (d : A) :
  last (x :: q) = Some (List.last (x :: q) d).
Proof.
  revert x. induction q as [| y q IH]; intros x; [reflexivity |].
  change (last (x :: y :: q)) with (last (y :: q)).
  change (List.last (x :: y :: q) d) with (List.last (y :: q) d).
  apply IH.
Qed.

(** The two parts of [createOrGet], one after the other, are
    [createOrGet]. *)
Lemma createOrGet_parts (m : StreamManager) (now : Z) (random : list byte)
    (msg : Message) :
  createOrGet m now random msg
  = match createOrGetFind m now msg with
    | (m', Some s) => (m', (s, false))
    | (_, None) =>
        let '(m', s) := createOrGetInsert m now random msg in (m', (s, true))
    end.
Proof.
  unfold createOrGet, createOrGetFind, createOrGetInsert.
  destruct (negb (String.eqb (MsgID msg) "")); [| reflexivity].
  destruct (getStreamIDByMsg m (MsgID msg)) as [streamID ok].
  destruct ok; [| reflexivity].
  destruct (getStream m streamID) as [s |]; reflexivity.
Qed.

(** The two parts of [publish], one after the other, are [publish]; when
    it blocks, the snapshot in the sender's hand is the [LastChunk] it
    has just stored. *)
Lemma publishCall_registered (w : World) (now : Z) (streamID : string)
    (s : Stream) (chunk : Chunk) :
  streamID <> ""%string -> streams (manager w) !! streamID = Some s ->
  exists h' full,
    Content full = accumulate (lastContent s) chunk
    /\ Payload full = Payload chunk
    /\ IsFinal full = IsFinal chunk
    /\ publishCall w now streamID chunk
       = if (length (queue s) <? queueCapacity)%nat
         then ({| heap := h';
                  manager :=
                    withStream (manager w) streamID
                      ((if IsFinal full then setFinished now else id)
                         (setQueue (queue s ++ [full]) (setLastChunk now full s)));
                  blocked := blocked w; released := released w |},
               Some true)
         else ({| heap := h';
                  manager := withStream (manager w) streamID (setLastChunk now full s);
                  blocked := blocked w ++ [full]; released := released w |},
               None).
Proof.
  intros Hne Hs.
  destruct (publishLocked_spec (heap w) now s chunk) as (h' & full & Hpl & Hc & Hp & Hf).
  exists h', full. repeat split; try assumption.
  unfold publishCall, publishLock. rewrite (getStream_lookup _ _ Hne), Hs, Hpl.
  unfold publishSend. cbn [manager heap blocked released withStream streams].
  rewrite lookup_insert_eq. cbn [queue setLastChunk].
  destruct (length (queue s) <? queueCapacity)%nat; [| reflexivity].
  unfold withManager, withStream.
  cbn [manager heap blocked released streams msgIndex ttl timeout allocated].
  rewrite insert_insert_eq. destruct (IsFinal full); reflexivity.
Qed.

Lemma publishCall_publish (w : World) (now : Z) (streamID : string) (chunk : Chunk) :
  match publish (heap w) (manager w) now streamID chunk with
  | PublishReturns h' m' ok =>
      publishCall w now streamID chunk
      = ({| heap := h'; manager := m'; blocked := blocked w;
            released := released w |}, Some ok)
  | PublishParked h' m' =>
      exists s' full,
        streams m' !! streamID = Some s' /\ LastChunk s' = Some full
        /\ publishCall w now streamID chunk
           = ({| heap := h'; manager := m'; blocked := blocked w ++ [full];
                 released := released w |}, None)
  end.
Proof.
  destruct (getStream (manager w) streamID) as [s |] eqn:Hget.
  - assert (streamID <> ""%string /\ streams (manager w) !! streamID = Some s)
      as [Hne Hs].
    { unfold getStream in Hget.
      destruct (String.eqb_spec streamID ""); [discriminate Hget |]. auto. }
    destruct (publishLocked_spec (heap w) now s chunk)
      as (h1 & full1 & Hpl & _ & _ & _).
    assert (publishCall w now streamID chunk
            = if (length (queue s) <? queueCapacity)%nat
              then ({| heap := h1;
                       manager :=
                         withStream (manager w) streamID
                           ((if IsFinal full1 then setFinished now else id)
                              (setQueue (queue s ++ [full1])
                                        (setLastChunk now full1 s)));
                       blocked := blocked w; released := released w |},
                    Some true)
              else ({| heap := h1;
                       manager := withStream (manager w) streamID
                                    (setLastChunk now full1 s);
                       blocked := blocked w ++ [full1]; released := released w |},
                    None)) as Hcall1.
    { unfold publishCall, publishLock. rewrite Hget, Hpl.
      unfold publishSend. cbn [manager heap blocked released withStream streams].
      rewrite lookup_insert_eq. cbn [queue setLastChunk].
      destruct (length (queue s) <? queueCapacity)%nat; [| reflexivity].
      unfold withManager, withStream.
      cbn [manager heap blocked released streams msgIndex ttl timeout allocated].
      rewrite insert_insert_eq. destruct (IsFinal full1); reflexivity. }
    unfold publish. rewrite Hget, Hpl. cbn [queue setLastChunk].
    rewrite Hcall1.
    destruct (length (queue s) <? queueCapacity)%nat.
    + destruct (IsFinal full1); reflexivity.
    + exists (setLastChunk now full1 s), full1.
      cbn [withStream streams]. rewrite lookup_insert_eq.
      split; [reflexivity |]. split; reflexivity.
  - unfold publish, publishCall, publishLock. rewrite Hget.
    destruct w; reflexivity.
Qed.

(** [getLatestChunkCall] when there is something to receive and the
    timer has not expired. *)
Lemma getLatestChunkCall_drains (w : World) (now : Z) (streamID : string)
    (s : Stream) (first : Chunk) (rest : list Chunk) :
  streamID <> ""%string -> streams (manager w) !! streamID = Some s ->
  queue s ++ blocked w = first :: rest ->
  let latest := List.last (first :: rest) first in
  let final := existsb IsFinal (first :: rest) in
  let out := if final then setIsFinal latest true else latest in
  getLatestChunkCall w now streamID false
  = ({| heap := heap w;
        manager :=
          withStream (manager w) streamID
            ((if IsFinal out then setFinished now else id)
               (setLastChunk now out (setQueue [] (touch now s))));
        blocked := []; released := released w ++ blocked w |},
     Some out).
Proof.
  intros Hne Hs Hq. cbv zeta.
  unfold getLatestChunkCall, getLatestChunkReceive.
  rewrite (eqb_nonempty _ Hne), (getStream_lookup _ _ Hne), Hs.
  cbn [queue touch]. rewrite Hq. rewrite drain_spec. cbn [existsb].
  unfold getLatestChunkStore.
  cbn [manager heap blocked released withStream streams].
  rewrite lookup_insert_eq.
  unfold withManager, withStream.
  cbn [manager heap blocked released streams msgIndex ttl timeout allocated].
  rewrite insert_insert_eq.
  destruct (IsFinal first || existsb IsFinal rest);
    destruct (IsFinal _); reflexivity.
Qed.

(** [getLatestChunkCall] when the [select] takes the timer case. *)
Lemma getLatestChunkCall_times_out (w : World) (now : Z) (streamID : string)
    (s : Stream) (timerFirst : bool) :
  streamID <> ""%string -> streams (manager w) !! streamID = Some s ->
  timerFirst = true \/ queue s ++ blocked w = [] ->
  getLatestChunkCall w now streamID timerFirst
  = (withManager w (withStream (manager w) streamID (touch now s)),
     if Finished s then LastChunk s else None).
Proof.
  intros Hne Hs Hcase.
  unfold getLatestChunkCall, getLatestChunkReceive.
  rewrite (eqb_nonempty _ Hne), (getStream_lookup _ _ Hne), Hs.
  cbn [queue touch].
  assert ((if timerFirst then [] else queue s ++ blocked w) = []) as ->.
  { destruct Hcase as [-> | Hq]; [reflexivity |].
    destruct timerFirst; [reflexivity | exact Hq]. }
  unfold getLatestChunkStore.
  unfold withManager at 1. cbn [manager withStream streams].
  rewrite lookup_insert_eq.
  unfold withManager, withStream.
  cbn [manager heap blocked released streams msgIndex ttl timeout allocated].
  rewrite insert_insert_eq. reflexivity.
Qed.

(** With nobody blocked and the timer not expired, the two parts of
    [getLatestChunk], one after the other, are [getLatestChunk]. *)
Lemma getLatestChunkCall_alone (w : World) (now : Z) (streamID : string) :
  blocked w = [] ->
  getLatestChunkCall w now streamID false
  = (withManager w (getLatestChunk (manager w) now streamID).1,
     (getLatestChunk (manager w) now streamID).2).
Proof.
  intros Hb.
  destruct (String.eqb_spec streamID "") as [-> | Hne].
  { unfold getLatestChunkCall, getLatestChunkReceive, getLatestChunk.
    cbn. destruct w; reflexivity. }
  destruct (streams (manager w) !! streamID) as [s |] eqn:Hs.
  - destruct (queue s) as [| first rest] eqn:Hq.
    + rewrite (getLatestChunkCall_times_out w now streamID s false Hne Hs)
        by (right; rewrite Hq, Hb; reflexivity).
      rewrite (getLatestChunk_times_out _ now streamID s Hne Hs Hq). reflexivity.
    + rewrite (getLatestChunkCall_drains w now streamID s first rest Hne Hs)
        by (rewrite Hq, Hb, app_nil_r; reflexivity).
      rewrite (getLatestChunk_drains _ now streamID s first rest Hne Hs Hq).
      cbv zeta. cbn [fst snd]. unfold withManager. rewrite Hb, app_nil_r.
      reflexivity.
  - unfold getLatestChunkCall, getLatestChunkReceive, getLatestChunk.
    rewrite (eqb_nonempty _ Hne), (getStream_lookup _ _ Hne), Hs.
    destruct w; reflexivity.
Qed.

(** A run that completes is the same sequence of calls with nobody ever
    blocked. *)
Lemma run_performAll (tr : list event) (h : Heap) (m : StreamManager)
    (streamID : string) (h' : Heap) (m' : StreamManager) (rel : list Chunk) :
  run h m streamID tr = Some (h', m') ->
  performAll streamID (mkWorld h m [] rel) (map opOfEvent tr)
  = mkWorld h' m' [] rel.
Proof.
  revert h m. induction tr as [| e tr IH]; intros h m Hrun.
  - injection Hrun as <- <-. reflexivity.
  - destruct e as [now chunk | now]; cbn [run] in Hrun;
      cbn [map opOfEvent]; unfold performAll; cbn [fold_left perform].
    + pose proof (publishCall_publish (mkWorld h m [] rel) now streamID chunk) as Hp.
      cbn [heap manager blocked released] in Hp.
      destruct (publish h m now streamID chunk) as [h1 m1 ok | h1 m1];
        [| discriminate Hrun].
      rewrite Hp. cbn [fst]. apply IH, Hrun.
    + rewrite (getLatestChunkCall_alone (mkWorld h m [] rel) now streamID eq_refl).
      cbn [fst manager]. unfold withManager. cbn [heap manager blocked released].
      apply IH, Hrun.
Qed.

(** What every call preserves: [LastChunk] and the newest snapshot at the
    queue, queued or in the hand of a blocked sender, carry the
    accumulated content; senders are blocked only on a full queue. *)
Lemma perform_carries (ops : list op) (w : World) (streamID : string)
    (s : Stream) (acc : string) :
  streamID <> ""%string -> streams (manager w) !! streamID = Some s ->
  lastContent s = acc ->
  (forall c, last (queue s ++ blocked w) = Some c -> Content c = acc) ->
  (blocked w = [] \/ (queueCapacity <= length (queue s))%nat) ->
  exists s',
    streams (manager (performAll streamID w ops)) !! streamID = Some s'
    /\ lastContent s' = fold_left accumulate (opChunks ops) acc.
Proof.
  intros Hne. revert w s acc.
  induction ops as [| o ops IH]; intros w s acc Hs Hlast Hq Hfull.
  - exists s. split; [exact Hs | exact Hlast].
  - unfold performAll. cbn [fold_left].
    change (fold_left (perform streamID) ops (perform streamID w o))
      with (performAll streamID (perform streamID w o) ops).
    destruct o as [now chunk | now timerFirst | now i];
      cbn [perform opChunks fold_left].
    + destruct (publishCall_registered w now streamID s chunk Hne Hs)
        as (h1 & full & Hc & _ & _ & Hcall).
      rewrite Hcall. rewrite Hlast in Hc.
      destruct (Nat.ltb_spec (length (queue s)) queueCapacity) as [Hroom | Hnoroom];
        cbn [fst].
      * destruct Hfull as [Hb | ?]; [| lia].
        eapply IH.
        -- cbn [manager withStream streams]. apply lookup_insert_eq.
        -- destruct (IsFinal full); exact Hc.
        -- cbn [blocked]. rewrite Hb, app_nil_r. intros c.
           assert (queue ((if IsFinal full then setFinished now else id)
                            (setQueue (queue s ++ [full]) (setLastChunk now full s)))
                   = queue s ++ [full]) as -> by (destruct (IsFinal full); reflexivity).
           rewrite last_snoc. intros [= <-]. exact Hc.
        -- left. exact Hb.
      * eapply IH.
        -- cbn [manager withStream streams]. apply lookup_insert_eq.
        -- exact Hc.
        -- cbn [blocked queue setLastChunk]. intros c.
           rewrite app_assoc, last_snoc. intros [= <-]. exact Hc.
        -- right. cbn [queue setLastChunk]. exact Hnoroom.
    + destruct (if timerFirst then [] else queue s ++ blocked w)
        as [| first rest] eqn:Hsel.
      * rewrite (getLatestChunkCall_times_out w now streamID s timerFirst Hne Hs)
          by (destruct timerFirst; [left; reflexivity | right; exact Hsel]).
        cbn [fst]. eapply IH.
        -- cbn [withManager manager withStream streams]. apply lookup_insert_eq.
        -- exact Hlast.
        -- exact Hq.
        -- exact Hfull.
      * destruct timerFirst; [discriminate Hsel |].
        rewrite (getLatestChunkCall_drains w now streamID s first rest Hne Hs Hsel).
        cbv zeta. cbn [fst].
        assert (Content (List.last (first :: rest) first) = acc) as Hacc.
        { apply Hq. rewrite Hsel. apply last_default. }
        eapply IH.
        -- cbn [manager withStream streams]. apply lookup_insert_eq.
        -- destruct (existsb IsFinal (first :: rest));
             destruct (IsFinal _); exact Hacc.
        -- cbn [blocked]. rewrite app_nil_r. intros c.
           assert (forall out,
                     queue ((if IsFinal out then setFinished now else id)
                              (setLastChunk now out (setQueue [] (touch now s)))) = [])
             as -> by (intros out; destruct (IsFinal out); reflexivity).
           discriminate.
        -- left. reflexivity.
    + unfold publishResume.
      destruct (released w !! i) as [full |]; [| eapply IH; eassumption].
      rewrite Hs. destruct (IsFinal full).
      * eapply IH.
        -- cbn [manager withStream streams]. apply lookup_insert_eq.
        -- exact Hlast.
        -- exact Hq.
        -- exact Hfull.
      * eapply IH; cbn [manager blocked]; eassumption.
Qed.

(** A poll that overlaps a publish loses its delta: the poll receives,
    the publish stores its snapshot as [LastChunk] and sends it, and the
    poll then stores what it received over it.  The next publish appends
    to the older content. *)
Lemma poll_overlapping_publish_loses_delta (w : World) (t1 t2 t3 t4 : Z)
    (streamID : string) (s : Stream) (first : Chunk) (rest : list Chunk)
    (b c : Chunk) :
  streamID <> ""%string -> streams (manager w) !! streamID = Some s ->
  queue s = first :: rest -> blocked w = [] ->
  Content (List.last (first :: rest) first) = lastContent s ->
  Payload b = None -> Payload c = None ->
  exists w1 latest w2 r2 w3 w4 r4 s4,
    getLatestChunkReceive w t1 streamID false = (w1, Some (Received latest))
    /\ publishCall w1 t2 streamID b = (w2, r2)
    /\ getLatestChunkStore w2 t3 streamID (Received latest) = (w3, Some latest)
    /\ publishCall w3 t4 streamID c = (w4, r4)
    /\ streams (manager w4) !! streamID = Some s4
    /\ lastContent s4 = String.append (lastContent s) (Content c).
Proof.
  intros Hne Hs Hq Hb Hcarry Hpb Hpc.
  unfold getLatestChunkReceive.
  rewrite (eqb_nonempty _ Hne), (getStream_lookup _ _ Hne), Hs.
  cbn [queue touch]. rewrite Hq, Hb, app_nil_r. rewrite drain_spec.
  set (latest := if IsFinal first || existsb IsFinal rest
                 then setIsFinal (List.last (first :: rest) first) true
                 else List.last (first :: rest) first).
  assert (Content latest = lastContent s) as Hlatest.
  { subst latest. destruct (IsFinal first || existsb IsFinal rest); exact Hcarry. }
  set (w1 := {| heap := heap w;
                manager := withStream (manager w) streamID
                             (setQueue [] (touch t1 s));
                blocked := []; released := released w ++ [] |}).
  destruct (publishCall w1 t2 streamID b) as [w2 r2] eqn:Hp2.
  assert (exists s2, streams (manager w2) !! streamID = Some s2) as [s2 Hs2].
  { destruct (publishCall_registered w1 t2 streamID (setQueue [] (touch t1 s)) b Hne)
      as (h' & full & _ & _ & _ & Hcall).
    { subst w1. cbn [manager withStream streams]. apply lookup_insert_eq. }
    rewrite Hcall in Hp2.
    destruct (length (queue (setQueue [] (touch t1 s))) <? queueCapacity)%nat;
      injection Hp2 as <- _; eexists;
      cbn [manager withStream streams]; apply lookup_insert_eq. }
  set (s3 := (if IsFinal latest then setFinished t3 else id)
               (setLastChunk t3 latest s2)).
  set (w3 := withManager w2 (withStream (manager w2) streamID s3)).
  assert (getLatestChunkStore w2 t3 streamID (Received latest) = (w3, Some latest))
    as Hstore.
  { unfold getLatestChunkStore. rewrite Hs2. subst w3 s3.
    destruct (IsFinal latest); reflexivity. }
  assert (streams (manager w3) !! streamID = Some s3) as Hs3.
  { subst w3. cbn [withManager manager withStream streams]. apply lookup_insert_eq. }
  assert (lastContent s3 = lastContent s) as Hl3.
  { subst s3. unfold lastContent. destruct (IsFinal latest); exact Hlatest. }
  destruct (publishCall_registered w3 t4 streamID s3 c Hne Hs3)
    as (h4 & full4 & Hc4 & _ & _ & Hcall4).
  unfold accumulate, hasPayload in Hc4. rewrite Hpc, Hl3 in Hc4.
  exists w1, latest, w2, r2, w3. rewrite Hcall4.
  destruct (length (queue s3) <? queueCapacity)%nat; eexists _, _, _;
    (split; [reflexivity |]); (split; [exact Hp2 |]);
    (split; [exact Hstore |]); (split; [reflexivity |]);
    (split; [cbn [manager withStream streams]; apply lookup_insert_eq |]).
  - unfold lastContent. destruct (IsFinal full4); exact Hc4.
  - exact Hc4.
Qed.

(** Two deliveries of one message that overlap both open a session: each
    looks up before the other inserts, finds nothing, and inserts.  The
    table then holds two sessions for the one [msgid], and the index
    leads to the second. *)
Lemma deliveries_overlapping_both_create (m : StreamManager) (now1 now2 : Z)
    (random1 random2 : list byte) (msg : Message) :
  MsgID msg <> ""%string -> msgIndex m !! MsgID msg = None ->
  generateStreamID random1 now1 <> generateStreamID random2 now2 ->
  createOrGetFind m now1 msg = (m, None)
  /\ createOrGetFind m now2 msg = (m, None)
  /\ exists m1 s1 m2 s2,
       createOrGetInsert m now1 random1 msg = (m1, s1)
       /\ createOrGetInsert m1 now2 random2 msg = (m2, s2)
       /\ streams m2 !! StreamID s1 = Some s1
       /\ streams m2 !! StreamID s2 = Some s2
       /\ StreamID s1 <> StreamID s2
       /\ StreamMsgID s1 = MsgID msg /\ StreamMsgID s2 = MsgID msg
       /\ msgIndex m2 !! MsgID msg = Some (StreamID s2).
Proof.
  intros Hne Hidx Hids.
  assert (forall now, createOrGetFind m now msg = (m, None)) as Hfind.
  { intros now. unfold createOrGetFind, getStreamIDByMsg.
    rewrite (eqb_nonempty _ Hne), Hidx. reflexivity. }
  split; [apply Hfind |]. split; [apply Hfind |].
  unfold createOrGetInsert. rewrite (eqb_nonempty _ Hne). cbn [negb].
  eexists _, _, _, _. split; [reflexivity |]. split; [reflexivity |].
  cbn [streams msgIndex StreamID StreamMsgID allocated].
  rewrite lookup_insert_ne by (intros E; apply Hids; symmetry; exact E).
  rewrite !lookup_insert_eq. repeat split; try reflexivity. exact Hids.
Qed.

Lemma poll_overlapping_publish_loses_delta_witness :
  exists w1 latest w2 r2 w3 w4 r4 s4,
    let w := performAll sampleStreamID sampleWorld [OpPublish 1 (textChunk "a" false)] in
    getLatestChunkReceive w 2 sampleStreamID false = (w1, Some (Received latest))
    /\ publishCall w1 3 sampleStreamID (textChunk "b" false) = (w2, r2)
    /\ getLatestChunkStore w2 4 sampleStreamID (Received latest) = (w3, Some latest)
    /\ publishCall w3 5 sampleStreamID (textChunk "c" false) = (w4, r4)
    /\ streams (manager w4) !! sampleStreamID = Some s4
    /\ lastContent s4 = "ac"%string.
Proof.
  destruct (poll_overlapping_publish_loses_delta
              (performAll sampleStreamID sampleWorld [OpPublish 1 (textChunk "a" false)])
              2 3 4 5 sampleStreamID
              (mkStream 0%nat sampleStreamID "" "chat-1" "user-1" "" 0 1 false
                        [textChunk "a" false] (Some (textChunk "a" false))
                        anonymousMessage)
              (textChunk "a" false) [] (textChunk "b" false) (textChunk "c" false))
    as (w1 & latest & w2 & r2 & w3 & w4 & r4 & s4 & H1 & H2 & H3 & H4 & H5 & H6).
  - vm_compute. discriminate.
  - vm_compute. reflexivity.
  - reflexivity.
  - reflexivity.
  - reflexivity.
  - reflexivity.
  - reflexivity.
  - exists w1, latest, w2, r2, w3, w4, r4, s4. cbv zeta.
    split; [exact H1 |]. split; [exact H2 |]. split; [exact H3 |].
    split; [exact H4 |]. split; [exact H5 |]. rewrite H6. reflexivity.
Defined.

Lemma deliveries_overlapping_both_create_witness :
  exists m1 s1 m2 s2,
    let m := newStreamManager 60000000000 500000000 in
    createOrGetFind m 0 firstMessage = (m, None)
    /\ createOrGetFind m 1 firstMessage = (m, None)
    /\ createOrGetInsert m 0 sampleRandom firstMessage = (m1, s1)
    /\ createOrGetInsert m1 1 (repeat x00 16) firstMessage = (m2, s2)
    /\ streams m2 !! StreamID s1 = Some s1
    /\ streams m2 !! StreamID s2 = Some s2
    /\ StreamID s1 <> StreamID s2
    /\ StreamMsgID s1 = "msg-a"%string /\ StreamMsgID s2 = "msg-a"%string.
Proof.
  destruct (deliveries_overlapping_both_create
              (newStreamManager 60000000000 500000000) 0 1 sampleRandom
              (repeat x00 16) firstMessage)
    as (F1 & F2 & m1 & s1 & m2 & s2 & H1 & H2 & H3 & H4 & H5 & H6 & H7 & _).
  - vm_compute. discriminate.
  - reflexivity.
  - vm_compute. discriminate.
  - exists m1, s1, m2, s2. cbv zeta. auto 10.
Defined.

(** ** C3: what a poll returns *)

(** C3, as the code has it: a call of [getLatestChunk] whose [select]
    finds the timer not expired, on a queue of [N >= 1] snapshots and
    with no publisher sending during the call, returns the newest of the
    [N] queued snapshots and of those in the hands of the senders blocked
    on the queue, its [IsFinal] set exactly when one of all these had it
    set; it leaves the queue empty and the blocked senders released.
    With no sender blocked that is the [N]th queued snapshot, and the
    call is [getLatestChunk] as run alone. *)
Theorem C3_getLatestChunk_coalesces (w : World) (now : Z)
    (streamID : string) (s : Stream) :
  streamID <> ""%string -> streams (manager w) !! streamID = Some s ->
  (1 <= length (queue s))%nat ->
  exists w' s' newest out,
    getLatestChunkCall w now streamID false = (w', Some out)
    /\ last (queue s ++ blocked w) = Some newest
    /\ Content out = Content newest
    /\ MsgItems out = MsgItems newest
    /\ Payload out = Payload newest
    /\ (IsFinal out = true
        <-> exists c, c ∈ queue s ++ blocked w /\ IsFinal c = true)
    /\ streams (manager w') !! streamID = Some s' /\ queue s' = []
    /\ LastChunk s' = Some out
    /\ blocked w' = [] /\ released w' = released w ++ blocked w
    /\ (blocked w = [] ->
        queue s !! (length (queue s) - 1)%nat = Some newest
        /\ getLatestChunk (manager w) now streamID = (manager w', Some out)).
Proof.
  intros Hne Hs Hlen.
  destruct (queue s ++ blocked w) as [| first rest] eqn:Hq.
  { apply app_eq_nil in Hq as [Hq _]. rewrite Hq in Hlen. cbn in Hlen. lia. }
  pose proof (getLatestChunkCall_drains w now streamID s first rest Hne Hs Hq)
    as Hcall. cbv zeta in Hcall.
  set (final := existsb IsFinal (first :: rest)) in *.
  set (latest := List.last (first :: rest) first) in *.
  set (out := if final then setIsFinal latest true else latest) in *.
  assert (last (first :: rest) = Some latest) as Hnewest by apply last_default.
  assert (In latest (first :: rest)) as Hin.
  { apply list_elem_of_In. apply last_Some_elem_of. exact Hnewest. }
  assert (IsFinal out = final) as Hfinal.
  { subst out. destruct final eqn:Hf; [reflexivity |].
    subst final. destruct (IsFinal latest) eqn:Hl; [| reflexivity].
    rewrite <- Hf. symmetry. apply existsb_exists. exists latest. auto. }
  eexists _, _, latest, out.
  split; [exact Hcall |]. split; [exact Hnewest |].
  split; [subst out; destruct final; reflexivity |].
  split; [subst out; destruct final; reflexivity |].
  split; [subst out; destruct final; reflexivity |].
  split.
  { rewrite Hfinal. subst final. rewrite existsb_exists.
    split; intros (c & Hc & Hf); exists c; split; auto;
      apply list_elem_of_In; exact Hc. }
  cbn [manager blocked released withStream streams]. rewrite lookup_insert_eq.
  split; [reflexivity |].
  split; [destruct (IsFinal out); reflexivity |].
  split; [destruct (IsFinal out); reflexivity |].
  split; [reflexivity |]. split; [reflexivity |].
  intros Hb. rewrite Hb, app_nil_r in Hq. split.
  - rewrite Hq. apply lookup_last.
  - destruct (queue s) as [| f r] eqn:Hqs; [discriminate Hq |].
    injection Hq as -> ->.
    rewrite (getLatestChunk_drains (manager w) now streamID s first rest Hne Hs Hqs).
    reflexivity.
Qed.

Lemma C3_getLatestChunk_coalesces_witness :
  exists s w' out,
    streams helloManager !! sampleStreamID = Some s
    /\ map Content (queue s) = ["Hello"; "Hello!"]%string
    /\ map IsFinal (queue s) = [false; true]
    /\ getLatestChunkCall (mkWorld emptyHeap helloManager [] []) 6 sampleStreamID false
       = (w', Some out)
    /\ getLatestChunk helloManager 6 sampleStreamID = (manager w', Some out)
    /\ Content out = "Hello!"%string
    /\ IsFinal out = true.
Proof.
  destruct (streams helloManager !! sampleStreamID) as [s |] eqn:Hs;
    [| vm_compute in Hs; discriminate Hs].
  assert (queue s = [textChunk "Hello" false; textChunk "Hello!" true]) as Hq.
  { pose proof Hs as H. vm_compute in H. injection H as <-. reflexivity. }
  destruct (C3_getLatestChunk_coalesces (mkWorld emptyHeap helloManager [] []) 6
              sampleStreamID s)
    as (w' & s' & newest & out & Hget & Hnewest & Hc & _ & _ & Hf & _ & _ & _ & _
        & _ & Halone).
  - vm_compute. discriminate.
  - exact Hs.
  - rewrite Hq. cbn [length]. lia.
  - exists s, w', out. split; [reflexivity |].
    rewrite Hq in *. cbn [map Content IsFinal textChunk].
    split; [reflexivity |]. split; [reflexivity |]. split; [exact Hget |].
    split; [apply Halone; reflexivity |].
    cbn in Hnewest. injection Hnewest as <-. split; [exact Hc |].
    apply Hf. exists (textChunk "Hello!" true). split; [| reflexivity].
    apply list_elem_of_In. right. left. reflexivity.
Defined.

(** C3 as stated fails when a sender is blocked on the full queue: the
    queue holds sixteen snapshots, and the call returns the seventeenth,
    the one in the blocked sender's hand, not the sixteenth. *)
Lemma C3_blocked_sender_is_returned :
  exists s nth w' out,
    streams (manager crowdedWorld) !! sampleStreamID = Some s
    /\ length (queue s) = 16%nat
    /\ queue s !! (length (queue s) - 1)%nat = Some nth
    /\ Content nth = "abcdefghijklmnop"%string
    /\ map Content (blocked crowdedWorld) = ["abcdefghijklmnopq"]%string
    /\ getLatestChunkCall crowdedWorld 18 sampleStreamID false = (w', Some out)
    /\ Content out = "abcdefghijklmnopq"%string
    /\ Content out <> Content nth.
Proof.
  do 4 eexists. split; [vm_compute; reflexivity |].
  split; [vm_compute; reflexivity |].
  split; [vm_compute; reflexivity |].
  split; [vm_compute; reflexivity |].
  split; [vm_compute; reflexivity |].
  split; [vm_compute; reflexivity |].
  split; [vm_compute; reflexivity |].
  vm_compute. discriminate.
Qed.

(** ** C2: the cumulative content *)

(** C2, as the code has it: on a session that starts with no [lastChunk],
    an empty queue and nobody blocked, after any sequence of publishes
    and polls in which no call runs between the two parts of another
    (a publish blocked on the full queue stays blocked while others run)
    [lastChunk.content] is the concatenation of the deltas published
    after the last payload-carrying publish; a publish with a payload
    resets the accumulated text to empty.  Whether the sends have gone
    through or block does not matter. *)
Theorem C2_cumulative_content (w : World) (streamID : string) (s : Stream)
    (ops : list op) :
  streamID <> ""%string -> streams (manager w) !! streamID = Some s ->
  LastChunk s = None -> queue s = [] -> blocked w = [] ->
  exists s',
    streams (manager (performAll streamID w ops)) !! streamID = Some s'
    /\ lastContent s' = concatContent (afterLastPayload (opChunks ops))
    /\ (existsb hasPayload (opChunks ops) = false ->
        lastContent s' = concatContent (opChunks ops)).
Proof.
  intros Hne Hs Hl Hq Hb.
  destruct (perform_carries ops w streamID s ""%string Hne Hs) as (s' & Hs' & Hc).
  { unfold lastContent. rewrite Hl. reflexivity. }
  { rewrite Hq, Hb. intros c Hc. discriminate Hc. }
  { left. exact Hb. }
  exists s'. split; [exact Hs' |]. rewrite Hc, accumulate_all.
  destruct (existsb hasPayload (opChunks ops)) eqn:He.
  - split; [reflexivity | discriminate].
  - assert (afterLastPayload (opChunks ops) = opChunks ops) as ->.
    { revert He. generalize (opChunks ops) as cs.
      induction cs as [| c cs IH]; [reflexivity |].
      cbn [existsb afterLastPayload]. intros H. apply orb_false_elim in H as [H1 H2].
      rewrite H2, H1. reflexivity. }
    split; [reflexivity | intros _; reflexivity].
Qed.

Lemma C2_cumulative_content_witness :
  exists s',
    streams (manager (performAll sampleStreamID sampleWorld
                        (seventeenPublishes
                         ++ [OpPoll 18 false; OpResume 19 0;
                             OpPublish 20 (textChunk "r" true)])))
      !! sampleStreamID = Some s'
    /\ blocked crowdedWorld <> []
    /\ lastContent s' = "abcdefghijklmnopqr"%string.
Proof.
  destruct (C2_cumulative_content sampleWorld sampleStreamID
              (mkStream 0%nat sampleStreamID "" "chat-1" "user-1" "" 0 0 false [] None
                        anonymousMessage)
              (seventeenPublishes
               ++ [OpPoll 18 false; OpResume 19 0; OpPublish 20 (textChunk "r" true)]))
    as (s' & Hs' & Hc & _).
  - vm_compute. discriminate.
  - vm_compute. reflexivity.
  - reflexivity.
  - reflexivity.
  - reflexivity.
  - exists s'. split; [exact Hs' |]. split; [vm_compute; discriminate |].
    rewrite Hc. vm_compute. reflexivity.
Defined.

(** C2 as stated fails: a publish that carries a payload is not ignored,
    it empties the accumulated text. *)
Lemma C2_payload_publish_resets_content :
  exists h' m' s',
    run emptyHeap sampleManager sampleStreamID
        [Publish 1 (textChunk "a" false); Publish 2 cardChunk;
         Publish 3 (textChunk "b" false)]
    = Some (h', m')
    /\ streams m' !! sampleStreamID = Some s'
    /\ lastContent s' = "b"%string
    /\ lastContent s'
       <> concatContent (filter (fun c => negb (hasPayload c))
                           [textChunk "a" false; cardChunk; textChunk "b" false]).
Proof.
  do 3 eexists. split; [vm_compute; reflexivity |].
  split; [vm_compute; reflexivity |].
  split; [vm_compute; reflexivity |].
  vm_compute. discriminate.
Qed.

(** ** C4: publishing on a finished session *)


(** What a poll returns from a non-empty queue, without the state. *)
Lemma poll_returns_newest (m : StreamManager) (now : Z) (streamID : string) (s : Stream) :
  streamID <> ""%string -> streams m !! streamID = Some s -> queue s <> [] ->
  exists m' out,
    getLatestChunk m now streamID = (m', Some out)
    /\ (exists d, Content out = Content (List.last (queue s) d)
                  /\ Payload out = Payload (List.last (queue s) d))
    /\ IsFinal out = existsb IsFinal (queue s).
Proof.
  intros Hne Hs Hq.
  destruct (queue s) as [| first rest] eqn:Hqs; [contradiction |].
  rewrite (getLatestChunk_drains m now streamID s first rest Hne Hs Hqs).
  cbv zeta. eexists _, _. split; [reflexivity |]. split.
  - exists first. destruct (existsb IsFinal (first :: rest)); split; reflexivity.
  - destruct (existsb IsFinal (first :: rest)) eqn:He; [reflexivity |].
    destruct (IsFinal (List.last (first :: rest) first)) eqn:Hl; [| reflexivity].
    rewrite <- He. symmetry. apply existsb_exists.
    exists (List.last (first :: rest) first). split; [| exact Hl].
    apply list_elem_of_In. eapply list_elem_of_lookup_2. apply lookup_last.
Qed.




(** ** First packets without a [msgid] *)


(** ** C7: [BuildStreamReplyWithMsgItems] *)

Lemma elems_length (h : Heap) (s : Slice) :
  validSlice h s = true -> length (elems h s) = slen s.
Proof.
  destruct s as [| a off n]; [reflexivity |]. cbn [validSlice elems slen].
  destruct (arrays h !! a) as [arr |]; [| discriminate].
  intros H. apply Nat.leb_le in H. cbn [default from_option id].
  rewrite length_take, length_drop. lia.
Qed.

(** The clone made by [make] and [copy] shows the elements of the
    original, in a fresh array. *)
Lemma clone_elems (h : Heap) (items : Slice) :
  validSlice h items = true ->
  let '(h1, cloned) := make h (slen items) in
  let h2 := copy h1 cloned items in
  cloned = SliceOf (length (arrays h)) 0 (slen items)
  /\ texts h2 = texts h /\ images h2 = images h
  /\ arrays h2 = arrays h ++ [elems h items].
Proof.
  intros Hv. cbn [make copy writeArray texts images arrays].
  split; [reflexivity |]. split; [reflexivity |]. split; [reflexivity |].
  rewrite Nat.min_id.
  rewrite list_lookup_middle by reflexivity. cbn [default from_option id].
  cbn [take Nat.add]. rewrite drop_replicate, Nat.sub_diag. cbn [replicate].
  rewrite app_nil_r.
  assert (elems {| texts := texts h; images := images h;
                   arrays := arrays h ++ [replicate (slen items) zeroItem] |} items
          = elems h items) as ->.
  { destruct items as [| a off n]; [reflexivity |]. cbn [elems arrays].
    cbn [validSlice] in Hv.
    destruct (arrays h !! a) as [arr |] eqn:Ha; [| discriminate].
    rewrite <- Ha.
    rewrite lookup_app_l by (eapply lookup_lt_Some; exact Ha).
    reflexivity. }
  rewrite take_0, app_nil_l.
  rewrite (firstn_all2 (elems h items)) by (rewrite elems_length by assumption; lia).
  rewrite <- (Nat.add_0_r (length (arrays h))) at 1.
  rewrite insert_app_r. reflexivity.
Qed.

Lemma assoc_app_l (key : string) (a b : list (string * json)) (v : json) :
  assoc key a = Some v -> assoc key (a ++ b) = Some v.
Proof.
  induction a as [| [k x] a IH]; [discriminate |].
  cbn [assoc app]. destruct (String.eqb k key); auto.
Qed.

(** C7, as the code has it: the items are attached only when [finish]
    is true and there is at least one (otherwise the encoded reply has no
    [msg_item] member and nothing is allocated); they are attached as
    they are at the call, in a fresh array, so that a later assignment to
    an element of the caller's slice does not show in the encoded reply.
    The copy is of the elements: the payloads behind an element's
    pointers are not copied. *)
Theorem C7_BuildStreamReplyWithMsgItems_copies_elements
    (h : Heap) (streamID content : string) (finish : bool) (items : Slice) :
  validSlice h items = true ->
  exists h' reply,
    BuildStreamReplyWithMsgItems h streamID content finish items = (h', reply)
    /\ ID (StreamBody reply) = streamID
    /\ Finish (StreamBody reply) = finish
    /\ ReplyContent (StreamBody reply) = content
    /\ (finish && (0 <? slen items)%nat = false ->
        h' = h /\ reply = BuildStreamReply streamID content finish
        /\ msg_item_of (StreamReply_json h' reply) = None)
    /\ (finish && (0 <? slen items)%nat = true ->
        msg_item_of (StreamReply_json h' reply)
        = Some (JArray (map (MixedItem_json h) (elems h items))))
    /\ (forall i v h'',
          storeItem h' items i v = Ok h'' ->
          StreamReply_json h'' reply = StreamReply_json h' reply).
Proof.
  intros Hv. unfold BuildStreamReplyWithMsgItems.
  destruct (finish && (0 <? slen items)%nat) eqn:Hgate.
  - pose proof (clone_elems h items Hv) as Hclone.
    destruct (make h (slen items)) as [h1 cloned].
    destruct Hclone as (-> & Ht & Hi & Ha).
    set (h2 := copy h1 (SliceOf (length (arrays h)) 0 (slen items)) items) in *.
    apply andb_prop in Hgate as [-> Hpos].
    assert (elems h2 (SliceOf (length (arrays h)) 0 (slen items)) = elems h items) as He.
    { cbn [elems]. rewrite Ha. rewrite list_lookup_middle by reflexivity.
      cbn [default from_option id]. rewrite drop_0.
      apply firstn_all2. rewrite elems_length by assumption. lia. }
    eexists h2, _. split; [reflexivity |].
    split; [reflexivity |]. split; [reflexivity |]. split; [reflexivity |].
    split; [discriminate |]. split.
    + intros _. unfold msg_item_of, StreamReply_json, StreamReplyBody_json.
      cbn [member assoc String.eqb Ascii.eqb Bool.eqb setMsgItem StreamBody MsgItem slen].
      cbn [BuildStreamReply StreamBody ID Finish ReplyContent Feedback].
      rewrite Hpos. cbn [app assoc String.eqb Ascii.eqb Bool.eqb].
      rewrite He. do 2 f_equal. apply map_ext. intros it.
      unfold MixedItem_json. rewrite Ht, Hi. reflexivity.
    + intros i v h'' Hstore.
      assert (texts h'' = texts h2 /\ images h'' = images h2
              /\ elems h'' (SliceOf (length (arrays h)) 0 (slen items))
                 = elems h2 (SliceOf (length (arrays h)) 0 (slen items)))
        as (Ht' & Hi' & He').
      { destruct items as [| a off n]; [discriminate Hstore |].
        cbn [storeItem] in Hstore. destruct (i <? n)%nat; [| discriminate Hstore].
        injection Hstore as <-. cbn [writeArray texts images elems arrays].
        split; [reflexivity |]. split; [reflexivity |].
        cbn [validSlice] in Hv.
        destruct (arrays h !! a) as [arr |] eqn:Harr; [| discriminate].
        apply lookup_lt_Some in Harr.
        rewrite list_lookup_insert_ne by lia. reflexivity. }
      unfold StreamReply_json, StreamReplyBody_json.
      cbn [setMsgItem StreamBody MsgItem ID Finish ReplyContent Feedback
           BuildStreamReply ReplyMsgType].
      rewrite He'.
      rewrite (map_ext (MixedItem_json h'') (MixedItem_json h2));
        [reflexivity |].
      intros it. unfold MixedItem_json. rewrite Ht', Hi'. reflexivity.
  - eexists h, _. split; [reflexivity |].
    split; [reflexivity |]. split; [reflexivity |]. split; [reflexivity |].
    split; [| split; [discriminate |]].
    + intros _. split; [reflexivity |]. split; [reflexivity |]. reflexivity.
    + intros i v h'' Hstore.
      destruct items as [| a off n]; [discriminate Hstore |].
      cbn [storeItem] in Hstore. destruct (i <? n)%nat; [| discriminate Hstore].
      injection Hstore as <-. reflexivity.
Qed.

Lemma C7_BuildStreamReplyWithMsgItems_copies_elements_witness :
  exists h' reply h'',
    BuildStreamReplyWithMsgItems sampleHeap "stream-id" "content" true sampleItems
    = (h', reply)
    /\ storeItem h' sampleItems 0 (mkItem "text" (Some 0%nat) None) = Ok h''
    /\ elems h'' sampleItems = [mkItem "text" (Some 0%nat) None]
    /\ render (StreamReply_json h'' reply) = render (StreamReply_json h' reply)
    /\ msg_item_of (StreamReply_json h'' reply)
       = Some (JArray [JObject [("msgtype", JString "image");
                                ("image", JObject [("base64", JString "BASE64");
                                                   ("md5", JString "MD5")])]]).
Proof.
  destruct (C7_BuildStreamReplyWithMsgItems_copies_elements
              sampleHeap "stream-id" "content" true sampleItems eq_refl)
    as (h' & reply & Hb & _ & _ & _ & _ & Hitems & Hstore).
  destruct (storeItem h' sampleItems 0 (mkItem "text" (Some 0%nat) None))
    as [h'' | e] eqn:Hs;
    [| vm_compute in Hb; injection Hb as <- <-; vm_compute in Hs; discriminate Hs].
  exists h', reply, h''. split; [exact Hb |]. split; [exact Hs |].
  split.
  { vm_compute in Hb. injection Hb as <- <-. vm_compute in Hs.
    injection Hs as <-. reflexivity. }
  rewrite (Hstore 0%nat _ h'' Hs). split; [reflexivity |].
  rewrite (Hitems eq_refl). reflexivity.
Defined.

(** C7 as stated fails: the copy is not deep.  After the reply is built,
    a write through the image pointer of the caller's item changes what
    the reply encodes to. *)
Lemma C7_nested_payload_is_shared :
  exists h' reply,
    BuildStreamReplyWithMsgItems sampleHeap "stream-id" "content" true sampleItems
    = (h', reply)
    /\ (ItemImage <$> elems h' sampleItems !! 0%nat) = Some (Some 0%nat)
    /\ msg_item_of (StreamReply_json h' reply)
       = Some (JArray [JObject [("msgtype", JString "image");
                                ("image", JObject [("base64", JString "BASE64");
                                                   ("md5", JString "MD5")])]])
    /\ msg_item_of (StreamReply_json (storeImage h' 0%nat (mkImage "" "CHANGED" "MD5")) reply)
       = Some (JArray [JObject [("msgtype", JString "image");
                                ("image", JObject [("base64", JString "CHANGED");
                                                   ("md5", JString "MD5")])]])
    /\ StreamReply_json (storeImage h' 0%nat (mkImage "" "CHANGED" "MD5")) reply
       <> StreamReply_json h' reply.
Proof.
  do 2 eexists. split; [vm_compute; reflexivity |].
  split; [reflexivity |]. split; [reflexivity |]. split; [reflexivity |].
  vm_compute. discriminate.
Qed.

(** ** C6: the reply of a refresh *)

(** The reply built from a final chunk with items. *)
Lemma build_with_items (h : Heap) (streamID content : string) (items : Slice) :
  validSlice h items = true -> (0 <? slen items)%nat = true ->
  exists h' reply,
    BuildStreamReplyWithMsgItems h streamID content true items = (h', reply)
    /\ ID (StreamBody reply) = streamID
    /\ Finish (StreamBody reply) = true
    /\ ReplyContent (StreamBody reply) = content
    /\ msg_item_of (StreamReply_json h' reply)
       = Some (JArray (map (MixedItem_json h) (elems h items))).
Proof.
  intros Hv Hpos. unfold BuildStreamReplyWithMsgItems. rewrite Hpos. cbn [andb].
  pose proof (clone_elems h items Hv) as Hclone.
  destruct (make h (slen items)) as [h1 cloned].
  destruct Hclone as (-> & Ht & Hi & Ha).
  set (h2 := copy h1 (SliceOf (length (arrays h)) 0 (slen items)) items) in *.
  eexists h2, _. split; [reflexivity |].
  split; [reflexivity |]. split; [reflexivity |]. split; [reflexivity |].
  unfold msg_item_of, StreamReply_json, StreamReplyBody_json.
  cbn [member assoc String.eqb Ascii.eqb Bool.eqb setMsgItem StreamBody MsgItem slen].
  cbn [BuildStreamReply StreamBody ID Finish ReplyContent Feedback].
  rewrite Hpos. cbn [app assoc String.eqb Ascii.eqb Bool.eqb].
  cbn [elems]. rewrite Ha. rewrite list_lookup_middle by reflexivity.
  cbn [default from_option id]. rewrite drop_0.
  rewrite firstn_all2 by (rewrite elems_length by assumption; lia).
  do 2 f_equal. apply map_ext. intros it.
  unfold MixedItem_json. rewrite Ht, Hi. reflexivity.
Qed.


(** C6: [refresh] answers an empty stream id with the terminator, an
    absent chunk with the keep-alive, and a chunk by its shape: a payload
    is encrypted in place of a stream reply; a final chunk with items
    gives a stream reply with [msg_item]; any other chunk gives the bare
    stream reply with the cumulative content.  [markFinished] runs
    whenever the chunk is final. *)
Theorem C6_refresh_reply_shape
    (jsonMarshal : Heap -> any -> result (list byte))
    (c : Crypt) (h : Heap) (m : StreamManager) (now : Z) (random : list byte)
    (msg : Message) (timestamp nonce : string) :
  let streamID := match MsgStream msg with
                  | Some sp => StreamPayloadID sp
                  | None => ""%string
                  end in
  let respond h v := EncryptResponse jsonMarshal c h random v timestamp nonce in
  let stream id finish content :=
    ReplyValue (mkReply "stream" (mkBody id finish content NilSlice None)) in
  (streamID = ""%string ->
   refresh jsonMarshal c h m now random msg timestamp nonce
   = (h, m, respond h (stream ""%string true ""%string)))
  /\ (streamID <> ""%string ->
      forall m1, getLatestChunk m now streamID = (m1, None) ->
      refresh jsonMarshal c h m now random msg timestamp nonce
      = (h, m1, respond h (stream streamID false ""%string)))
  /\ (streamID <> ""%string ->
      forall m1 chunk, getLatestChunk m now streamID = (m1, Some chunk) ->
      let m2 := if IsFinal chunk then markFinished m1 now streamID else m1 in
      match Payload chunk with
      | Some payload =>
          refresh jsonMarshal c h m now random msg timestamp nonce
          = (h, m2, respond h payload)
      | None =>
          if IsFinal chunk && (0 <? slen (MsgItems chunk))%nat then
            exists h' reply,
              refresh jsonMarshal c h m now random msg timestamp nonce
              = (h', m2, respond h' (ReplyValue reply))
              /\ ID (StreamBody reply) = streamID
              /\ Finish (StreamBody reply) = true
              /\ ReplyContent (StreamBody reply) = Content chunk
              /\ (validSlice h (MsgItems chunk) = true ->
                  msg_item_of (StreamReply_json h' reply)
                  = Some (JArray (map (MixedItem_json h)
                                      (elems h (MsgItems chunk)))))
          else
            refresh jsonMarshal c h m now random msg timestamp nonce
            = (h, m2, respond h (stream streamID (IsFinal chunk) (Content chunk)))
            /\ msg_item_of (StreamReply_json h
                 (mkReply "stream"
                    (mkBody streamID (IsFinal chunk) (Content chunk) NilSlice None)))
               = None
      end).
Proof.
  cbv zeta. unfold refresh.
  set (streamID := match MsgStream msg with
                   | Some sp => StreamPayloadID sp
                   | None => ""%string
                   end).
  split; [| split].
  - intros ->. reflexivity.
  - intros Hne m1 Hget. rewrite (eqb_nonempty _ Hne), Hget. reflexivity.
  - intros Hne m1 chunk Hget. rewrite (eqb_nonempty _ Hne), Hget.
    destruct (Payload chunk) as [payload |]; [reflexivity |].
    destruct (IsFinal chunk && (0 <? slen (MsgItems chunk))%nat) eqn:Hgate.
    + destruct (BuildStreamReplyWithMsgItems h streamID (Content chunk) true
                  (MsgItems chunk)) as [h' reply] eqn:Hb.
      exists h', reply. split; [reflexivity |].
      apply andb_prop in Hgate as [_ Hpos].
      assert (validSlice h (MsgItems chunk) = true ->
              ID (StreamBody reply) = streamID
              /\ Finish (StreamBody reply) = true
              /\ ReplyContent (StreamBody reply) = Content chunk
              /\ msg_item_of (StreamReply_json h' reply)
                 = Some (JArray (map (MixedItem_json h) (elems h (MsgItems chunk)))))
        as Hvalid.
      { intros Hv.
        destruct (build_with_items h streamID (Content chunk) (MsgItems chunk) Hv Hpos)
          as (h0 & r0 & Hb0 & ? & ? & ? & ?).
        rewrite Hb in Hb0. injection Hb0 as <- <-. auto. }
      unfold BuildStreamReplyWithMsgItems in Hb. rewrite Hpos in Hb.
      cbn [andb] in Hb. destruct (make h _) as [h1 cloned].
      injection Hb as <- <-.
      split; [reflexivity |]. split; [reflexivity |]. split; [reflexivity |].
      intros Hv. apply Hvalid. exact Hv.
    + split; reflexivity.
Qed.

Lemma C6_refresh_reply_shape_witness :
  exists c m1 chunk resp,
    NewCrypt "QDG6eK" "jWmYm7qr5nMoAUwZRjGtBxmz3KA1tkAj3ykkR6q2B2C"
             "wx5823bf96d3bd56c7" = Ok c
    /\ getLatestChunk helloManager 6 sampleStreamID = (m1, Some chunk)
    /\ chunk = textChunk "Hello!" true
    /\ refresh sampleMarshal c emptyHeap helloManager 6 sampleRandom
               refreshMessage "1409659813" "nonce"
       = (emptyHeap, markFinished m1 6 sampleStreamID, Ok resp)
    /\ decrypt c (RespEncrypt resp)
       = Ok (list_byte_of_string
               (render (StreamReply_json emptyHeap
                          (BuildStreamReply sampleStreamID "Hello!" true)))).
Proof.
  destruct (NewCrypt "QDG6eK" "jWmYm7qr5nMoAUwZRjGtBxmz3KA1tkAj3ykkR6q2B2C"
                     "wx5823bf96d3bd56c7") as [c | err] eqn:Hc;
    [| vm_compute in Hc; discriminate Hc].
  destruct (getLatestChunk helloManager 6 sampleStreamID) as [m1 [chunk |]] eqn:Hget;
    [| vm_compute in Hget; discriminate Hget].
  assert (chunk = textChunk "Hello!" true) as Hchunk.
  { pose proof Hget as H. vm_compute in H. injection H as _ <-. reflexivity. }
  destruct (C6_refresh_reply_shape sampleMarshal c emptyHeap helloManager 6
              sampleRandom refreshMessage "1409659813" "nonce") as (_ & _ & H3).
  assert (sampleStreamID <> ""%string) as Hne by (vm_compute; discriminate).
  specialize (H3 Hne m1 chunk Hget). subst chunk.
  cbn [Payload textChunk IsFinal MsgItems slen Nat.ltb Nat.leb andb Content] in H3.
  destruct H3 as [H3 _].
  change (match MsgStream refreshMessage with
          | Some sp => StreamPayloadID sp
          | None => ""%string
          end) with sampleStreamID in H3.
  destruct (EncryptResponse sampleMarshal c emptyHeap sampleRandom
              (ReplyValue (mkReply "stream"
                 (mkBody sampleStreamID true "Hello!" NilSlice None)))
              "1409659813" "nonce") as [resp | e] eqn:Hresp;
    [| vm_compute in Hc; injection Hc as <-; vm_compute in Hresp; discriminate Hresp].
  exists c, m1, (textChunk "Hello!" true), resp.
  split; [reflexivity |]. split; [reflexivity |]. split; [reflexivity |].
  split; [first [exact H3 | rewrite H3, Hresp; reflexivity] |].
  vm_compute in Hc. injection Hc as <-.
  vm_compute in Hresp. injection Hresp as <-.
  vm_compute. reflexivity.
Defined.

(** ** PKCS#7 at any block size a byte can express *)

Lemma padLen_range_at (n blockSize : Z) :
  1 <= blockSize -> 1 <= blockSize - n mod blockSize <= blockSize.
Proof. intros H. pose proof (Z.mod_pos_bound n blockSize ltac:(lia)). lia. Qed.

Lemma pkcs7Pad_unfold (data : list byte) (blockSize : Z) :
  pkcs7Pad data blockSize
  = data ++ repeat (Z_to_byte (blockSize - len data mod blockSize))
                   (Z.to_nat (blockSize - len data mod blockSize)).
Proof. reflexivity. Qed.

Lemma pkcs7Unpad_pkcs7Pad_at (data : list byte) (blockSize : Z) :
  1 <= blockSize <= 255 ->
  pkcs7Unpad (pkcs7Pad data blockSize) blockSize = Ok data.
Proof.
  intros Hbs.
  pose proof (padLen_range_at (len data) blockSize ltac:(lia)) as Hp.
  pose proof (len_nonneg data) as Hd.
  pose proof (pkcs7Pad_unfold data blockSize) as Hpad.
  set (p := blockSize - len data mod blockSize) in *.
  set (padded := pkcs7Pad data blockSize) in *.
  assert (len padded = len data + p) as Hlen.
  { rewrite Hpad, len_app. unfold len at 2. rewrite repeat_length. lia. }
  assert (len padded mod blockSize = 0) as Hmod.
  { rewrite Hlen. unfold p.
    replace (len data + (blockSize - len data mod blockSize))
      with (len data - len data mod blockSize + 1 * blockSize) by lia.
    rewrite Z_mod_plus_full. rewrite Zminus_mod_idemp_r.
    rewrite Z.sub_diag. apply Zmod_0_l. }
  assert (forall i, 0 <= i < p -> at_ padded (len padded - 1 - i) = Z_to_byte p) as Hat.
  { intros i Hi. rewrite Hlen, Hpad. rewrite at_app_r by lia.
    apply at_repeat. lia. }
  unfold pkcs7Unpad. rewrite Hmod.
  destruct (Z.eqb_spec (len padded) 0) as [H0 | _]; [lia |].
  cbn [orb negb Z.eqb].
  rewrite <- (Z.sub_0_r (len padded - 1)).
  rewrite (Hat 0) by lia.
  rewrite byte_to_Z_to_byte, (Z.mod_small p 256) by lia.
  destruct (Z.eqb_spec p 0) as [? | _]; [lia |].
  destruct (Z.gtb_spec p blockSize) as [? | _]; [lia |].
  cbn [orb].
  rewrite (proj2 (forallb_forall _ _)).
  - rewrite Hlen. replace (len data + p - p) with (len data) by lia.
    rewrite Hpad. rewrite slice_prefix. reflexivity.
  - intros i Hi. apply in_seq in Hi.
    rewrite Z.sub_0_r. rewrite Hat by lia. apply byte_eqb_refl.
Qed.

Lemma skipn_all_equal (data : list byte) (k : nat) (x : byte) :
  (k <= length data)%nat ->
  (forall i, (i < k)%nat -> nth (length data - 1 - i) data x00 = x) ->
  skipn (length data - k) data = repeat x k.
Proof.
  intros Hk Hall.
  apply (nth_ext _ _ x00 x00).
  - rewrite length_skipn, repeat_length. lia.
  - intros n Hn. rewrite length_skipn in Hn.
    rewrite nth_skipn, nth_repeat_lt by lia.
    replace (length data - k + n)%nat with (length data - 1 - (k - 1 - n))%nat by lia.
    apply Hall. lia.
Qed.

Lemma pkcs7Unpad_Ok_at (data plain : list byte) (blockSize : Z) :
  1 <= blockSize ->
  pkcs7Unpad data blockSize = Ok plain ->
  data = pkcs7Pad plain blockSize.
Proof.
  intros Hbs. unfold pkcs7Unpad.
  destruct (Z.eqb_spec (len data) 0) as [? | Hne]; [discriminate |].
  destruct (Z.eqb_spec (len data mod blockSize) 0) as [Hmod | ?]; [| discriminate].
  cbn [orb negb].
  pose proof (byte_to_Z_range (at_ data (len data - 1))) as Hr.
  set (padLen := byte_to_Z (at_ data (len data - 1))) in *.
  destruct (Z.eqb_spec padLen 0) as [? | Hp0]; [discriminate |].
  destruct (Z.gtb_spec padLen blockSize) as [? | Hp32]; [discriminate |].
  cbn [orb].
  destruct (forallb _ _) eqn:Hall; [| discriminate].
  intros H. injection H as <-.
  pose proof (len_nonneg data) as Hd.
  assert (blockSize <= len data) as Hlen.
  { assert (0 < len data) as Hpos by lia.
    pose proof (Z.div_mod (len data) blockSize ltac:(lia)) as Hdm.
    rewrite Hmod, Z.add_0_r in Hdm.
    assert (1 <= len data / blockSize) by nia. nia. }
  set (plain := slice data 0 (len data - padLen)).
  assert (len plain = len data - padLen) as Hpl
    by (apply len_slice_prefix; lia).
  assert ((len data - padLen) mod blockSize = blockSize - padLen
          \/ (padLen = blockSize /\ (len data - padLen) mod blockSize = 0)) as Hm.
  { destruct (Z.eq_dec padLen blockSize) as [-> | Hneq].
    - right. split; [reflexivity |].
      rewrite Zminus_mod, Hmod, Z_mod_same_full. reflexivity.
    - left. rewrite Zminus_mod, Hmod. rewrite (Z.mod_small padLen) by lia.
      replace (0 - padLen) with (blockSize - padLen + (-1) * blockSize) by lia.
      rewrite Z_mod_plus_full. apply Z.mod_small. lia. }
  assert (blockSize - len plain mod blockSize = padLen) as Hp.
  { rewrite Hpl. destruct Hm as [-> | [-> ->]]; lia. }
  rewrite pkcs7Pad_unfold, Hp.
  unfold plain, slice. rewrite Z.sub_0_r.
  change (Z.to_nat 0) with 0%nat. rewrite skipn_O.
  rewrite <- (firstn_skipn (Z.to_nat (len data - padLen)) data) at 1.
  f_equal.
  replace (Z.to_nat (len data - padLen))
    with (length data - Z.to_nat padLen)%nat by (unfold len; lia).
  apply skipn_all_equal; [unfold len in *; lia |].
  intros i Hi.
  rewrite forallb_forall in Hall.
  specialize (Hall i). rewrite in_seq in Hall.
  specialize (Hall ltac:(lia)).
  apply byte_eqb_eq in Hall. unfold at_ in Hall.
  replace (Z.to_nat (len data - 1 - Z.of_nat i))
    with (length data - 1 - i)%nat in Hall by (unfold len in *; lia).
  rewrite Hall. reflexivity.
Qed.

(** [pkcs7Unpad] inverts [pkcs7Pad] and accepts nothing but its images,
    at every block size from 1 to 255. *)
Theorem pkcs7Unpad_iff_pkcs7Pad (data plain : list byte) (blockSize : Z) :
  1 <= blockSize <= 255 ->
  pkcs7Unpad data blockSize = Ok plain <-> data = pkcs7Pad plain blockSize.
Proof.
  intros Hbs. split.
  - apply pkcs7Unpad_Ok_at. lia.
  - intros ->. apply pkcs7Unpad_pkcs7Pad_at. exact Hbs.
Qed.

Lemma pkcs7Unpad_iff_pkcs7Pad_witness :
  pkcs7Unpad (list_byte_of_string "abc" ++ repeat x05 5) 8
  = Ok (list_byte_of_string "abc").
Proof.
  apply (pkcs7Unpad_iff_pkcs7Pad _ (list_byte_of_string "abc") 8); [lia |].
  reflexivity.
Defined.

(** ** The envelope between two crypt contexts, and [VerifyURL] *)

Lemma decrypt_encrypt_small (c : Crypt) (random P : list byte) :
  len (aesKey c) = 32 -> 16 <= len random -> 4 + len P < 2 ^ 32 ->
  exists e, encrypt c random P = Ok e /\ decrypt c e = Ok P.
Proof.
  intros Hkey Hr HP.
  destruct (decrypt_encrypt_open c random P Hkey Hr) as (e & He & Hd).
  exists e. split; [exact He |]. rewrite Hd. clear He Hd.
  pose proof (len_nonneg P) as HP0.
  pose proof (len_nonneg (list_byte_of_string (corpID c))) as Hc0.
  pose proof (pkcs7Pad_len (envelope c random P)) as Hpl.
  pose proof (padLen_range (len (envelope c random P))) as Hpr.
  rewrite envelope_len in Hpl, Hpr by assumption.
  unfold sliceExpr, uint32. rewrite (Z.mod_small (len P)) by lia.
  rewrite (Z.mod_small (4 + len P)) by lia.
  destruct (Z.leb_spec 0 4) as [_ | ?]; [| lia].
  destruct (Z.leb_spec 4 (4 + len P)) as [_ | ?]; [| lia].
  destruct (Z.leb_spec (4 + len P)
              (len (pkcs7Pad (envelope c random P) padBlockSize) - 16)) as [_ | ?];
    [| lia].
  cbn [andb]. f_equal. apply slice_middle; [apply len_PutUint32 | lia].
Qed.

Lemma decrypt_key_only (c c' : Crypt) (cipherText : string) :
  aesKey c = aesKey c' -> decrypt c cipherText = decrypt c' cipherText.
Proof. intros H. unfold decrypt. rewrite H. reflexivity. Qed.

Lemma NewCrypt_fields (tok key corp : string) (c : Crypt) :
  NewCrypt tok key corp = Ok c ->
  token c = tok /\ corpID c = corp /\ decodeAESKey key = Ok (aesKey c).
Proof.
  unfold NewCrypt. destruct (decodeAESKey key) as [k | e]; [| discriminate].
  intros H. injection H as <-. auto.
Qed.

(** The receive id is written by [encrypt] and never read by [decrypt]:
    what one context encrypts, every context with the same key decrypts,
    whatever its token and its corp id. *)
Theorem decrypt_ignores_receive_id
    (tok1 tok2 encodingKey corp1 corp2 : string) (c1 c2 : Crypt)
    (random P : list byte) :
  NewCrypt tok1 encodingKey corp1 = Ok c1 ->
  NewCrypt tok2 encodingKey corp2 = Ok c2 ->
  16 <= len random ->
  4 + len P < 2 ^ 32 ->
  exists e, encrypt c1 random P = Ok e /\ decrypt c2 e = Ok P.
Proof.
  intros H1 H2 Hr HP.
  pose proof (NewCrypt_key_length _ _ _ _ H1) as Hkey.
  destruct (NewCrypt_fields _ _ _ _ H1) as (_ & _ & Hk1).
  destruct (NewCrypt_fields _ _ _ _ H2) as (_ & _ & Hk2).
  assert (aesKey c2 = aesKey c1) as Hsame by congruence.
  destruct (decrypt_encrypt_small c1 random P Hkey Hr HP) as (e & He & Hd).
  exists e. split; [exact He |].
  rewrite (decrypt_key_only c2 c1 e Hsame). exact Hd.
Qed.

Lemma decrypt_ignores_receive_id_witness :
  exists c1 c2 e,
    NewCrypt "QDG6eK" "jWmYm7qr5nMoAUwZRjGtBxmz3KA1tkAj3ykkR6q2B2C"
             "wx5823bf96d3bd56c7" = Ok c1
    /\ NewCrypt "other-token" "jWmYm7qr5nMoAUwZRjGtBxmz3KA1tkAj3ykkR6q2B2C"
                "another-corp" = Ok c2
    /\ encrypt c1 sampleRandom (list_byte_of_string "hello") = Ok e
    /\ decrypt c2 e = Ok (list_byte_of_string "hello").
Proof.
  destruct (NewCrypt "QDG6eK" "jWmYm7qr5nMoAUwZRjGtBxmz3KA1tkAj3ykkR6q2B2C"
                     "wx5823bf96d3bd56c7") as [c1 | err] eqn:H1;
    [| vm_compute in H1; discriminate H1].
  destruct (NewCrypt "other-token" "jWmYm7qr5nMoAUwZRjGtBxmz3KA1tkAj3ykkR6q2B2C"
                     "another-corp") as [c2 | err] eqn:H2;
    [| vm_compute in H2; discriminate H2].
  destruct (decrypt_ignores_receive_id _ _ _ _ _ c1 c2 sampleRandom
              (list_byte_of_string "hello") H1 H2) as (e & He & Hd).
  - vm_compute. discriminate.
  - vm_compute. reflexivity.
  - exists c1, c2, e. auto.
Defined.

Lemma bytes_eqb_refl (a : list byte) : bytes_eqb a a = true.
Proof.
  induction a as [| x a IH]; [reflexivity |].
  cbn [bytes_eqb]. rewrite byte_eqb_refl, IH. reflexivity.
Qed.

Lemma bytes_eqb_eq (a b : list byte) : bytes_eqb a b = true <-> a = b.
Proof.
  split; [| intros ->; apply bytes_eqb_refl].
  revert b. induction a as [| x a IH]; intros [| y b] H;
    try reflexivity; try discriminate H.
  cbn [bytes_eqb] in H. apply andb_prop in H as [Hx Ha].
  apply byte_eqb_eq in Hx. rewrite Hx, (IH b Ha). reflexivity.
Qed.

Lemma strings_EqualFold_refl (s : string) : strings_EqualFold s s = true.
Proof. apply bytes_eqb_refl. Qed.

Lemma validateSignature_CalcSignature (c : Crypt) (ts nonce data : string) :
  validateSignature c (CalcSignature (token c) ts nonce data) ts nonce data = true.
Proof. apply strings_EqualFold_refl. Qed.

(** [VerifyURL] on what [encrypt] made, signed with the context's token:
    the signature is accepted at the first check and the plaintext comes
    back, as [TestVerifyURLRoundTrip] tries on one payload. *)
Theorem VerifyURL_returns_encrypted_plaintext
    (tok encodingKey corp ts nonce : string) (c : Crypt) (random P : list byte) :
  NewCrypt tok encodingKey corp = Ok c ->
  16 <= len random ->
  4 + len P < 2 ^ 32 ->
  exists e,
    encrypt c random P = Ok e
    /\ VerifyURL c (CalcSignature tok ts nonce e) ts nonce e
       = Ok (string_of_list_byte P).
Proof.
  intros Hc Hr HP.
  pose proof (NewCrypt_key_length _ _ _ _ Hc) as Hkey.
  destruct (NewCrypt_fields _ _ _ _ Hc) as (Htok & _ & _).
  destruct (decrypt_encrypt_small c random P Hkey Hr HP) as (e & He & Hd).
  exists e. split; [exact He |].
  unfold VerifyURL. rewrite <- Htok.
  rewrite validateSignature_CalcSignature. cbn [negb].
  rewrite bind_Ok, Hd. reflexivity.
Qed.

Lemma VerifyURL_returns_encrypted_plaintext_witness :
  exists c e,
    NewCrypt "sample-token" "REREREREREREREREREREREREREREREREREREREREREQ"
             "sample-corp-id" = Ok c
    /\ encrypt c sampleRandom (list_byte_of_string "roundtrip-payload") = Ok e
    /\ VerifyURL c (CalcSignature "sample-token" "1761891968" "nonce" e)
                 "1761891968" "nonce" e = Ok "roundtrip-payload"%string.
Proof.
  destruct (NewCrypt "sample-token" "REREREREREREREREREREREREREREREREREREREREREQ"
                     "sample-corp-id") as [c | err] eqn:Hc;
    [| vm_compute in Hc; discriminate Hc].
  destruct (VerifyURL_returns_encrypted_plaintext
              "sample-token" _ _ "1761891968" "nonce" c sampleRandom
              (list_byte_of_string "roundtrip-payload") Hc) as (e & He & Hv).
  - vm_compute. discriminate.
  - vm_compute. reflexivity.
  - exists c, e. auto.
Defined.

(** ** What the Base64 layer lets through *)

Lemma skipNewlines_nil (src : list byte) :
  base64.skipNewlines src = [] -> forallb base64.isNewline src = true.
Proof.
  induction src as [| c rest IH]; [reflexivity |].
  cbn [base64.skipNewlines forallb].
  destruct (base64.isNewline c); [exact IH | discriminate].
Qed.

Lemma skipNewlines_cons (src : list byte) (c : byte) (rest : list byte) :
  base64.skipNewlines src = c :: rest ->
  exists nl, src = nl ++ c :: rest /\ forallb base64.isNewline nl = true.
Proof.
  induction src as [| x src IH]; [discriminate |].
  cbn [base64.skipNewlines].
  destruct (base64.isNewline x) eqn:Hx.
  - intros H. destruct (IH H) as (nl & -> & Hnl).
    exists (x :: nl). split; [reflexivity |].
    cbn [forallb]. rewrite Hx. exact Hnl.
  - intros H. injection H as -> ->. exists []. split; reflexivity.
Qed.

Lemma newline_base64Char (c : byte) :
  base64.isNewline c = true -> base64Char c = true.
Proof.
  intros H. unfold base64Char.
  destruct (base64.decodeMap c); [reflexivity |].
  rewrite H. apply orb_true_r.
Qed.

Lemma newlines_base64Char (l : list byte) :
  forallb base64.isNewline l = true -> forallb base64Char l = true.
Proof.
  induction l as [| c l IH]; [reflexivity |].
  cbn [forallb]. intros H. apply andb_prop in H as [Hc Hl].
  rewrite (newline_base64Char c Hc), (IH Hl). reflexivity.
Qed.

Lemma padChar_base64Char : base64Char base64.padChar = true.
Proof. reflexivity. Qed.

Lemma decodeLoop_chars (src : list byte) :
  forall dbuf out,
    base64.decodeLoop dbuf src = Ok out -> forallb base64Char src = true.
Proof.
  induction src as [| c rest IH]; intros dbuf out H; [reflexivity |].
  cbn [base64.decodeLoop] in H. cbn [forallb].
  unfold base64Char at 1.
  destruct (base64.decodeMap c) as [v |] eqn:Hm.
  - cbn [andb].
    destruct (length (dbuf ++ [v]) =? 4)%nat.
    + destruct (base64.decodeLoop [] rest) as [tl |] eqn:Htl; [| discriminate H].
      exact (IH _ _ Htl).
    + exact (IH _ _ H).
  - destruct (base64.isNewline c) eqn:Hn.
    + rewrite orb_true_r. cbn [andb]. exact (IH _ _ H).
    + destruct (byte_eqb c base64.padChar) eqn:Hp; cbn [negb] in H;
        [| discriminate H].
      cbn [orb andb].
      destruct (length dbuf) as [| [| [| n]]]; try discriminate H.
      * destruct (base64.skipNewlines rest) as [| c2 rest2] eqn:Hs;
          [discriminate H |].
        destruct (byte_eqb c2 base64.padChar) eqn:Hp2; cbn [negb] in H;
          [| discriminate H].
        destruct (base64.skipNewlines rest2) eqn:Hs2; [| discriminate H].
        destruct (skipNewlines_cons _ _ _ Hs) as (nl & -> & Hnl).
        rewrite forallb_app. rewrite (newlines_base64Char _ Hnl).
        cbn [forallb andb]. apply byte_eqb_eq in Hp2. subst c2.
        rewrite padChar_base64Char. cbn [andb].
        apply newlines_base64Char, skipNewlines_nil, Hs2.
      * destruct (base64.skipNewlines rest) eqn:Hs; [| discriminate H].
        apply newlines_base64Char, skipNewlines_nil, Hs.
Qed.

Lemma decrypt_chars (c : Crypt) (cipherText : string) (plain : list byte) :
  decrypt c cipherText = Ok plain ->
  forallb base64Char (list_byte_of_string cipherText) = true.
Proof.
  unfold decrypt, base64.DecodeString.
  destruct (base64.decodeLoop [] (list_byte_of_string cipherText)) as [d |] eqn:Hd;
    [| discriminate].
  intros _. exact (decodeLoop_chars _ _ _ Hd).
Qed.

(** [VerifyURL] never accepts an echo string that holds a character
    outside Base64 (a space, a ['%']), whatever the signature: the retry
    checks the signature of the unescaped text, and [decrypt] is then
    given the text as it came. *)
Theorem VerifyURL_rejects_non_base64
    (c : Crypt) (msgSignature timestamp nonce echoStr : string) :
  existsb (fun ch => negb (base64Char ch)) (list_byte_of_string echoStr) = true ->
  isOk (VerifyURL c msgSignature timestamp nonce echoStr) = false.
Proof.
  intros Hbad.
  destruct (VerifyURL c msgSignature timestamp nonce echoStr) as [p |] eqn:Hv;
    [| reflexivity].
  exfalso. unfold VerifyURL in Hv.
  destruct (if negb (validateSignature c msgSignature timestamp nonce echoStr)
            then _ else _) as [[] |]; [| discriminate Hv].
  rewrite bind_Ok in Hv.
  destruct (decrypt c echoStr) as [plain |] eqn:Hd; [| discriminate Hv].
  apply decrypt_chars in Hd.
  apply existsb_exists in Hbad as (ch & Hin & Hch).
  rewrite forallb_forall in Hd. rewrite (Hd ch Hin) in Hch. discriminate Hch.
Qed.

Lemma VerifyURL_rejects_non_base64_witness :
  isOk (VerifyURL (mkCrypt "QDG6eK" (repeat x11 32) "wx5823bf96d3bd56c7")
                  "0123456789abcdef0123456789abcdef01234567" "1409659813"
                  "1372623149" "RypEvHKD8QQKFhvQ6QleEB4J58tiPdvo rtK1I9qca6aM/wvqn") = false.
Proof.
  apply VerifyURL_rejects_non_base64. vm_compute. reflexivity.
Defined.

(** ** The signature *)

Lemma ascii_compare_trans (a b c : ascii) (r : comparison) :
  Ascii.compare a b = r -> Ascii.compare b c = r -> r <> Eq -> Ascii.compare a c = r.
Proof.
  unfold Ascii.compare. intros H1 H2 Hr.
  destruct r; [contradiction | |].
  - exact (N.lt_trans _ _ _ H1 H2).
  - apply N.compare_gt_iff. apply N.compare_gt_iff in H1. apply N.compare_gt_iff in H2.
    exact (N.lt_trans _ _ _ H2 H1).
Qed.

Lemma lebString_trans : Transitive lebString.
Proof.
  unfold lebString, String.leb. intros s1.
  induction s1 as [| c1 s1 IH]; intros s2 s3 H12 H23.
  - destruct s3; reflexivity.
  - destruct s2 as [| c2 s2]; [discriminate H12 |].
    destruct s3 as [| c3 s3]; [discriminate H23 |].
    cbn [String.compare] in *.
    destruct (Ascii.compare c1 c2) eqn:E12; [| | discriminate H12].
    + apply Ascii.compare_eq_iff in E12. subst c2.
      destruct (Ascii.compare c1 c3); [| reflexivity | discriminate H23].
      exact (IH _ _ H12 H23).
    + destruct (Ascii.compare c2 c3) eqn:E23; [| | discriminate H23].
      * apply Ascii.compare_eq_iff in E23. subst c3. rewrite E12. reflexivity.
      * rewrite (ascii_compare_trans _ _ _ Lt E12 E23); [reflexivity | discriminate].
Qed.

Lemma lebString_antisym : AntiSymm eq lebString.
Proof. intros s t. apply String.leb_antisym. Qed.

Lemma insertSorted_Permutation (s : string) (l : list string) :
  insertSorted s l ≡ₚ s :: l.
Proof.
  induction l as [| x l IH]; [reflexivity |].
  cbn [insertSorted]. destruct (String.leb s x); [reflexivity |].
  rewrite IH. apply perm_swap.
Qed.

Lemma sort_Strings_Permutation (l : list string) : sort_Strings l ≡ₚ l.
Proof.
  induction l as [| s l IH]; [reflexivity |].
  cbn [sort_Strings fold_right]. fold (sort_Strings l).
  rewrite insertSorted_Permutation, IH. reflexivity.
Qed.

Lemma insertSorted_HdRel (s x : string) (l : list string) :
  lebString x s -> HdRel lebString x l -> HdRel lebString x (insertSorted s l).
Proof.
  intros Hxs Hhd. destruct l as [| y l]; cbn [insertSorted].
  - constructor. exact Hxs.
  - destruct (String.leb s y); constructor; [exact Hxs |].
    inversion Hhd; assumption.
Qed.

Lemma insertSorted_Sorted (s : string) (l : list string) :
  Sorted lebString l -> Sorted lebString (insertSorted s l).
Proof.
  induction l as [| x l IH]; intros Hs; cbn [insertSorted].
  - repeat constructor.
  - destruct (String.leb s x) eqn:Hsx.
    + constructor; [exact Hs |]. constructor. exact Hsx.
    + inversion Hs as [| ? ? Hl Hhd]; subst.
      constructor; [exact (IH Hl) |].
      apply insertSorted_HdRel; [| exact Hhd].
      destruct (String.leb_total s x) as [H | H]; [congruence | exact H].
Qed.

Lemma sort_Strings_Sorted (l : list string) : Sorted lebString (sort_Strings l).
Proof.
  induction l as [| s l IH]; [constructor |].
  cbn [sort_Strings fold_right]. apply insertSorted_Sorted. exact IH.
Qed.

Lemma sort_Strings_Permutation_eq (l1 l2 : list string) :
  l1 ≡ₚ l2 -> sort_Strings l1 = sort_Strings l2.
Proof.
  intros Hp.
  apply (Sorted_unique lebString (Transitive0 := lebString_trans)
           (AntiSymm0 := lebString_antisym));
    try apply sort_Strings_Sorted.
  rewrite !sort_Strings_Permutation. exact Hp.
Qed.

(** The signature does not tell its four inputs apart: they are sorted
    before they are hashed, so any rearrangement of token, timestamp,
    nonce and data has the same signature. *)
Theorem CalcSignature_permutation (tok ts nonce data tok' ts' nonce' data' : string) :
  [tok; ts; nonce; data] ≡ₚ [tok'; ts'; nonce'; data'] ->
  CalcSignature tok ts nonce data = CalcSignature tok' ts' nonce' data'.
Proof.
  intros Hp. unfold CalcSignature.
  rewrite (sort_Strings_Permutation_eq _ _ Hp). reflexivity.
Qed.

Lemma CalcSignature_permutation_witness :
  CalcSignature "token" "12345" "nonce" "cipher"
  = CalcSignature "cipher" "nonce" "12345" "token".
Proof.
  apply CalcSignature_permutation.
  change (reverse ["cipher"; "nonce"; "12345"; "token"]%string
          ≡ₚ ["cipher"; "nonce"; "12345"; "token"]%string).
  apply reverse_Permutation.
Defined.

Lemma put_be_length (width : nat) (x : Z) : length (sha1.put_be width x) = width.
Proof.
  unfold sha1.put_be. rewrite length_map, length_rev, length_seq. reflexivity.
Qed.

Lemma sha1_Sum_length (data : list byte) : length (sha1.Sum data) = 20%nat.
Proof.
  unfold sha1.Sum. rewrite !length_app, !put_be_length. reflexivity.
Qed.

Lemma hex_Encode_length (src : list byte) :
  length (hex.Encode src) = (2 * length src)%nat.
Proof.
  unfold hex.Encode. induction src as [| v src IH]; [reflexivity |].
  cbn [flat_map length app]. rewrite IH. lia.
Qed.

Lemma hex_digit_In (i : Z) : 0 <= i < 16 -> In (hex.digit i) hex.hextable.
Proof.
  intros Hi. unfold hex.digit. apply nth_In.
  change (length hex.hextable) with 16%nat. lia.
Qed.

Lemma hex_Encode_digits (src : list byte) :
  Forall (fun ch => In ch hex.hextable) (hex.Encode src).
Proof.
  unfold hex.Encode. induction src as [| v src IH]; [constructor |].
  cbn [flat_map app]. pose proof (byte_to_Z_range v) as Hv.
  constructor; [| constructor; [| exact IH]]; apply hex_digit_In.
  - rewrite Z.shiftr_div_pow2 by lia. change (2 ^ 4) with 16.
    Z.div_mod_to_equations. lia.
  - change 15 with (Z.ones 4). rewrite Z.land_ones by lia.
    change (2 ^ 4) with 16. Z.div_mod_to_equations. lia.
Qed.

(** A signature is forty lower-case hexadecimal digits. *)
Theorem CalcSignature_shape (tok ts nonce data : string) :
  strlen (CalcSignature tok ts nonce data) = 40
  /\ Forall (fun ch => In ch hex.hextable)
            (list_byte_of_string (CalcSignature tok ts nonce data)).
Proof.
  unfold CalcSignature, hex.EncodeToString, strlen.
  rewrite list_byte_of_string_of_list_byte. split.
  - unfold len. rewrite hex_Encode_length, sha1_Sum_length. reflexivity.
  - apply hex_Encode_digits.
Qed.

Lemma toLowerASCII_hex (ch : byte) : In ch hex.hextable -> toLowerASCII ch = ch.
Proof.
  intros Hin.
  assert (forallb (fun x => byte_eqb (toLowerASCII x) x) hex.hextable = true) as Hall
    by (vm_compute; reflexivity).
  rewrite forallb_forall in Hall. apply byte_eqb_eq, Hall, Hin.
Qed.

Lemma map_toLowerASCII_hex (l : list byte) :
  Forall (fun ch => In ch hex.hextable) l -> map toLowerASCII l = l.
Proof.
  induction 1 as [| ch l Hch _ IH]; [reflexivity |].
  cbn [map]. rewrite (toLowerASCII_hex ch Hch), IH. reflexivity.
Qed.

(** [validateSignature] accepts exactly the texts that, with their
    letters [A]..[Z] lowered, spell the expected signature: the
    comparison ignores case and nothing else. *)
Theorem validateSignature_iff (c : Crypt) (msgSignature ts nonce data : string) :
  validateSignature c msgSignature ts nonce data = true
  <-> map toLowerASCII (list_byte_of_string msgSignature)
      = list_byte_of_string (CalcSignature (token c) ts nonce data).
Proof.
  unfold validateSignature, strings_EqualFold.
  destruct (CalcSignature_shape (token c) ts nonce data) as [_ Hhex].
  rewrite (map_toLowerASCII_hex _ Hhex), bytes_eqb_eq.
  split; intros H; symmetry; exact H.
Qed.

(** ** The encoding key of a raw key *)

Lemma trimRightByte_keep (l : list byte) (x c : byte) :
  byte_eqb x c = false -> trimRightByte (l ++ [x]) c = l ++ [x].
Proof.
  intros Hx. induction l as [| y l IH].
  - cbn. rewrite Hx. reflexivity.
  - cbn [app trimRightByte]. rewrite IH.
    destruct (l ++ [x]) eqn:E; [destruct l; discriminate E | reflexivity].
Qed.

Lemma trimRightByte_drop (l : list byte) (c : byte) :
  trimRightByte (l ++ [c]) c = trimRightByte l c.
Proof.
  induction l as [| y l IH].
  - cbn. rewrite byte_eqb_refl. reflexivity.
  - cbn [app trimRightByte]. rewrite IH. reflexivity.
Qed.

Lemma encodeChar_not_pad (i : Z) :
  0 <= i < 64 -> byte_eqb (base64.encodeChar i) base64.padChar = false.
Proof.
  intros Hi. destruct (byte_eqb _ _) eqn:E; [| reflexivity].
  apply byte_eqb_eq in E. pose proof (decodeMap_encodeChar i Hi) as H.
  rewrite E in H. discriminate H.
Qed.

Lemma Encode_length (src : list byte) :
  length (base64.Encode src) = (4 * ((length src + 2) / 3))%nat.
Proof.
  induction src as [| a | a b | a b c rest IH] using list_ind3;
    try reflexivity.
  cbn [base64.Encode length]. rewrite IH.
  replace (S (S (S (length rest))) + 2)%nat with (length rest + 2 + 1 * 3)%nat by lia.
  rewrite Nat.div_add by lia. lia.
Qed.

Lemma Encode_one_pad (src : list byte) :
  (length src mod 3 = 2)%nat ->
  exists body i,
    0 <= i < 64
    /\ base64.Encode src = body ++ [base64.encodeChar i; base64.padChar].
Proof.
  induction src as [| a | a b | a b c rest IH] using list_ind3; intros Hm.
  - discriminate Hm.
  - discriminate Hm.
  - cbn [base64.Encode]. eexists [_; _], _. split; [apply sextet_range |].
    reflexivity.
  - cbn [base64.Encode].
    destruct IH as (body & i & Hi & ->).
    { cbn [length] in Hm.
      replace (S (S (S (length rest)))) with (length rest + 1 * 3)%nat in Hm by lia.
      rewrite Nat.Div0.mod_add in Hm. exact Hm. }
    eexists (_ :: _ :: _ :: _ :: body), i. split; [exact Hi | reflexivity].
Qed.

Lemma string_of_list_byte_app (a b : list byte) :
  string_of_list_byte (a ++ b)
  = String.append (string_of_list_byte a) (string_of_list_byte b).
Proof.
  induction a as [| x a IH]; [reflexivity |].
  change (string_of_list_byte ((x :: a) ++ b))
    with (String (ascii_of_byte x) (string_of_list_byte (a ++ b))).
  rewrite IH. reflexivity.
Qed.

(** The encoding key of a raw key, as the tests make it: a raw key of 32
    bytes in Base64 is 44 characters, the last one the padding; with the
    padding trimmed it is the 43-character key, and [NewCrypt] recovers
    the raw key from it, as it does from the untrimmed text. *)
Theorem NewCrypt_of_raw_key (tok corp : string) (rawKey : list byte) :
  len rawKey = 32 ->
  strlen (base64.EncodeToString rawKey) = 44
  /\ strlen (strings_TrimRight (base64.EncodeToString rawKey) "=") = 43
  /\ NewCrypt tok (strings_TrimRight (base64.EncodeToString rawKey) "=") corp
     = Ok (mkCrypt tok rawKey corp)
  /\ NewCrypt tok (base64.EncodeToString rawKey) corp
     = Ok (mkCrypt tok rawKey corp).
Proof.
  intros Hlen. unfold len in Hlen.
  assert (length rawKey = 32%nat) as Hl by lia.
  pose proof (Encode_length rawKey) as He. rewrite Hl in He.
  change (4 * ((32 + 2) / 3))%nat with 44%nat in He.
  destruct (Encode_one_pad rawKey) as (body & i & Hi & Hb);
    [rewrite Hl; reflexivity |].
  assert (length body = 42%nat) as Hbody.
  { rewrite Hb, length_app in He. cbn [length] in He. lia. }
  assert (strlen (base64.EncodeToString rawKey) = 44) as H44.
  { unfold strlen, base64.EncodeToString, len.
    rewrite list_byte_of_string_of_list_byte, He. reflexivity. }
  assert (strings_TrimRight (base64.EncodeToString rawKey) "="
          = string_of_list_byte (body ++ [base64.encodeChar i])) as Htrim.
  { unfold strings_TrimRight, base64.EncodeToString.
    rewrite list_byte_of_string_of_list_byte, Hb.
    replace (body ++ [base64.encodeChar i; base64.padChar])
      with ((body ++ [base64.encodeChar i]) ++ [base64.padChar])
      by (rewrite <- app_assoc; reflexivity).
    change "="%byte with base64.padChar.
    rewrite trimRightByte_drop, trimRightByte_keep by (apply encodeChar_not_pad, Hi).
    reflexivity. }
  assert (strlen (strings_TrimRight (base64.EncodeToString rawKey) "=") = 43) as H43.
  { rewrite Htrim. unfold strlen, len.
    rewrite list_byte_of_string_of_list_byte, length_app, Hbody. reflexivity. }
  split; [exact H44 |]. split; [exact H43 |]. split.
  - rewrite NewCrypt_decoded. unfold paddedKey. rewrite H43.
    change ((4 - 43 mod 4) mod 4) with 1.
    change (strings_Repeat "=" 1) with (string_of_list_byte [base64.padChar]).
    rewrite Htrim, <- string_of_list_byte_app, <- app_assoc.
    cbn [app]. rewrite <- Hb. fold (base64.EncodeToString rawKey).
    rewrite base64_DecodeString_EncodeToString.
    unfold len. rewrite Hl. reflexivity.
  - rewrite NewCrypt_decoded. unfold paddedKey. rewrite H44.
    change ((4 - 44 mod 4) mod 4) with 0.
    change (strings_Repeat "=" 0) with ""%string.
    rewrite append_empty_r, base64_DecodeString_EncodeToString.
    unfold len. rewrite Hl. reflexivity.
Qed.

Lemma NewCrypt_of_raw_key_witness :
  strings_TrimRight (base64.EncodeToString (repeat x11 32)) "="
  = "ERERERERERERERERERERERERERERERERERERERERERE"%string
  /\ NewCrypt "token" "ERERERERERERERERERERERERERERERERERERERERERE" "corpID"
     = Ok (mkCrypt "token" (repeat x11 32) "corpID").
Proof.
  split; [vm_compute; reflexivity |].
  change "ERERERERERERERERERERERERERERERERERERERERERE"%string
    with (strings_TrimRight (base64.EncodeToString (repeat x11 32)) "=").
  apply (NewCrypt_of_raw_key "token" "corpID" (repeat x11 32)).
  reflexivity.
Defined.

(** ** Downloaded files *)

Lemma decRounds_length (rks : list (list byte)) (st : list byte) :
  Forall (fun rk => length rk = 16%nat) rks -> length st = 16%nat ->
  length (aes.decRounds rks st) = 16%nat.
Proof.
  intros Hrk. revert st. induction Hrk as [| rk rks Hk Hrks IH]; intros st Hst;
    [exact Hst |].
  cbn [aes.decRounds]. destruct rks as [| rk' rks'].
  - unfold aes.invSubBytes. rewrite length_map.
    unfold aes.invShiftRows, aes.pick. rewrite length_map. reflexivity.
  - unfold aes.invSubBytes. rewrite length_map.
    unfold aes.invShiftRows, aes.pick. rewrite length_map. reflexivity.
Qed.

Lemma Decrypt_length (b : aes.Block) (src : list byte) :
  wellKeyed b -> length src = 16%nat -> length (aes.Decrypt b src) = 16%nat.
Proof.
  unfold wellKeyed, aes.Decrypt. intros Hk Hs.
  destruct (aes.roundKeys b) as [| rk0 rks]; [exact Hs |].
  inversion Hk as [| ? ? H0 Hrks]; subst.
  unfold aes.addRoundKey, aes.xorBytes. rewrite length_zip_with.
  rewrite (decRounds_length rks src Hrks Hs). lia.
Qed.

Lemma cbcDecrypt_length (b : aes.Block) (n : nat) (iv src : list byte) :
  wellKeyed b -> length iv = 16%nat -> length src = (16 * n)%nat ->
  length (cipher.cbcDecrypt b n iv src) = (16 * n)%nat.
Proof.
  intros Hk. revert iv src. induction n as [| n IH]; intros iv src Hiv Hs;
    [reflexivity |].
  cbn [cipher.cbcDecrypt]. rewrite length_app.
  assert (length (firstn 16 src) = 16%nat) as Hf by (rewrite length_firstn; lia).
  rewrite (IH (firstn 16 src) (skipn 16 src) Hf) by (rewrite length_skipn; lia).
  unfold aes.xorBytes. rewrite length_zip_with.
  rewrite (Decrypt_length b _ Hk Hf). lia.
Qed.

Lemma CryptBlocks_Decrypter_length (b : aes.Block) (iv src out : list byte) :
  wellKeyed b ->
  cipher.CryptBlocks cipher.Decrypter b iv src = Ok out -> len out = len src.
Proof.
  intros Hk. unfold cipher.CryptBlocks, aes.BlockSize.
  destruct (Z.eqb_spec (len iv) 16) as [Hiv | ?]; [| discriminate].
  destruct (Z.eqb_spec (len src mod 16) 0) as [Hm | ?]; [| discriminate].
  cbn [negb]. intros H. injection H as <-.
  assert (length src = (16 * (length src / 16))%nat) as Hn.
  { unfold len in Hm. pose proof (Nat.div_mod_eq (length src) 16).
    assert (length src mod 16 = 0)%nat; [| lia].
    apply Nat2Z.inj. rewrite Nat2Z.inj_mod. exact Hm. }
  unfold len. rewrite cbcDecrypt_length;
    [f_equal; symmetry; exact Hn | exact Hk | unfold len in Hiv; lia | exact Hn].
Qed.

Lemma DecryptDownloadedFile_encrypted (c : Crypt) (file : list byte) :
  len (aesKey c) = 32 ->
  exists block cipherData,
    aes.NewCipher (aesKey c) = Ok block
    /\ cipher.CryptBlocks cipher.Encrypter block (slice (aesKey c) 0 aes.BlockSize)
                          (pkcs7Pad file padBlockSize) = Ok cipherData
    /\ DecryptDownloadedFile (Some c) cipherData = FileOk file.
Proof.
  intros Hkey.
  destruct (NewCipher_256 (aesKey c)) as (b & Hb & Hwk);
    [unfold len in Hkey; lia |].
  assert (len (slice (aesKey c) 0 aes.BlockSize) = 16) as Hiv
    by (apply len_slice_prefix; unfold aes.BlockSize; lia).
  destruct (CryptBlocks_roundtrip b (slice (aesKey c) 0 aes.BlockSize)
              (pkcs7Pad file padBlockSize) Hwk Hiv (pkcs7Pad_len_mod16 file))
    as (ct & Henc & Hct & Hdec).
  exists b, ct. split; [exact Hb |]. split; [exact Henc |].
  unfold DecryptDownloadedFile. rewrite Hkey, Hct.
  pose proof (pkcs7Pad_len file) as Hpl.
  pose proof (padLen_range (len file)) as Hpr.
  pose proof (len_nonneg file) as Hf.
  destruct (Z.eqb_spec (len (pkcs7Pad file padBlockSize)) 0) as [? | _]; [lia |].
  unfold aes.BlockSize at 1. rewrite pkcs7Pad_len_mod16.
  cbn [Z.eqb Pos.eqb negb]. rewrite Hb, Hdec, pkcs7Unpad_pkcs7Pad. reflexivity.
Qed.

(** [DecryptDownloadedFile] recovers a file from its ciphertext: the file
    padded to a multiple of 32 bytes and encrypted in CBC mode under the
    context's key, the first 16 key bytes being the IV. *)
Theorem DecryptDownloadedFile_roundtrip
    (tok encodingKey corp : string) (c : Crypt) (file : list byte) :
  NewCrypt tok encodingKey corp = Ok c ->
  exists block cipherData,
    aes.NewCipher (aesKey c) = Ok block
    /\ cipher.CryptBlocks cipher.Encrypter block (slice (aesKey c) 0 aes.BlockSize)
                          (pkcs7Pad file padBlockSize) = Ok cipherData
    /\ DecryptDownloadedFile (Some c) cipherData = FileOk file.
Proof.
  intros Hc. apply DecryptDownloadedFile_encrypted.
  exact (NewCrypt_key_length _ _ _ _ Hc).
Qed.

Lemma DecryptDownloadedFile_roundtrip_witness :
  exists c block cipherData,
    docCrypt = Ok c
    /\ aes.NewCipher (aesKey c) = Ok block
    /\ cipher.CryptBlocks cipher.Encrypter block (slice (aesKey c) 0 aes.BlockSize)
         (pkcs7Pad (list_byte_of_string "a downloaded file") padBlockSize)
       = Ok cipherData
    /\ DecryptDownloadedFile (Some c) cipherData
       = FileOk (list_byte_of_string "a downloaded file").
Proof.
  destruct docCrypt as [c | err] eqn:Hc; [| vm_compute in Hc; discriminate Hc].
  destruct (DecryptDownloadedFile_roundtrip _ _ _ c
              (list_byte_of_string "a downloaded file") Hc)
    as (block & cipherData & Hb & He & Hd).
  exists c, block, cipherData. auto.
Defined.

(** What [DecryptDownloadedFile] accepts is a whole number of 32-byte
    blocks, not of the 16 bytes its own length check asks for, and what it
    returns is shorter than that by the padding, 1 to 32 bytes. *)
Theorem DecryptDownloadedFile_lengths
    (c : Crypt) (cipherData file : list byte) :
  DecryptDownloadedFile (Some c) cipherData = FileOk file ->
  len cipherData mod 32 = 0
  /\ 1 <= len cipherData - len file <= 32.
Proof.
  unfold DecryptDownloadedFile.
  destruct (len cipherData =? 0); [discriminate |].
  destruct (Z.eqb_spec (len (aesKey c)) 32) as [Hkey | ?]; [| discriminate].
  cbn [negb].
  destruct (negb (len cipherData mod aes.BlockSize =? 0)); [discriminate |].
  destruct (NewCipher_256 (aesKey c)) as (b & Hb & Hwk);
    [unfold len in Hkey; lia |].
  rewrite Hb.
  destruct (cipher.CryptBlocks cipher.Decrypter b _ cipherData) as [padded |] eqn:Hcb;
    [| discriminate].
  pose proof (CryptBlocks_Decrypter_length _ _ _ _ Hwk Hcb) as Hlen.
  destruct (pkcs7Unpad padded padBlockSize) as [plain |] eqn:Hun; [| discriminate].
  intros H. injection H as <-.
  pose proof Hun as Hun'. unfold pkcs7Unpad, padBlockSize in Hun'.
  destruct (Z.eqb_spec (len padded) 0) as [? | Hne]; [discriminate Hun' |].
  destruct (Z.eqb_spec (len padded mod 32) 0) as [Hmod | ?]; [| discriminate Hun'].
  clear Hun'.
  destruct (pkcs7Unpad_Ok _ _ Hun) as (padLen & Hp & Hpd & ->).
  rewrite <- Hlen. split; [exact Hmod |].
  rewrite len_slice_prefix by lia. lia.
Qed.

Lemma DecryptDownloadedFile_lengths_witness :
  exists c cipherData,
    docCrypt = Ok c
    /\ DecryptDownloadedFile (Some c) cipherData
       = FileOk (list_byte_of_string "a downloaded file")
    /\ len cipherData = 32.
Proof.
  destruct docCrypt as [c | err] eqn:Hc; [| vm_compute in Hc; discriminate Hc].
  destruct (DecryptDownloadedFile_encrypted c
              (list_byte_of_string "a downloaded file"))
    as (block & cipherData & Hb & He & Hd);
    [exact (NewCrypt_key_length _ _ _ _ Hc) |].
  exists c, cipherData. split; [reflexivity |]. split; [exact Hd |].
  destruct (DecryptDownloadedFile_lengths c cipherData _ Hd) as [Hm Hl].
  change (len (list_byte_of_string "a downloaded file")) with 17 in Hl.
  Z.div_mod_to_equations. lia.
Defined.

(** ** What the bot sends, its own receive path accepts *)

(** A response built by [EncryptResponse] passes the signature check of
    [DecryptMessage] with the timestamp and nonce it carries, and is
    decrypted to the very bytes [jsonMarshal] produced, which are then
    parsed: [TestCryptEncryptDecryptRoundTrip], for every payload. *)
Theorem DecryptMessage_of_EncryptResponse
    (jsonMarshal : Heap -> any -> result (list byte))
    (parseMessage : list byte -> result Message)
    (tok encodingKey corp ts nonce : string) (c : Crypt) (h : Heap)
    (random body : list byte) (payload : any) :
  NewCrypt tok encodingKey corp = Ok c ->
  16 <= len random ->
  jsonMarshal h payload = Ok body ->
  4 + len body < 2 ^ 32 ->
  exists resp,
    EncryptResponse jsonMarshal c h random payload ts nonce = Ok resp
    /\ Timestamp resp = ts /\ Nonce resp = nonce
    /\ DecryptMessage parseMessage c (MsgSignature resp) (Timestamp resp)
                      (Nonce resp) (RespEncrypt resp)
       = parseMessage body.
Proof.
  intros Hc Hr Hbody Hlen.
  pose proof (NewCrypt_key_length _ _ _ _ Hc) as Hkey.
  destruct (decrypt_encrypt_small c random body Hkey Hr Hlen) as (e & He & Hd).
  unfold EncryptResponse. rewrite Hbody, bind_Ok, He, bind_Ok.
  eexists. split; [reflexivity |].
  cbn [Timestamp Nonce MsgSignature RespEncrypt].
  split; [reflexivity |]. split; [reflexivity |].
  unfold DecryptMessage. rewrite validateSignature_CalcSignature. cbn [negb].
  rewrite Hd, bind_Ok. destruct (parseMessage body); reflexivity.
Qed.

Lemma DecryptMessage_of_EncryptResponse_witness :
  exists c resp,
    docCrypt = Ok c
    /\ EncryptResponse sampleMarshal c emptyHeap sampleRandom
         (ReplyValue (BuildStreamReply "stream-id" "hello" false))
         "1700000000" "nonce" = Ok resp
    /\ DecryptMessage (fun _ => Ok refreshMessage) c (MsgSignature resp)
         (Timestamp resp) (Nonce resp) (RespEncrypt resp) = Ok refreshMessage.
Proof.
  destruct docCrypt as [c | err] eqn:Hc; [| vm_compute in Hc; discriminate Hc].
  destruct (DecryptMessage_of_EncryptResponse sampleMarshal
              (fun _ => Ok refreshMessage) _ _ _ "1700000000" "nonce" c emptyHeap
              sampleRandom
              (list_byte_of_string
                 (render (StreamReply_json emptyHeap
                            (BuildStreamReply "stream-id" "hello" false))))
              (ReplyValue (BuildStreamReply "stream-id" "hello" false)) Hc)
    as (resp & He & _ & _ & Hd).
  - vm_compute. discriminate.
  - reflexivity.
  - vm_compute. reflexivity.
  - exists c, resp. auto.
Defined.

(** ** Stream ids *)

Lemma hex_byte_table :
  forallb (fun v =>
             byte_eqb (Z_to_byte (url.unhex (hex.digit (Z.shiftr (byte_to_Z v) 4)) * 16
                                  + url.unhex (hex.digit (Z.land (byte_to_Z v) 15))))
                      v) aes.allBytes = true.
Proof. vm_compute. reflexivity. Qed.

Lemma hex_byte (v : byte) :
  Z_to_byte (url.unhex (hex.digit (Z.shiftr (byte_to_Z v) 4)) * 16
             + url.unhex (hex.digit (Z.land (byte_to_Z v) 15))) = v.
Proof.
  pose proof hex_byte_table as H. rewrite forallb_forall in H.
  apply byte_eqb_eq, H, allBytes_complete.
Qed.

Lemma hex_Encode_inj (a b : list byte) : hex.Encode a = hex.Encode b -> a = b.
Proof.
  unfold hex.Encode. revert b. induction a as [| v a IH]; intros [| w b] H;
    try reflexivity; try discriminate H.
  cbn [flat_map app] in H. injection H as Hhi Hlo Hrest.
  f_equal; [| exact (IH b Hrest)].
  rewrite <- (hex_byte v), <- (hex_byte w), Hhi, Hlo. reflexivity.
Qed.

Lemma string_of_list_byte_inj (a b : list byte) :
  string_of_list_byte a = string_of_list_byte b -> a = b.
Proof.
  intros H. rewrite <- (list_byte_of_string_of_list_byte a),
    <- (list_byte_of_string_of_list_byte b), H. reflexivity.
Qed.

Lemma generateStreamID_random (random : list byte) (now : Z) :
  16 <= len random ->
  generateStreamID random now = hex.EncodeToString (slice random 0 16).
Proof.
  intros H. unfold generateStreamID, io_ReadFull.
  destruct (Z.leb_spec 16 (len random)) as [_ | ?]; [reflexivity | lia].
Qed.

(** While the random source delivers, a stream id is 32 lower-case
    hexadecimal digits that spell the 16 bytes drawn: two ids are equal
    only if the two draws are. *)
Theorem generateStreamID_spells_the_draw
    (random1 random2 : list byte) (now1 now2 : Z) :
  16 <= len random1 -> 16 <= len random2 ->
  strlen (generateStreamID random1 now1) = 32
  /\ Forall (fun ch => In ch hex.hextable)
            (list_byte_of_string (generateStreamID random1 now1))
  /\ (generateStreamID random1 now1 = generateStreamID random2 now2
      <-> slice random1 0 16 = slice random2 0 16).
Proof.
  intros H1 H2. rewrite !generateStreamID_random by assumption.
  unfold hex.EncodeToString, strlen. rewrite list_byte_of_string_of_list_byte.
  split; [| split].
  - unfold len. rewrite hex_Encode_length.
    pose proof (len_slice_prefix random1 16 ltac:(lia)) as Hl.
    unfold len in Hl. lia.
  - apply hex_Encode_digits.
  - split; [| intros ->; reflexivity].
    intros H. apply hex_Encode_inj, string_of_list_byte_inj, H.
Qed.

Lemma generateStreamID_spells_the_draw_witness :
  strlen (generateStreamID sampleRandom 0) = 32
  /\ generateStreamID sampleRandom 0 <> generateStreamID (repeat x00 16) 0.
Proof.
  destruct (generateStreamID_spells_the_draw sampleRandom (repeat x00 16) 0 0)
    as (Hlen & _ & Heq).
  - vm_compute. discriminate.
  - vm_compute. discriminate.
  - split; [exact Hlen |]. intros H. apply Heq in H. discriminate H.
Defined.

Lemma pretty_N_go_nonempty (x : N) (s : string) :
  s <> ""%string -> pretty_N_go x s <> ""%string.
Proof.
  revert s. induction (N.lt_wf_0 x) as [x _ IH]; intros s Hs.
  destruct (N.eq_dec x 0%N) as [-> | Hx].
  - rewrite pretty_N_go_0. exact Hs.
  - rewrite pretty_N_go_step by lia.
    apply IH; [| discriminate].
    apply N.div_lt; lia.
Qed.

Lemma pretty_Z_nonempty (z : Z) : pretty z <> ""%string.
Proof.
  assert (forall p : positive, pretty (N.pos p) <> ""%string) as Hp.
  { intros p. unfold pretty, pretty_N.
    destruct (decide (N.pos p = 0%N)) as [H | _]; [discriminate H |].
    rewrite pretty_N_go_step by lia.
    apply pretty_N_go_nonempty. discriminate. }
  destruct z as [| p | p]; [discriminate | apply Hp | discriminate].
Qed.

Lemma generateStreamID_nonempty (random : list byte) (now : Z) :
  generateStreamID random now <> ""%string.
Proof.
  unfold generateStreamID, io_ReadFull.
  destruct (Z.leb_spec 16 (len random)) as [H | _].
  - intros Heq.
    assert (strlen (hex.EncodeToString (slice random 0 16)) = 32) as Hl.
    { unfold hex.EncodeToString, strlen, len.
      rewrite list_byte_of_string_of_list_byte, hex_Encode_length.
      pose proof (len_slice_prefix random 16 ltac:(lia)) as Hs.
      unfold len in Hs. lia. }
    rewrite Heq in Hl. discriminate Hl.
  - destruct (len random =? 0); apply pretty_Z_nonempty.
Qed.

(** ** C10: first packets without a [msgid] *)



(** ** Redelivery of a message *)







(** ** After the final chunk *)




(** ** The queue of a session *)

Lemma publish_returns_iff_room (h : Heap) (m : StreamManager) (now : Z)
    (streamID : string) (s : Stream) (chunk : Chunk) :
  streamID <> ""%string -> streams m !! streamID = Some s ->
  if (length (queue s) <? queueCapacity)%nat
  then exists h' s',
         publish h m now streamID chunk
         = PublishReturns h' (withStream m streamID s') true
         /\ length (queue s') = S (length (queue s))
         /\ Finished s' = Finished s || IsFinal chunk
  else exists h' m', publish h m now streamID chunk = PublishParked h' m'.
Proof.
  intros Hne Hs.
  destruct (publish_registered h m now streamID s chunk Hne Hs)
    as (h' & full & _ & _ & Hf & Hpub).
  rewrite Hpub. destruct (length (queue s) <? queueCapacity)%nat.
  - eexists _, _. split; [reflexivity |]. rewrite Hf.
    destruct (IsFinal chunk); cbn [id setFinished setQueue setLastChunk queue Finished];
      rewrite length_app; cbn [length]; rewrite ?orb_true_r, ?orb_false_r;
      split; try reflexivity; lia.
  - eauto.
Qed.

(** A session takes publishes without a poll as long as its queue has
    room, sixteen snapshots in all: a run of publishes completes exactly
    when the queue can hold them, and the one after that is parked. *)
Theorem publishes_complete_iff_room (h : Heap) (m : StreamManager)
    (streamID : string) (s : Stream) (sent : list (Z * Chunk)) :
  streamID <> ""%string -> streams m !! streamID = Some s ->
  (length (queue s) <= queueCapacity)%nat ->
  is_Some (run h m streamID (map (fun p => Publish p.1 p.2) sent))
  <-> (length (queue s) + length sent <= queueCapacity)%nat.
Proof.
  intros Hne. revert h m s.
  induction sent as [| [now chunk] sent IH]; intros h m s Hs Hq.
  - cbn [map run length]. split; [intros _; lia | eauto].
  - cbn [map run length fst snd].
    pose proof (publish_returns_iff_room h m now streamID s chunk Hne Hs) as Hpub.
    destruct (Nat.ltb_spec (length (queue s)) queueCapacity) as [Hroom | Hfull].
    + destruct Hpub as (h' & s' & -> & Hlen & _).
      rewrite (IH h' (withStream m streamID s') s');
        [lia | cbn [withStream streams]; apply lookup_insert_eq | lia].
    + destruct Hpub as (h' & m' & ->).
      split; [intros [x Hx]; discriminate Hx | lia].
Qed.

Lemma publishes_complete_iff_room_witness :
  is_Some (run emptyHeap sampleManager sampleStreamID
             (map (fun p => Publish p.1 p.2)
                  (repeat (1, textChunk "x" false) 16)))
  /\ ~ is_Some (run emptyHeap sampleManager sampleStreamID
                  (map (fun p => Publish p.1 p.2)
                       (repeat (1, textChunk "x" false) 17))).
Proof.
  assert (streams sampleManager !! sampleStreamID
          = Some (mkStream 0%nat sampleStreamID "" "chat-1" "user-1" "" 0 0 false []
                           None anonymousMessage)) as Hs
    by (vm_compute; reflexivity).
  assert (sampleStreamID <> ""%string) as Hne by (vm_compute; discriminate).
  assert (length (queue (mkStream 0%nat sampleStreamID "" "chat-1" "user-1" "" 0 0
                                  false [] None anonymousMessage))
          <= queueCapacity)%nat as Hq by (cbn; unfold queueCapacity; lia).
  pose proof (publishes_complete_iff_room emptyHeap sampleManager sampleStreamID _
                (repeat (1, textChunk "x" false) 16) Hne Hs Hq) as H16.
  pose proof (publishes_complete_iff_room emptyHeap sampleManager sampleStreamID _
                (repeat (1, textChunk "x" false) 17) Hne Hs Hq) as H17.
  cbn [length repeat queue] in H16, H17. unfold queueCapacity in H16, H17.
  split; [apply H16; lia | intros H; apply H17 in H; lia].
Defined.

(** ** The handler's output *)

Lemma run_app (h : Heap) (m : StreamManager) (streamID : string)
    (tr1 tr2 : list event) :
  run h m streamID (tr1 ++ tr2)
  = match run h m streamID tr1 with
    | Some (h', m') => run h' m' streamID tr2
    | None => None
    end.
Proof.
  revert h m. induction tr1 as [| ev tr1 IH]; intros h m; [reflexivity |].
  destruct ev as [now chunk | now]; cbn [app run].
  - destruct (publish h m now streamID chunk); [apply IH | reflexivity].
  - apply IH.
Qed.

Lemma doHandlerLoop_run (sent : list (Z * Chunk)) :
  forall (h : Heap) (m : StreamManager) (streamID : string) (s : Stream)
         (closed : Z) (published : bool),
    streamID <> ""%string -> streams m !! streamID = Some s ->
    doHandlerLoop h m streamID sent closed published
    = run h m streamID
        (map publishAt (forwarded sent)
         ++ match cutAt sent with
            | Some now => [Publish now (finalChunk "")]
            | None =>
                match forwarded sent with
                | [] => if published then [] else [Publish closed (finalChunk "")]
                | _ => []
                end
            end).
Proof.
  induction sent as [| [now chunk] rest IH];
    intros h m streamID s closed published Hne Hs.
  - cbn [doHandlerLoop forwarded cutAt map app].
    destruct published; cbn [negb run]; [reflexivity |].
    destruct (publish h m closed streamID (finalChunk "")); reflexivity.
  - cbn [doHandlerLoop forwarded cutAt].
    destruct (isNoResponse chunk).
    + cbn [map app run].
      destruct (publish h m now streamID (finalChunk "")); reflexivity.
    + destruct (isEmptyChunk chunk); [exact (IH h m streamID s closed published Hne Hs) |].
      cbn [map app run publishAt fst snd].
      pose proof (publish_returns_iff_room h m now streamID s chunk Hne Hs) as Hpub.
      destruct (length (queue s) <? queueCapacity)%nat.
      * destruct Hpub as (h' & s' & -> & _).
        rewrite (IH h' (withStream m streamID s') streamID s' closed true Hne)
          by (cbn [withStream streams]; apply lookup_insert_eq).
        destruct (cutAt rest); [reflexivity |].
        destruct (forwarded rest); reflexivity.
      * destruct Hpub as (h' & m' & ->). reflexivity.
Qed.

(** On a registered session [doHandler] amounts to these publishes, in
    this order: every chunk the handler sent before its first
    [NoResponse], those left out that have no content, no payload, no
    items and are not final; then, if there was a [NoResponse], the
    empty final chunk, and nothing of what the handler sent after it;
    and if there was none and nothing got through, the empty final chunk
    when the channel is closed. *)
Theorem doHandler_publishes (h : Heap) (m : StreamManager) (streamID : string)
    (s : Stream) (sent : list (Z * Chunk)) (closed : Z) :
  streamID <> ""%string -> streams m !! streamID = Some s ->
  doHandler h m (Some sent) closed streamID
  = run h m streamID (handlerEvents sent closed).
Proof.
  intros Hne Hs. unfold doHandler, handlerEvents.
  rewrite (doHandlerLoop_run sent h m streamID s closed false Hne Hs).
  reflexivity.
Qed.

Lemma doHandler_publishes_witness :
  doHandler emptyHeap sampleManager
    (Some [(1, textChunk "Hi" false); (2, textChunk "" false);
           (3, mkChunk "" NilSlice (Some NoResponse) false);
           (4, textChunk "never" true)]) 5 sampleStreamID
  = run emptyHeap sampleManager sampleStreamID
        [Publish 1 (textChunk "Hi" false); Publish 3 (finalChunk "")].
Proof.
  apply (doHandler_publishes emptyHeap sampleManager sampleStreamID
           (mkStream 0%nat sampleStreamID "" "chat-1" "user-1" "" 0 0 false []
                     None anonymousMessage)).
  - vm_compute. discriminate.
  - vm_compute. reflexivity.
Defined.

Lemma run_publishes_finished (sent : list (Z * Chunk)) :
  forall (h : Heap) (m : StreamManager) (streamID : string) (s : Stream)
         (h' : Heap) (m' : StreamManager),
    streamID <> ""%string -> streams m !! streamID = Some s ->
    run h m streamID (map publishAt sent) = Some (h', m') ->
    exists s', streams m' !! streamID = Some s'
               /\ Finished s' = Finished s || existsb (fun p => IsFinal p.2) sent.
Proof.
  induction sent as [| [now chunk] rest IH]; intros h m streamID s h' m' Hne Hs Hrun.
  - injection Hrun as <- <-. exists s. rewrite orb_false_r. auto.
  - cbn [map run publishAt fst snd] in Hrun.
    pose proof (publish_returns_iff_room h m now streamID s chunk Hne Hs) as Hpub.
    destruct (length (queue s) <? queueCapacity)%nat.
    + destruct Hpub as (h1 & s1 & Hp & _ & Hfin). rewrite Hp in Hrun.
      destruct (IH h1 (withStream m streamID s1) streamID s1 h' m' Hne) as (s' & Hs' & Hf');
        [cbn [withStream streams]; apply lookup_insert_eq | exact Hrun |].
      exists s'. split; [exact Hs' |].
      rewrite Hf', Hfin. cbn [existsb snd]. rewrite orb_assoc. reflexivity.
    + destruct Hpub as (h1 & m1 & Hp). rewrite Hp in Hrun. discriminate Hrun.
Qed.

(** [doHandler] leaves the session unfinished in one case only: the
    handler got at least one chunk through, none of them final, and sent
    no [NoResponse].  A handler that streams text has to mark its last
    chunk final itself; closing the channel does not. *)
Theorem doHandler_finishes (h : Heap) (m : StreamManager) (streamID : string)
    (s : Stream) (sent : list (Z * Chunk)) (closed : Z)
    (h' : Heap) (m' : StreamManager) :
  streamID <> ""%string -> streams m !! streamID = Some s ->
  Finished s = false ->
  doHandler h m (Some sent) closed streamID = Some (h', m') ->
  exists s',
    streams m' !! streamID = Some s'
    /\ (Finished s' = false
        <-> forwarded sent <> []
            /\ existsb (fun p => IsFinal p.2) (forwarded sent) = false
            /\ cutAt sent = None).
Proof.
  intros Hne Hs Hfin Hdo.
  unfold doHandler in Hdo.
  rewrite (doHandlerLoop_run sent h m streamID s closed false Hne Hs) in Hdo.
  assert (forall now, [Publish now (finalChunk "")]
                      = map publishAt [(now, finalChunk "")]) as Hone by reflexivity.
  assert (exists tail,
             run h m streamID (map publishAt (forwarded sent ++ tail)) = Some (h', m')
             /\ (tail = [] <-> forwarded sent <> [] /\ cutAt sent = None)
             /\ existsb (fun p => IsFinal p.2) tail = negb (bool_decide (tail = [])))
    as (tail & Hrun & Htail & Hfinal).
  { destruct (cutAt sent) as [now |].
    - exists [(now, finalChunk "")]. rewrite map_app, <- Hone.
      split; [exact Hdo |]. split; [| reflexivity].
      split; [discriminate | intros [_ H]; discriminate H].
    - destruct (forwarded sent) as [| p l] eqn:Hfw.
      + exists [(closed, finalChunk "")]. rewrite map_app, <- Hone.
        split; [exact Hdo |]. split; [| reflexivity].
        split; [discriminate | intros [H _]; contradiction].
      + exists []. rewrite map_app.
        split; [exact Hdo |]. split; [| reflexivity].
        split; [intros _; split; [discriminate | reflexivity] | reflexivity]. }
  destruct (run_publishes_finished _ h m streamID s h' m' Hne Hs Hrun)
    as (s' & Hs' & Hf').
  exists s'. split; [exact Hs' |].
  rewrite Hf', Hfin, existsb_app, Hfinal. cbn [orb].
  rewrite orb_false_iff, negb_false_iff, bool_decide_eq_true.
  rewrite Htail. tauto.
Qed.

Lemma doHandler_finishes_witness :
  exists h' m' s',
    doHandler emptyHeap sampleManager
      (Some [(1, textChunk "Hel" false); (2, textChunk "lo" false)]) 3 sampleStreamID
    = Some (h', m')
    /\ streams m' !! sampleStreamID = Some s'
    /\ Finished s' = false.
Proof.
  destruct (doHandler emptyHeap sampleManager
              (Some [(1, textChunk "Hel" false); (2, textChunk "lo" false)]) 3
              sampleStreamID) as [[h' m'] |] eqn:Hdo;
    [| vm_compute in Hdo; discriminate Hdo].
  destruct (doHandler_finishes emptyHeap sampleManager sampleStreamID
              (mkStream 0%nat sampleStreamID "" "chat-1" "user-1" "" 0 0 false []
                        None anonymousMessage)
              [(1, textChunk "Hel" false); (2, textChunk "lo" false)] 3 h' m')
    as (s' & Hs' & Hiff).
  - vm_compute. discriminate.
  - vm_compute. reflexivity.
  - reflexivity.
  - exact Hdo.
  - exists h', m', s'. split; [reflexivity |]. split; [exact Hs' |].
    apply Hiff. split; [discriminate |]. split; reflexivity.
Defined.

(** ** The final message *)

(** [setFinalMessage] does nothing for a [msgid] the index does not know.
    For one it knows, with room in the queue, it publishes a final chunk:
    the session is finished, and the next poll returns what had been
    accumulated with the content appended to it, not the content alone. *)
Theorem setFinalMessage_appends (h : Heap) (m : StreamManager) (now : Z)
    (msgID content streamID : string) (s : Stream) :
  (msgIndex m !! msgID = None -> setFinalMessage h m now msgID content = Some (h, m))
  /\ (msgID <> ""%string -> msgIndex m !! msgID = Some streamID ->
      streamID <> ""%string -> streams m !! streamID = Some s ->
      (length (queue s) < queueCapacity)%nat ->
      exists h' m' s',
        setFinalMessage h m now msgID content = Some (h', m')
        /\ streams m' !! streamID = Some s'
        /\ Finished s' = true
        /\ forall now', exists m'' out,
             getLatestChunk m' now' streamID = (m'', Some out)
             /\ Content out = String.append (lastContent s) content
             /\ Payload out = None
             /\ IsFinal out = true).
Proof.
  split.
  - intros Hidx. unfold setFinalMessage, getStreamIDByMsg.
    destruct (String.eqb msgID ""); [reflexivity |]. rewrite Hidx. reflexivity.
  - intros Hid Hidx Hne Hs Hroom.
    unfold setFinalMessage, getStreamIDByMsg.
    rewrite (eqb_nonempty _ Hid), Hidx, (eqb_nonempty _ Hne). cbn [negb orb].
    destruct (publish_registered h m now streamID s (finalChunk content) Hne Hs)
      as (h' & full & Hc & Hp & Hf & Hpub).
    apply Nat.ltb_lt in Hroom. rewrite Hroom in Hpub. rewrite Hpub.
    cbn [finalChunk IsFinal] in Hf. rewrite Hf. 
    set (s1 := setFinished now (setQueue (queue s ++ [full]) (setLastChunk now full s))).
    exists h', (withStream m streamID s1), s1.
    split; [reflexivity |].
    split; [cbn [withStream streams]; apply lookup_insert_eq |].
    split; [reflexivity |]. intros now'.
    destruct (poll_returns_newest (withStream m streamID s1) now' streamID s1)
      as (m'' & out & Hget & (d & Hco & Hpo) & Hfin).
    + exact Hne.
    + cbn [withStream streams]. apply lookup_insert_eq.
    + cbn [s1 setFinished setQueue queue]. destruct (queue s); discriminate.
    + exists m'', out. split; [exact Hget |].
      cbn [s1 setFinished setQueue queue] in Hco, Hpo, Hfin.
      rewrite last_last in Hco, Hpo.
      split; [rewrite Hco, Hc; reflexivity |].
      split; [rewrite Hpo, Hp; reflexivity |].
      rewrite Hfin, existsb_app. cbn [existsb]. rewrite Hf. apply orb_true_r.
Qed.

Lemma setFinalMessage_appends_witness :
  let msg := mkMessage "msg-1" "chat-1" "user-1" "" "text" None in
  let m := (createOrGet (newStreamManager 60000000000 500000000) 0 sampleRandom msg).1 in
  exists h1 m1 h2 m2 out,
    publish emptyHeap m 1 sampleStreamID (textChunk "partial " false)
    = PublishReturns h1 m1 true
    /\ setFinalMessage h1 m1 2 "msg-1" "answer" = Some (h2, m2)
    /\ (getLatestChunk m2 3 sampleStreamID).2 = Some out
    /\ Content out = "partial answer"%string
    /\ IsFinal out = true.
Proof.
  intros msg m.
  destruct (publish emptyHeap m 1 sampleStreamID (textChunk "partial " false))
    as [h1 m1 ok | h1 m1] eqn:Hpub; [| vm_compute in Hpub; discriminate Hpub].
  assert (ok = true) as -> by (vm_compute in Hpub; injection Hpub as _ _ <-; reflexivity).
  destruct (streams m1 !! sampleStreamID) as [s |] eqn:Hs.
  2:{ vm_compute in Hpub. injection Hpub as _ <-. vm_compute in Hs. discriminate Hs. }
  assert (lastContent s = "partial "%string /\ length (queue s) = 1%nat) as [Hlast Hq].
  { vm_compute in Hpub. injection Hpub as _ <-. vm_compute in Hs.
    injection Hs as <-. split; reflexivity. }
  destruct (setFinalMessage_appends h1 m1 2 "msg-1" "answer" sampleStreamID s)
    as [_ Hknown].
  destruct Hknown as (h2 & m2 & s2 & Hset & _ & _ & Hpoll).
  - discriminate.
  - vm_compute in Hpub. injection Hpub as _ <-. vm_compute. reflexivity.
  - vm_compute. discriminate.
  - exact Hs.
  - rewrite Hq. unfold queueCapacity. lia.
  - destruct (Hpoll 3) as (m'' & out & Hget & Hco & _ & Hfin).
    exists h1, m1, h2, m2, out. split; [reflexivity |]. split; [exact Hset |].
    rewrite Hget. split; [reflexivity |]. rewrite Hco, Hlast. split; [reflexivity | exact Hfin].
Defined.

(** ** The URL verification request *)

Lemma decrypt_empty (c : Crypt) : isOk (decrypt c "") = false.
Proof.
  unfold decrypt. change (base64.DecodeString "") with (Ok (@nil byte)).
  cbv iota beta.
  destruct (aes.NewCipher (aesKey c)) as [b |]; [| reflexivity].
  cbn [mbind result_bind]. 
  change (len (@nil byte) mod aes.BlockSize =? 0) with true. cbn [negb].
  unfold cipher.CryptBlocks.
  destruct (negb (len (slice (aesKey c) 0 aes.BlockSize) =? aes.BlockSize));
    [reflexivity |].
  change (len (@nil byte) mod aes.BlockSize =? 0) with true. cbn [negb].
  reflexivity.
Qed.

Lemma DecodeString_rejects (s : string) :
  existsb (fun ch => negb (base64Char ch)) (list_byte_of_string s) = true ->
  exists e, base64.DecodeString s = Err e.
Proof.
  intros Hbad. unfold base64.DecodeString.
  destruct (base64.decodeLoop [] (list_byte_of_string s)) as [d | e] eqn:Hd;
    [| eauto].
  exfalso. apply decodeLoop_chars in Hd.
  apply existsb_exists in Hbad as (ch & Hin & Hch).
  rewrite forallb_forall in Hd. rewrite (Hd ch Hin) in Hch. discriminate Hch.
Qed.

Lemma strlen_nonempty (s : string) : 0 < strlen s -> String.eqb s "" = false.
Proof.
  intros H. destruct s; [discriminate H | reflexivity].
Qed.

(** What [handleGet] answers.  To an echo string made by [encrypt] and
    signed with the token, all four parameters present: 200 and the
    plaintext, as [text/plain].  To an echo string that holds a character
    outside Base64, a space or a ['%'], whatever the signature: 403. *)
Theorem handleGet_answers (tok encodingKey corp ts nonce : string) (c : Crypt) :
  NewCrypt tok encodingKey corp = Ok c ->
  ts <> ""%string -> nonce <> ""%string ->
  (forall random P, 16 <= len random -> 4 + len P < 2 ^ 32 ->
     exists e,
       encrypt c random P = Ok e
       /\ handleGet (Some c) (CalcSignature tok ts nonce e) ts nonce e
          = Ok {| StatusCode := 200;
                  Header := [("Content-Type", "text/plain; charset=utf-8")];
                  Body := P |})
  /\ (forall sig echostr, sig <> ""%string ->
        existsb (fun ch => negb (base64Char ch)) (list_byte_of_string echostr) = true ->
        handleGet (Some c) sig ts nonce echostr = Ok (http_Error "forbidden" 403)).
Proof.
  intros Hc Hts Hnonce.
  pose proof (NewCrypt_key_length _ _ _ _ Hc) as Hkey.
  destruct (NewCrypt_fields _ _ _ _ Hc) as (Htok & _ & _).
  split.
  - intros random P Hr HP.
    destruct (decrypt_encrypt_small c random P Hkey Hr HP) as (e & He & Hd).
    exists e. split; [exact He |]. unfold handleGet.
    destruct (CalcSignature_shape tok ts nonce e) as [Hlen _].
    rewrite (strlen_nonempty (CalcSignature tok ts nonce e)) by lia.
    rewrite (eqb_nonempty _ Hts), (eqb_nonempty _ Hnonce).
    assert (String.eqb e "" = false) as ->.
    { destruct (String.eqb_spec e "") as [-> | _]; [| reflexivity].
      pose proof (decrypt_empty c) as H0. rewrite Hd in H0. discriminate H0. }
    cbn [orb]. unfold VerifyURL. rewrite <- Htok.
    rewrite validateSignature_CalcSignature. cbn [negb].
    rewrite bind_Ok, Hd, bind_Ok, list_byte_of_string_of_list_byte. reflexivity.
  - intros sig echostr Hsig Hbad. unfold handleGet.
    rewrite (eqb_nonempty _ Hsig), (eqb_nonempty _ Hts), (eqb_nonempty _ Hnonce).
    assert (String.eqb echostr "" = false) as ->.
    { destruct echostr; [discriminate Hbad | reflexivity]. }
    cbn [orb]. unfold VerifyURL.
    destruct (validateSignature c sig ts nonce echostr); cbn [negb].
    + rewrite bind_Ok. unfold decrypt.
      destruct (DecodeString_rejects _ Hbad) as (e & ->). reflexivity.
    + destruct (url.QueryUnescape echostr) as [decoded | e]; [| reflexivity].
      destruct (validateSignature c sig ts nonce decoded); cbn [negb];
        [| reflexivity].
      rewrite bind_Ok. unfold decrypt.
      destruct (DecodeString_rejects _ Hbad) as (e & ->). reflexivity.
Qed.

Lemma handleGet_answers_witness :
  exists c,
    docCrypt = Ok c
    /\ handleGet (Some c) "0123456789abcdef0123456789abcdef01234567" "1409659813"
                 "1372623149" "RypEvHKD8QQKFhvQ6QleEB4J58tiPdvo rtK1I9qca6aM"
       = Ok (http_Error "forbidden" 403).
Proof.
  destruct docCrypt as [c | err] eqn:Hc; [| vm_compute in Hc; discriminate Hc].
  exists c. split; [reflexivity |].
  destruct (handleGet_answers _ _ _ "1409659813" "1372623149" c Hc) as [_ H403];
    [discriminate | discriminate |].
  apply H403; [discriminate | vm_compute; reflexivity].
Defined.

(** ** [cleanup] *)

Lemma cleanupVisit_fields (now : Z) (m : StreamManager) (entry : string * Stream) :
  ttl (cleanupVisit now m entry) = ttl m
  /\ timeout (cleanupVisit now m entry) = timeout m
  /\ allocated (cleanupVisit now m entry) = allocated m.
Proof.
  destruct entry as [streamID stream]. unfold cleanupVisit.
  destruct (negb (expired now (ttl m) stream)); auto.
Qed.

Lemma elem_of_fst_snoc (l : list (string * Stream)) (x : string * Stream) (k : string) :
  k ∈ (l ++ [x]).*1 <-> k ∈ l.*1 \/ k = x.1.
Proof.
  rewrite fmap_app, elem_of_app. cbn [fmap list_fmap]. rewrite list_elem_of_singleton.
  reflexivity.
Qed.

Lemma cleanupOver_spec (order : list (string * Stream)) (m : StreamManager) (now : Z) :
  NoDup order.*1 ->
  (forall k s, (k, s) ∈ order -> streams m !! k = Some s) ->
  ttl (cleanupOver order m now) = ttl m
  /\ timeout (cleanupOver order m now) = timeout m
  /\ allocated (cleanupOver order m now) = allocated m
  /\ (forall k,
        streams (cleanupOver order m now) !! k
        = match streams m !! k with
          | Some s =>
              if expired now (ttl m) s && bool_decide (k ∈ order.*1)
              then None else Some s
          | None => None
          end)
  /\ (forall msgID,
        msgIndex (cleanupOver order m now) !! msgID
        = match msgIndex m !! msgID with
          | Some k =>
              if unindexed now m msgID k && bool_decide (k ∈ order.*1)
              then None else Some k
          | None => None
          end).
Proof.
  unfold cleanupOver.
  induction order as [| [k0 s0] l IH] using rev_ind; intros Hnd Hin.
  - cbn [fold_left fmap list_fmap]. repeat split; try reflexivity.
    + intros k. destruct (streams m !! k) as [s |]; [| reflexivity].
      rewrite andb_false_r. reflexivity.
    + intros msgID. destruct (msgIndex m !! msgID) as [k |]; [| reflexivity].
      rewrite andb_false_r. reflexivity.
  - rewrite fold_left_app. cbn [fold_left].
    rewrite fmap_app in Hnd. apply NoDup_app in Hnd as (Hnd & Hfresh & _).
    assert (k0 ∉ l.*1) as Hk0.
    { intros Hk. apply (Hfresh k0 Hk).
      change ([(k0, s0)].*1) with [k0]. apply list_elem_of_singleton. reflexivity. }
    assert (streams m !! k0 = Some s0) as Hs0.
    { apply Hin. apply elem_of_app. right. apply list_elem_of_singleton. reflexivity. }
    destruct IH as (Httl & Hto & Hal & Hst & Hix); [exact Hnd | |].
    { intros k s Hks. apply Hin. apply elem_of_app. left. exact Hks. }
    set (mc := fold_left (cleanupVisit now) l m) in *.
    destruct (cleanupVisit_fields now mc (k0, s0)) as (Httl' & Hto' & Hal').
    split; [congruence |]. split; [congruence |]. split; [congruence |].
    assert (forall k, bool_decide (k ∈ (l ++ [(k0, s0)]).*1)
                      = bool_decide (k ∈ l.*1) || bool_decide (k = k0)) as Hmem.
    { intros k. apply eq_true_iff_eq.
      rewrite orb_true_iff, !bool_decide_eq_true. apply elem_of_fst_snoc. }
    unfold cleanupVisit. rewrite Httl.
    destruct (expired now (ttl m) s0) eqn:Hexp; cbn [negb].
    + (* the entry has expired *)
      cbn [streams msgIndex]. split.
      * intros k. rewrite Hmem.
        destruct (decide (k = k0)) as [-> | Hk].
        -- rewrite lookup_delete_eq, Hs0, Hexp.
           rewrite (bool_decide_eq_true_2 (k0 = k0)) by reflexivity.
           rewrite orb_true_r. reflexivity.
        -- rewrite lookup_delete_ne by congruence. rewrite Hst.
           rewrite (bool_decide_eq_false_2 (k = k0)) by exact Hk.
           rewrite orb_false_r. reflexivity.
      * intros msgID.
        destruct (msgIndex m !! msgID) as [k |] eqn:Hk.
        2:{ assert (msgIndex mc !! msgID = None) as Hnone by (rewrite Hix, Hk; reflexivity).
            destruct (negb (String.eqb (StreamMsgID s0) "")); [| exact Hnone].
            destruct (msgIndex mc !! StreamMsgID s0) as [mapped |]; [| exact Hnone].
            destruct (String.eqb mapped k0); [| exact Hnone].
            destruct (decide (msgID = StreamMsgID s0)) as [-> | Hmsg];
              [apply lookup_delete_eq |].
            rewrite lookup_delete_ne by congruence. exact Hnone. }
        rewrite Hmem.
        assert (msgIndex mc !! msgID
                = (if unindexed now m msgID k && bool_decide (k ∈ l.*1)
                   then None else Some k)) as Hmc by (rewrite Hix, Hk; reflexivity).
        assert (k = k0 -> msgIndex mc !! msgID = Some k0) as Hmine.
        { intros ->. rewrite Hmc.
          rewrite (bool_decide_eq_false_2 (k0 ∈ l.*1)) by exact Hk0.
          rewrite andb_false_r. reflexivity. }
        assert (unindexed now m msgID k0
                = String.eqb (StreamMsgID s0) msgID && negb (String.eqb msgID ""))
          as Hun by (unfold unindexed; rewrite Hs0, Hexp; reflexivity).
        assert (unindexed now m msgID k && bool_decide (k = k0) = false ->
                msgIndex mc !! msgID
                = (if unindexed now m msgID k
                      && (bool_decide (k ∈ l.*1) || bool_decide (k = k0))
                   then None else Some k)) as Hkeep.
        { intros Hf. rewrite Hmc, andb_orb_distrib_r, Hf, orb_false_r. reflexivity. }
        assert (StreamMsgID s0 <> msgID ->
                unindexed now m msgID k && bool_decide (k = k0) = false) as Hdiffers.
        { intros Hd. destruct (decide (k = k0)) as [-> | Hne].
          - rewrite Hun. destruct (String.eqb_spec (StreamMsgID s0) msgID);
              [contradiction | reflexivity].
          - rewrite (bool_decide_eq_false_2 (k = k0)) by exact Hne.
            apply andb_false_r. }
        destruct (String.eqb_spec (StreamMsgID s0) "") as [Hempty | Hnonempty];
          cbn [negb].
        -- (* a session without a msgid unindexes nothing *)
           apply Hkeep. destruct (decide (k = k0)) as [-> | Hne].
           ++ rewrite Hun, Hempty.
              destruct (String.eqb_spec "" msgID) as [<- | _]; reflexivity.
           ++ rewrite (bool_decide_eq_false_2 (k = k0)) by exact Hne.
              apply andb_false_r.
        -- destruct (msgIndex mc !! StreamMsgID s0) as [mapped |] eqn:Hmapped.
           ++ destruct (String.eqb_spec mapped k0) as [-> | Hdiff].
              ** (* the index leads to this session: the entry goes *)
                 destruct (decide (msgID = StreamMsgID s0)) as [-> | Hmsg].
                 --- rewrite lookup_delete_eq.
                     assert (k = k0) as ->.
                     { rewrite Hmc in Hmapped.
                       destruct (unindexed now m (StreamMsgID s0) k
                                 && bool_decide (k ∈ l.*1));
                         [discriminate Hmapped | congruence]. }
                     rewrite Hun, String.eqb_refl, (eqb_nonempty _ Hnonempty).
                     rewrite (bool_decide_eq_true_2 (k0 = k0)) by reflexivity.
                     rewrite orb_true_r. reflexivity.
                 --- rewrite lookup_delete_ne by congruence.
                     apply Hkeep, Hdiffers. congruence.
              ** (* the index leads elsewhere: nothing goes *)
                 apply Hkeep. destruct (decide (StreamMsgID s0 = msgID)) as [<- | Hd];
                   [| exact (Hdiffers Hd)].
                 destruct (decide (k = k0)) as [-> | Hne].
                 --- rewrite (Hmine eq_refl) in Hmapped. congruence.
                 --- rewrite (bool_decide_eq_false_2 (k = k0)) by exact Hne.
                     apply andb_false_r.
           ++ apply Hkeep. destruct (decide (StreamMsgID s0 = msgID)) as [<- | Hd];
                [| exact (Hdiffers Hd)].
              destruct (decide (k = k0)) as [-> | Hne].
              ** rewrite (Hmine eq_refl) in Hmapped. discriminate Hmapped.
              ** rewrite (bool_decide_eq_false_2 (k = k0)) by exact Hne.
                 apply andb_false_r.
    + (* the entry has not expired *)
      split.
      * intros k. rewrite Hst, Hmem.
        destruct (streams m !! k) as [s |] eqn:Hk; [| reflexivity].
        destruct (decide (k = k0)) as [-> | Hne].
        -- assert (s = s0) as -> by congruence. rewrite Hexp. reflexivity.
        -- rewrite (bool_decide_eq_false_2 (k = k0)) by exact Hne.
           rewrite orb_false_r. reflexivity.
      * intros msgID. rewrite Hix.
        destruct (msgIndex m !! msgID) as [k |] eqn:Hk; [| reflexivity].
        rewrite Hmem.
        destruct (decide (k = k0)) as [-> | Hne].
        -- unfold unindexed. rewrite Hs0, Hexp. reflexivity.
        -- rewrite (bool_decide_eq_false_2 (k = k0)) by exact Hne.
           rewrite orb_false_r. reflexivity.
Qed.

Lemma StreamManager_eq (m1 m2 : StreamManager) :
  streams m1 = streams m2 -> msgIndex m1 = msgIndex m2 -> ttl m1 = ttl m2 ->
  timeout m1 = timeout m2 -> allocated m1 = allocated m2 -> m1 = m2.
Proof. destruct m1, m2. cbn. intros -> -> -> -> ->. reflexivity. Qed.

Lemma cleanupOver_lookup (order : list (string * Stream)) (m : StreamManager) (now : Z) :
  order ≡ₚ map_to_list (streams m) ->
  ttl (cleanupOver order m now) = ttl m
  /\ timeout (cleanupOver order m now) = timeout m
  /\ allocated (cleanupOver order m now) = allocated m
  /\ (forall k,
        streams (cleanupOver order m now) !! k
        = match streams m !! k with
          | Some s => if expired now (ttl m) s then None else Some s
          | None => None
          end)
  /\ (forall msgID,
        msgIndex (cleanupOver order m now) !! msgID
        = match msgIndex m !! msgID with
          | Some k => if unindexed now m msgID k then None else Some k
          | None => None
          end).
Proof.
  intros Hperm.
  assert (forall k s, (k, s) ∈ order <-> streams m !! k = Some s) as Hin.
  { intros k s. rewrite Hperm. apply elem_of_map_to_list. }
  assert (NoDup order.*1) as Hnd.
  { rewrite Hperm. apply NoDup_fst_map_to_list. }
  destruct (cleanupOver_spec order m now Hnd) as (Httl & Hto & Hal & Hst & Hix).
  { intros k s. apply Hin. }
  assert (forall k s, streams m !! k = Some s -> bool_decide (k ∈ order.*1) = true) as Hmem.
  { intros k s Hk. apply bool_decide_eq_true. apply list_elem_of_fmap.
    exists (k, s). split; [reflexivity | apply Hin, Hk]. }
  split; [exact Httl |]. split; [exact Hto |]. split; [exact Hal |]. split.
  - intros k. rewrite Hst. destruct (streams m !! k) as [s |] eqn:Hk; [| reflexivity].
    rewrite (Hmem k s Hk), andb_true_r. reflexivity.
  - intros msgID. rewrite Hix.
    destruct (msgIndex m !! msgID) as [k |]; [| reflexivity].
    unfold unindexed. destruct (streams m !! k) as [s |] eqn:Hk; [| reflexivity].
    rewrite (Hmem k s Hk), andb_true_r. reflexivity.
Qed.

(** [cleanup] comes out the same in whatever order the table is walked:
    a session stays exactly when it has not expired, and an index entry
    goes exactly when it leads to an expired session whose [MsgID] it is;
    the durations and the allocation count are untouched. *)
Theorem cleanup_any_order (order : list (string * Stream)) (m : StreamManager)
    (now : Z) :
  order ≡ₚ map_to_list (streams m) ->
  cleanupOver order m now = cleanup m now
  /\ (forall streamID,
        streams (cleanup m now) !! streamID
        = match streams m !! streamID with
          | Some s => if expired now (ttl m) s then None else Some s
          | None => None
          end)
  /\ (forall msgID,
        msgIndex (cleanup m now) !! msgID
        = match msgIndex m !! msgID with
          | Some streamID =>
              if unindexed now m msgID streamID then None else Some streamID
          | None => None
          end)
  /\ ttl (cleanup m now) = ttl m /\ timeout (cleanup m now) = timeout m
  /\ allocated (cleanup m now) = allocated m.
Proof.
  intros Hperm.
  destruct (cleanupOver_lookup order m now Hperm) as (Httl & Hto & Hal & Hst & Hix).
  destruct (cleanupOver_lookup (map_to_list (streams m)) m now (reflexivity _))
    as (Httl' & Hto' & Hal' & Hst' & Hix').
  fold (cleanup m now) in Httl', Hto', Hal', Hst', Hix'.
  split; [| auto 10].
  apply StreamManager_eq; try congruence.
  - apply map_eq. intros k. rewrite Hst, Hst'. reflexivity.
  - apply map_eq. intros k. rewrite Hix, Hix'. reflexivity.
Qed.

(** ** The index and the table *)

Lemma indexed_new (ttl timeout : Z) : indexed (newStreamManager ttl timeout).
Proof.
  split.
  - intros msgID streamID H. cbn [newStreamManager msgIndex] in H.
    rewrite lookup_empty in H. discriminate H.
  - intros streamID s H. cbn [newStreamManager streams] in H.
    rewrite lookup_empty in H. discriminate H.
Qed.

Lemma indexed_withStream (m : StreamManager) (key : string) (s s' : Stream) :
  indexed m -> streams m !! key = Some s ->
  StreamID s' = StreamID s -> StreamMsgID s' = StreamMsgID s ->
  indexed (withStream m key s').
Proof.
  intros [Hix Hst] Hs Hid Hmsg. split; cbn [withStream streams msgIndex].
  - intros msgID k Hk. destruct (Hix msgID k Hk) as (H1 & H2 & s0 & Hs0 & Hm0).
    split; [exact H1 |]. split; [exact H2 |].
    destruct (decide (k = key)) as [-> | Hne].
    + exists s'. rewrite lookup_insert_eq. split; [reflexivity |]. congruence.
    + exists s0. rewrite lookup_insert_ne by congruence. auto.
  - intros k s0 Hk. destruct (decide (k = key)) as [-> | Hne].
    + rewrite lookup_insert_eq in Hk. injection Hk as <-.
      rewrite Hid, Hmsg. exact (Hst key s Hs).
    + rewrite lookup_insert_ne in Hk by congruence. exact (Hst k s0 Hk).
Qed.

Lemma indexed_createOrGet (m : StreamManager) (now : Z) (random : list byte)
    (msg : Message) :
  indexed m -> freshDraw m (CallCreateOrGet now random msg) = true ->
  indexed (createOrGet m now random msg).1.
Proof.
  intros Hm Hfresh. pose proof Hm as [Hix Hst].
  unfold freshDraw in Hfresh. revert Hfresh.
  unfold createOrGet, getStreamIDByMsg.
  destruct (String.eqb_spec (MsgID msg) "") as [Hempty | Hid]; cbn [negb].
  - (* no msgid: a new session, the index as it was *)
    cbn [orb fst StreamID streams]. intros Hfresh.
    apply bool_decide_eq_true in Hfresh.
    split; cbn [streams msgIndex].
    + intros msgID k Hk. destruct (Hix msgID k Hk) as (H1 & H2 & s0 & Hs0 & Hm0).
      split; [exact H1 |]. split; [exact H2 |].
      exists s0. rewrite lookup_insert_ne by congruence. auto.
    + intros k s0 Hk.
      destruct (decide (k = generateStreamID random now)) as [-> | Hne].
      * rewrite lookup_insert_eq in Hk. injection Hk as <-.
        cbn [StreamID StreamMsgID]. split; [reflexivity |]. contradiction.
      * rewrite lookup_insert_ne in Hk by congruence. exact (Hst k s0 Hk).
  - destruct (msgIndex m !! MsgID msg) as [key |] eqn:Hidx.
    + (* the index knows the msgid: by the invariant the session is there *)
      destruct (Hix _ _ Hidx) as (_ & Hkey & s0 & Hs0 & Hm0).
      rewrite (getStream_lookup _ _ Hkey), Hs0.
      cbn [fmap option_fmap option_map fst]. intros _.
      apply (indexed_withStream m key s0); auto.
    + (* a new session, indexed under its msgid *)
      cbn [orb fst StreamID streams]. intros Hfresh.
      apply bool_decide_eq_true in Hfresh.
      split; cbn [streams msgIndex].
      * intros msgID k Hk.
        destruct (decide (msgID = MsgID msg)) as [-> | Hne].
        -- rewrite lookup_insert_eq in Hk. injection Hk as <-.
           split; [exact Hid |]. split; [apply generateStreamID_nonempty |].
           eexists. rewrite lookup_insert_eq. split; reflexivity.
        -- rewrite lookup_insert_ne in Hk by congruence.
           destruct (Hix msgID k Hk) as (H1 & H2 & s0 & Hs0 & Hm0).
           split; [exact H1 |]. split; [exact H2 |].
           exists s0. rewrite lookup_insert_ne by congruence. auto.
      * intros k s0 Hk.
        destruct (decide (k = generateStreamID random now)) as [-> | Hne].
        -- rewrite lookup_insert_eq in Hk. injection Hk as <-.
           cbn [StreamID StreamMsgID]. split; [reflexivity |].
           intros _. apply lookup_insert_eq.
        -- rewrite lookup_insert_ne in Hk by congruence.
           destruct (Hst k s0 Hk) as [H1 H2]. split; [exact H1 |].
           intros Hs0. specialize (H2 Hs0).
           rewrite lookup_insert_ne; [exact H2 |]. congruence.
Qed.

Lemma indexed_publish (h : Heap) (m : StreamManager) (now : Z) (streamID : string)
    (chunk : Chunk) (h' : Heap) (m' : StreamManager) (ok : bool) :
  indexed m -> publish h m now streamID chunk = PublishReturns h' m' ok ->
  indexed m'.
Proof.
  intros Hm. unfold publish, getStream.
  destruct (String.eqb_spec streamID "") as [-> | Hne].
  { intros H. injection H as _ <- _. exact Hm. }
  destruct (streams m !! streamID) as [s |] eqn:Hs.
  2:{ intros H. injection H as _ <- _. exact Hm. }
  destruct (publishLocked_spec h now s chunk) as (h1 & full & -> & _).
  cbn [queue setLastChunk].
  destruct (length (queue s) <? queueCapacity)%nat; [| discriminate].
  intros H. injection H as _ <- _.
  apply (indexed_withStream m streamID s); [exact Hm | exact Hs | |];
    destruct (IsFinal full); reflexivity.
Qed.

Lemma indexed_getLatestChunk (m : StreamManager) (now : Z) (streamID : string) :
  indexed m -> indexed (getLatestChunk m now streamID).1.
Proof.
  intros Hm. unfold getLatestChunk, getStream.
  destruct (String.eqb_spec streamID "") as [-> | Hne]; [exact Hm |].
  destruct (streams m !! streamID) as [s |] eqn:Hs; [| exact Hm].
  cbn [touch queue]. destruct (queue s) as [| first rest].
  - apply (indexed_withStream m streamID s); auto.
  - destruct (drain first (IsFinal first) rest) as [latest finalSeen].
    cbn [fst]. apply (indexed_withStream m streamID s); [exact Hm | exact Hs | |];
      destruct finalSeen; cbn [setIsFinal IsFinal]; try destruct (IsFinal latest);
      reflexivity.
Qed.

Lemma indexed_markFinished (m : StreamManager) (now : Z) (streamID : string) :
  indexed m -> indexed (markFinished m now streamID).
Proof.
  intros Hm. unfold markFinished, getStream.
  destruct (String.eqb_spec streamID "") as [-> | Hne]; [exact Hm |].
  destruct (streams m !! streamID) as [s |] eqn:Hs; [| exact Hm].
  apply (indexed_withStream m streamID s); auto.
Qed.

Lemma indexed_cleanup (m : StreamManager) (now : Z) :
  indexed m -> indexed (cleanup m now).
Proof.
  intros [Hix Hst].
  destruct (cleanupOver_lookup (map_to_list (streams m)) m now (reflexivity _))
    as (_ & _ & _ & Hs' & Hi').
  fold (cleanup m now) in Hs', Hi'. split.
  - intros msgID k Hk. rewrite Hi' in Hk.
    destruct (msgIndex m !! msgID) as [k0 |] eqn:Hk0; [| discriminate Hk].
    destruct (unindexed now m msgID k0) eqn:Hun; [discriminate Hk |].
    injection Hk as <-.
    destruct (Hix msgID k0 Hk0) as (H1 & H2 & s0 & Hs0 & Hm0).
    split; [exact H1 |]. split; [exact H2 |]. exists s0. split; [| exact Hm0].
    rewrite Hs', Hs0. unfold unindexed in Hun. rewrite Hs0, Hm0 in Hun.
    rewrite String.eqb_refl, (eqb_nonempty _ H1) in Hun.
    destruct (expired now (ttl m) s0); [discriminate Hun | reflexivity].
  - intros k s Hk. rewrite Hs' in Hk.
    destruct (streams m !! k) as [s0 |] eqn:Hs0; [| discriminate Hk].
    destruct (expired now (ttl m) s0) eqn:Hexp; [discriminate Hk |].
    injection Hk as <-. destruct (Hst k s0 Hs0) as [H1 H2].
    split; [exact H1 |]. intros Hmsg. rewrite Hi', (H2 Hmsg).
    unfold unindexed. rewrite Hs0, Hexp. reflexivity.
Qed.

Lemma indexed_exec (h : Heap) (m : StreamManager) (c : call)
    (h' : Heap) (m' : StreamManager) :
  indexed m -> freshDraw m c = true -> exec (h, m) c = Some (h', m') -> indexed m'.
Proof.
  intros Hm Hfresh Hexec.
  destruct c as [now random msg | now streamID chunk | now streamID
                 | now streamID | now]; cbn [exec] in Hexec.
  - injection Hexec as _ <-. apply indexed_createOrGet; assumption.
  - destruct (publish h m now streamID chunk) as [h1 m1 ok |] eqn:Hp;
      [| discriminate Hexec].
    injection Hexec as _ <-. exact (indexed_publish _ _ _ _ _ _ _ _ Hm Hp).
  - injection Hexec as _ <-. apply indexed_getLatestChunk, Hm.
  - injection Hexec as _ <-. apply indexed_markFinished, Hm.
  - injection Hexec as _ <-. apply indexed_cleanup, Hm.
Qed.

(** Whatever the bot has done with a stream manager since it was made,
    one call at a time, each complete before the next begins, and as
    long as every new session drew an id not in the table, the index and
    the table agree; in particular no two sessions in the table have the
    same non-empty [MsgID].  Calls of [createOrGet] that overlap break
    this: both may open a session for the one [msgid]. *)
Theorem index_agrees_with_table (ttl timeout : Z) (h h' : Heap)
    (calls : list call) (m' : StreamManager) :
  freshDraws (h, newStreamManager ttl timeout) calls = true ->
  execAll (h, newStreamManager ttl timeout) calls = Some (h', m') ->
  indexed m'
  /\ forall k1 k2 s1 s2,
       streams m' !! k1 = Some s1 -> streams m' !! k2 = Some s2 ->
       StreamMsgID s1 <> ""%string -> StreamMsgID s1 = StreamMsgID s2 ->
       k1 = k2.
Proof.
  intros Hfresh Hexec.
  assert (indexed m') as Hm'.
  { pose proof (indexed_new ttl timeout) as Hm. revert Hm Hfresh Hexec.
    generalize (newStreamManager ttl timeout) as m. revert h.
    induction calls as [| c rest IH]; intros h m Hm Hfresh Hexec.
    - injection Hexec as _ <-. exact Hm.
    - cbn [freshDraws execAll snd] in Hfresh, Hexec.
      apply andb_prop in Hfresh as [Hc Hrest].
      destruct (exec (h, m) c) as [[h1 m1] |] eqn:Hstep; [| discriminate Hexec].
      apply (IH h1 m1); [| exact Hrest | exact Hexec].
      exact (indexed_exec h m c h1 m1 Hm Hc Hstep). }
  split; [exact Hm' |].
  intros k1 k2 s1 s2 H1 H2 Hne Heq. destruct Hm' as [_ Hst].
  destruct (Hst k1 s1 H1) as [_ Hi1]. destruct (Hst k2 s2 H2) as [_ Hi2].
  specialize (Hi1 Hne). rewrite Heq in Hne, Hi1. specialize (Hi2 Hne). congruence.
Qed.

Lemma cleanup_any_order_witness :
  cleanupOver (reverse (map_to_list (streams twoSessions))) twoSessions 70000000000
  = cleanup twoSessions 70000000000
  /\ streams (cleanup twoSessions 70000000000) !! sampleStreamID = None
  /\ msgIndex (cleanup twoSessions 70000000000) !! "msg-a" = None
  /\ msgIndex (cleanup twoSessions 70000000000) !! "msg-b"
     = Some "00000000000000000000000000000000"%string.
Proof.
  destruct (cleanup_any_order (reverse (map_to_list (streams twoSessions)))
              twoSessions 70000000000 (reverse_Permutation _))
    as (Heq & Hst & Hix & _).
  split; [exact Heq |]. rewrite Hst, !Hix.
  split; [vm_compute; reflexivity |]. split; vm_compute; reflexivity.
Defined.

(** After [cleanup] an expired session is gone for every caller: nothing
    is found under its stream id or its [msgid], a publish to it returns
    false and changes nothing, a poll returns nothing, and its message,
    delivered again, opens a new session.  Sessions that have not expired
    are as they were. *)
Theorem expired_session_is_forgotten (m : StreamManager) (now : Z)
    (streamID : string) (s : Stream) :
  indexed m -> streams m !! streamID = Some s -> expired now (ttl m) s = true ->
  streams (cleanup m now) !! streamID = None
  /\ getStreamIDByMsg (cleanup m now) (StreamMsgID s) = (""%string, false)
  /\ (forall h now' chunk,
        publish h (cleanup m now) now' streamID chunk
        = PublishReturns h (cleanup m now) false)
  /\ (forall now', getLatestChunk (cleanup m now) now' streamID
                   = (cleanup m now, None))
  /\ (forall now' random msg,
        MsgID msg = StreamMsgID s ->
        (createOrGet (cleanup m now) now' random msg).2.2 = true)
  /\ (forall k s0, streams m !! k = Some s0 -> expired now (ttl m) s0 = false ->
        streams (cleanup m now) !! k = Some s0).
Proof.
  intros [Hix Hst] Hs Hexp.
  destruct (cleanupOver_lookup (map_to_list (streams m)) m now (reflexivity _))
    as (_ & _ & _ & Hs' & Hi').
  fold (cleanup m now) in Hs', Hi'.
  assert (streams (cleanup m now) !! streamID = None) as Hgone
    by (rewrite Hs', Hs, Hexp; reflexivity).
  assert (getStream (cleanup m now) streamID = None) as Hget
    by (unfold getStream; destruct (String.eqb streamID ""); [reflexivity | exact Hgone]).
  assert (getStreamIDByMsg (cleanup m now) (StreamMsgID s) = (""%string, false)) as Hmsg.
  { unfold getStreamIDByMsg.
    destruct (String.eqb_spec (StreamMsgID s) "") as [_ | Hne]; [reflexivity |].
    destruct (Hst streamID s Hs) as [_ Hidx]. rewrite Hi', (Hidx Hne).
    unfold unindexed. rewrite Hs, Hexp, String.eqb_refl, (eqb_nonempty _ Hne).
    reflexivity. }
  split; [exact Hgone |]. split; [exact Hmsg |]. split; [| split; [| split]].
  - intros h now' chunk. unfold publish. rewrite Hget. reflexivity.
  - intros now'. unfold getLatestChunk. rewrite Hget.
    destruct (String.eqb streamID ""); reflexivity.
  - intros now' random msg Hsame. unfold createOrGet. rewrite Hsame, Hmsg.
    destruct (negb (String.eqb (StreamMsgID s) "")); reflexivity.
  - intros k s0 Hk Hlive. rewrite Hs', Hk, Hlive. reflexivity.
Qed.

Lemma expired_session_is_forgotten_witness :
  exists s,
    streams twoSessions !! sampleStreamID = Some s
    /\ StreamMsgID s = "msg-a"%string
    /\ getStreamIDByMsg twoSessions "msg-a" = (sampleStreamID, true)
    /\ getStreamIDByMsg (cleanup twoSessions 70000000000) "msg-a" = (""%string, false)
    /\ publish emptyHeap (cleanup twoSessions 70000000000) 70000000001 sampleStreamID
               (textChunk "late" true)
       = PublishReturns emptyHeap (cleanup twoSessions 70000000000) false.
Proof.
  destruct (streams twoSessions !! sampleStreamID) as [s |] eqn:Hs;
    [| vm_compute in Hs; discriminate Hs].
  assert (StreamMsgID s = "msg-a"%string /\ LastAccess s = 0) as [Hmsg Hlast].
  { vm_compute in Hs. injection Hs as <-. split; reflexivity. }
  assert (indexed twoSessions) as Hm.
  { unfold twoSessions. apply indexed_createOrGet.
    - apply indexed_createOrGet; [apply indexed_new | vm_compute; reflexivity].
    - vm_compute. reflexivity. }
  destruct (expired_session_is_forgotten twoSessions 70000000000 sampleStreamID s
              Hm Hs) as (_ & Hidx & Hpub & _).
  { unfold expired. rewrite Hlast. vm_compute. reflexivity. }
  exists s. split; [reflexivity |]. split; [exact Hmsg |].
  split; [vm_compute; reflexivity |].
  rewrite Hmsg in Hidx. split; [exact Hidx | apply Hpub].
Defined.

Lemma index_agrees_with_table_witness :
  exists h' m',
    execAll (emptyHeap, newStreamManager 60000000000 500000000)
      [CallCreateOrGet 0 sampleRandom firstMessage;
       CallPublish 1 sampleStreamID (textChunk "Hi" true);
       CallCreateOrGet 2 (repeat x00 16) firstMessage;
       CallCreateOrGet 50000000000 (repeat x00 16) secondMessage;
       CallGetLatestChunk 50000000001 sampleStreamID;
       CallCleanup 70000000000]
    = Some (h', m')
    /\ indexed m'.
Proof.
  destruct (execAll (emptyHeap, newStreamManager 60000000000 500000000)
      [CallCreateOrGet 0 sampleRandom firstMessage;
       CallPublish 1 sampleStreamID (textChunk "Hi" true);
       CallCreateOrGet 2 (repeat x00 16) firstMessage;
       CallCreateOrGet 50000000000 (repeat x00 16) secondMessage;
       CallGetLatestChunk 50000000001 sampleStreamID;
       CallCleanup 70000000000]) as [[h' m'] |] eqn:Hexec;
    [| vm_compute in Hexec; discriminate Hexec].
  exists h', m'. split; [reflexivity |].
  refine (proj1 (index_agrees_with_table 60000000000 500000000 emptyHeap h' _ m'
                   _ Hexec)).
  vm_compute. reflexivity.
Defined.

(** ** Image items *)

Lemma put_le_length (width : nat) (x : Z) : length (md5.put_le width x) = width.
Proof. unfold md5.put_le. rewrite length_map, length_seq. reflexivity. Qed.

Lemma md5_Sum_length (data : list byte) : length (md5.Sum data) = 16%nat.
Proof.
  unfold md5.Sum. rewrite !length_app, !put_le_length. reflexivity.
Qed.

Lemma EncodeToString_nonempty (src : list byte) :
  src <> [] -> String.eqb (base64.EncodeToString src) "" = false.
Proof.
  intros H. unfold base64.EncodeToString.
  destruct src as [| a [| b [| c rest]]]; [contradiction | | |]; reflexivity.
Qed.

(** [BuildStreamImageItemFromBytes] never fails.  It allocates one image
    payload and touches nothing else; the item is an [image] item with no
    text, and its payload has no URL, the image in Base64, from which the
    image is decoded back, and 32 hexadecimal digits of MD5.  Encoded in a
    reply, the item has no [url] key, and no [base64] key either when the
    image is empty. *)
Theorem BuildStreamImageItemFromBytes_item (h : Heap) (img : list byte) :
  exists h' p payload,
    BuildStreamImageItemFromBytes h img = (h', Ok (mkItem "image" None (Some p)))
    /\ images h !! p = None /\ images h' !! p = Some payload
    /\ (forall q, (q < length (images h))%nat -> images h' !! q = images h !! q)
    /\ texts h' = texts h /\ arrays h' = arrays h
    /\ ImageURL payload = ""%string
    /\ base64.DecodeString (ImageBase64 payload) = Ok img
    /\ ImageMD5 payload = hex.EncodeToString (md5.Sum img)
    /\ strlen (ImageMD5 payload) = 32
    /\ MixedItem_json h' (mkItem "image" None (Some p))
       = JObject [("msgtype", JString "image");
                  ("image",
                   JObject ((match img with
                             | [] => []
                             | _ => [("base64", JString (ImageBase64 payload))]
                             end)
                            ++ [("md5", JString (ImageMD5 payload))]))].
Proof.
  unfold BuildStreamImageItemFromBytes.
  eexists _, _, (mkImage "" (base64.EncodeToString img)
                         (hex.EncodeToString (md5.Sum img))).
  split; [reflexivity |].
  cbn [images texts arrays ImageURL ImageBase64 ImageMD5].
  split; [apply lookup_ge_None_2; lia |].
  split; [apply list_lookup_middle; reflexivity |].
  split; [intros q Hq; apply lookup_app_l; exact Hq |].
  split; [reflexivity |]. split; [reflexivity |]. split; [reflexivity |].
  split; [apply base64_DecodeString_EncodeToString |].
  split; [reflexivity |]. split.
  - unfold strlen, hex.EncodeToString, len.
    rewrite list_byte_of_string_of_list_byte, hex_Encode_length, md5_Sum_length.
    reflexivity.
  - unfold MixedItem_json. cbn [ItemMsgType ItemText ItemImage images].
    rewrite list_lookup_middle by reflexivity.
    cbn [from_option app]. unfold ImagePayload_json.
    cbn [ImageURL ImageBase64 ImageMD5].
    change (omitemptyString "url" "") with (@nil (string * json)). cbn [app].
    assert (String.eqb (hex.EncodeToString (md5.Sum img)) "" = false) as Hmd5.
    { apply strlen_nonempty. unfold strlen, hex.EncodeToString, len.
      rewrite list_byte_of_string_of_list_byte, hex_Encode_length, md5_Sum_length.
      lia. }
    unfold omitemptyString. rewrite Hmd5.
    destruct img as [| a img]; [reflexivity |].
    rewrite EncodeToString_nonempty by discriminate. reflexivity.
Qed.

(** ** What [publish] keeps of a chunk's items *)

Lemma elems_clone (h : Heap) (items : Slice) :
  validSlice h items = true ->
  let '(h1, cloned) := make h (slen items) in
  let h2 := copy h1 cloned items in
  elems h2 cloned = elems h items
  /\ forall i v h'',
       storeItem h2 items i v = Ok h'' -> elems h'' cloned = elems h2 cloned.
Proof.
  intros Hv. pose proof (clone_elems h items Hv) as Hclone.
  destruct (make h (slen items)) as [h1 cloned].
  destruct Hclone as (-> & Ht & Hi & Ha).
  set (h2 := copy h1 (SliceOf (length (arrays h)) 0 (slen items)) items) in *.
  split.
  - cbn [elems]. rewrite Ha. rewrite list_lookup_middle by reflexivity.
    cbn [default from_option id]. rewrite drop_0.
    apply firstn_all2. rewrite elems_length by assumption. lia.
  - intros i v h'' Hstore.
    destruct items as [| a off n]; [discriminate Hstore |].
    cbn [storeItem] in Hstore. destruct (i <? n)%nat; [| discriminate Hstore].
    injection Hstore as <-. cbn [writeArray elems arrays].
    cbn [validSlice] in Hv.
    destruct (arrays h !! a) as [arr |] eqn:Harr; [| discriminate].
    apply lookup_lt_Some in Harr.
    rewrite list_lookup_insert_ne by lia. reflexivity.
Qed.

Lemma publishLocked_items (h : Heap) (now : Z) (s : Stream) (chunk : Chunk) :
  validSlice h (MsgItems chunk) = true ->
  exists h' full,
    publishLocked h now s chunk = (h', setLastChunk now full s, full)
    /\ (hasPayload chunk = true -> MsgItems full = NilSlice /\ h' = h)
    /\ (hasPayload chunk = false ->
        elems h' (MsgItems full) = elems h (MsgItems chunk)
        /\ forall i v h'',
             storeItem h' (MsgItems chunk) i v = Ok h'' ->
             elems h'' (MsgItems full) = elems h' (MsgItems full)).
Proof.
  intros Hv.
  assert (forall c0 : Chunk, MsgItems c0 = MsgItems chunk ->
            exists h' full,
              (let '(h1, fullChunk) :=
                 if (0 <? slen (MsgItems c0))%nat
                 then let '(h1, cloned) := make h (slen (MsgItems c0)) in
                      (copy h1 cloned (MsgItems c0), setMsgItems c0 cloned)
                 else (h, c0) in
               (h1, setLastChunk now fullChunk s, fullChunk))
              = (h', setLastChunk now full s, full)
              /\ elems h' (MsgItems full) = elems h (MsgItems chunk)
              /\ forall i v h'',
                   storeItem h' (MsgItems chunk) i v = Ok h'' ->
                   elems h'' (MsgItems full) = elems h' (MsgItems full)) as Hgen.
  { intros c0 Hitems. rewrite Hitems.
    destruct (0 <? slen (MsgItems chunk))%nat eqn:Hpos.
    - pose proof (elems_clone h (MsgItems chunk) Hv) as Hclone.
      destruct (make h (slen (MsgItems chunk))) as [h1 cloned].
      destruct Hclone as [He Hst].
      eexists _, _. split; [reflexivity |]. split; [exact He | exact Hst].
    - exists h, c0. split; [reflexivity |]. rewrite Hitems.
      split; [reflexivity |]. intros i v h'' Hstore.
      destruct (MsgItems chunk) as [| a off n]; [reflexivity |].
      cbn [slen] in Hpos. apply Nat.ltb_ge in Hpos.
      assert (n = 0%nat) as -> by lia. reflexivity. }
  unfold publishLocked, hasPayload.
  destruct (Payload chunk) as [p |] eqn:Hp.
  - cbn [setMsgItems setContent MsgItems slen Nat.ltb Nat.leb].
    eexists h, _. split; [reflexivity |]. split; [auto | discriminate].
  - destruct (LastChunk s) as [last |].
    + destruct (Hgen (setContent chunk (Content last ++ Content chunk)) eq_refl)
        as (h' & full & Hpl & He & Hst).
      exists h', full. split; [exact Hpl |]. split; [discriminate | auto].
    + destruct (Hgen chunk eq_refl) as (h' & full & Hpl & He & Hst).
      exists h', full. split; [exact Hpl |]. split; [discriminate | auto].
Qed.

(** The snapshot [publish] queues does not share the array of the
    caller's items: it shows the elements as they were at the call, and a
    later assignment to an element of the caller's slice does not change
    it.  A chunk that carries a payload is queued without items. *)
Theorem publish_snapshots_items (h : Heap) (m : StreamManager) (now : Z)
    (streamID : string) (s : Stream) (chunk : Chunk) :
  streamID <> ""%string -> streams m !! streamID = Some s ->
  (length (queue s) < queueCapacity)%nat ->
  validSlice h (MsgItems chunk) = true ->
  exists h' s' full,
    publish h m now streamID chunk
    = PublishReturns h' (withStream m streamID s') true
    /\ queue s' = queue s ++ [full] /\ LastChunk s' = Some full
    /\ (hasPayload chunk = true -> MsgItems full = NilSlice /\ h' = h)
    /\ (hasPayload chunk = false ->
        elems h' (MsgItems full) = elems h (MsgItems chunk)
        /\ forall i v h'',
             storeItem h' (MsgItems chunk) i v = Ok h'' ->
             elems h'' (MsgItems full) = elems h' (MsgItems full)).
Proof.
  intros Hne Hs Hroom Hv.
  destruct (publishLocked_items h now s chunk Hv) as (h' & full & Hpl & Hpay & Hitems).
  unfold publish. rewrite (getStream_lookup _ _ Hne), Hs, Hpl.
  cbn [queue setLastChunk]. apply Nat.ltb_lt in Hroom. rewrite Hroom.
  eexists h', _, full. split; [reflexivity |].
  split; [destruct (IsFinal full); reflexivity |].
  split; [destruct (IsFinal full); reflexivity |].
  split; [exact Hpay | exact Hitems].
Qed.

Lemma publish_snapshots_items_witness :
  exists h' s' full,
    publish sampleHeap sampleManager 1 sampleStreamID
            (mkChunk "see the picture" sampleItems None true)
    = PublishReturns h' (withStream sampleManager sampleStreamID s') true
    /\ LastChunk s' = Some full
    /\ elems h' (MsgItems full) = [mkItem "image" None (Some 0%nat)]
    /\ forall h'',
         storeItem h' sampleItems 0 (mkItem "text" (Some 0%nat) None) = Ok h'' ->
         elems h'' (MsgItems full) = [mkItem "image" None (Some 0%nat)].
Proof.
  destruct (publish_snapshots_items sampleHeap sampleManager 1 sampleStreamID
              (mkStream 0%nat sampleStreamID "" "chat-1" "user-1" "" 0 0 false []
                        None anonymousMessage)
              (mkChunk "see the picture" sampleItems None true))
    as (h' & s' & full & Hpub & _ & Hlast & _ & Hitems).
  - vm_compute. discriminate.
  - vm_compute. reflexivity.
  - cbn. unfold queueCapacity. lia.
  - reflexivity.
  - destruct (Hitems eq_refl) as [He Hst].
    exists h', s', full. split; [exact Hpub |]. split; [exact Hlast |].
    split; [exact He |]. intros h'' Hs. rewrite (Hst _ _ _ Hs). exact He.
Defined.

(** ** Durations from the environment *)

Example Atoi_samples :
  map (strconv_Atoi 64)
      ["60"; "+7"; "-3"; "007"; ""; "+"; "1_000"; "12s"; " 5";
       "9223372036854775807"; "9223372036854775808";
       "-9223372036854775808"]%string
  = [Some 60; Some 7; Some (-3); Some 7; None; None; None; None; None;
     Some 9223372036854775807; None; Some (-9223372036854775808)].
Proof. vm_compute. reflexivity. Qed.

Example Atoi_samples_32 :
  map (strconv_Atoi 32)
      ["60"; "2147483647"; "2147483648"; "-2147483648"; "9223372037"]%string
  = [Some 60; Some 2147483647; None; Some (-2147483648); None].
Proof. vm_compute. reflexivity. Qed.

Lemma strconv_Atoi_range (intSize : Z) (s : string) (v : Z) :
  strconv_Atoi intSize s = Some v ->
  - 2 ^ (intSize - 1) <= v <= 2 ^ (intSize - 1) - 1.
Proof.
  unfold strconv_Atoi.
  destruct (match list_byte_of_string s with
            | [] => (false, [])
            | ch :: rest =>
                if byte_eqb ch "-" then (true, rest)
                else if byte_eqb ch "+" then (false, rest)
                else (false, list_byte_of_string s)
            end) as [neg digits].
  destruct digits as [| d digits]; [discriminate |].
  destruct (digitsValue 0 (d :: digits)) as [n |]; [| discriminate].
  cbv zeta.
  destruct (Z.leb_spec (- 2 ^ (intSize - 1)) (if neg then - n else n));
    [| discriminate].
  destruct (Z.leb_spec (if neg then - n else n) (2 ^ (intSize - 1) - 1));
    [| discriminate].
  cbn [andb]. intros [= <-]. lia.
Qed.

(** [resolveDuration], case by case.  A positive parameter is returned
    as it is.  Otherwise, when the environment variable holds a decimal
    number within [int] that is positive, the result is that many seconds
    in nanoseconds, an [int64] product that is exact up to 9223372036
    seconds; in every other case it is the default.  So with a positive
    default the result is positive as long as the seconds do not exceed
    that bound, which they cannot where [int] has 32 bits.  Where it has
    64 bits, 9223372037 seconds wrap to a negative duration; where it has
    32, that text does not parse and the result is the default. *)
Theorem resolveDuration_positive (intSize : Z) (getenv : string -> string)
    (paramVal : Z) (envKey : string) (defaultVal : Z) :
  intSize = 32 \/ intSize = 64 ->
  (0 < paramVal ->
   resolveDuration intSize getenv paramVal envKey defaultVal = paramVal)
  /\ (paramVal <= 0 -> getenv envKey = ""%string ->
      resolveDuration intSize getenv paramVal envKey defaultVal = defaultVal)
  /\ (paramVal <= 0 -> strconv_Atoi intSize (getenv envKey) = None ->
      resolveDuration intSize getenv paramVal envKey defaultVal = defaultVal)
  /\ (forall secs, paramVal <= 0 ->
        strconv_Atoi intSize (getenv envKey) = Some secs -> secs <= 0 ->
        resolveDuration intSize getenv paramVal envKey defaultVal = defaultVal)
  /\ (forall secs, paramVal <= 0 ->
        strconv_Atoi intSize (getenv envKey) = Some secs ->
        0 < secs <= 9223372036 ->
        resolveDuration intSize getenv paramVal envKey defaultVal
        = secs * 1000000000)
  /\ (0 < defaultVal ->
      (intSize = 32
       \/ forall secs, strconv_Atoi intSize (getenv envKey) = Some secs ->
                       secs <= 9223372036) ->
      0 < resolveDuration intSize getenv paramVal envKey defaultVal)
  /\ (paramVal <= 0 -> getenv envKey = "9223372037"%string ->
      resolveDuration intSize getenv paramVal envKey defaultVal
      = if intSize =? 64 then - 9223372036709551616 else defaultVal).
Proof.
  intros Hint. unfold resolveDuration.
  assert (forall secs, 0 < secs <= 9223372036 ->
            int64 (secs * 1000000000) = secs * 1000000000) as Hfit.
  { intros secs Hs. unfold int64.
    rewrite Z.mod_small; [lia |].
    change (2 ^ 63) with 9223372036854775808.
    change (2 ^ 64) with 18446744073709551616. lia. }
  assert (strconv_Atoi intSize "" = None) as Hempty by reflexivity.
  split; [| split; [| split; [| split; [| split; [| split]]]]].
  - intros Hp. destruct (Z.gtb_spec paramVal 0) as [_ | ?]; [reflexivity | lia].
  - intros Hp He. destruct (Z.gtb_spec paramVal 0) as [? | _]; [lia |].
    rewrite He. reflexivity.
  - intros Hp Ha. destruct (Z.gtb_spec paramVal 0) as [? | _]; [lia |].
    rewrite Ha. destruct (negb _); reflexivity.
  - intros secs Hp Ha Hs. destruct (Z.gtb_spec paramVal 0) as [? | _]; [lia |].
    rewrite Ha. destruct (Z.gtb_spec secs 0) as [? | _]; [lia |].
    destruct (negb _); reflexivity.
  - intros secs Hp Ha Hs.
    destruct (Z.gtb_spec paramVal 0) as [? | _]; [lia |].
    destruct (String.eqb_spec (getenv envKey) "") as [He | _]; cbn [negb].
    + rewrite He, Hempty in Ha. discriminate Ha.
    + rewrite Ha. destruct (Z.gtb_spec secs 0) as [_ | ?]; [| lia].
      apply Hfit, Hs.
  - intros Hd Hbound.
    destruct (Z.gtb_spec paramVal 0) as [? | _]; [lia |].
    destruct (negb (String.eqb (getenv envKey) "")); [| exact Hd].
    destruct (strconv_Atoi intSize (getenv envKey)) as [secs |] eqn:Ha;
      [| exact Hd].
    destruct (Z.gtb_spec secs 0) as [Hpos | _]; [| exact Hd].
    rewrite Hfit; [lia |]. split; [lia |].
    destruct Hbound as [-> | Hbound]; [| apply Hbound; reflexivity].
    apply strconv_Atoi_range in Ha.
    change (2 ^ (32 - 1)) with 2147483648 in Ha. lia.
  - intros Hp Henv. rewrite Henv.
    destruct (Z.gtb_spec paramVal 0) as [? | _]; [lia |].
    destruct Hint as [-> | ->]; vm_compute; reflexivity.
Qed.

Lemma resolveDuration_positive_witness :
  resolveDuration 64
    (fun key => if String.eqb key "BOT_STREAM_TTL" then "90" else "")%string
    0 "BOT_STREAM_TTL" 60000000000
  = 90 * 1000000000.
Proof.
  refine (proj1 (proj2 (proj2 (proj2 (proj2 (resolveDuration_positive 64
           (fun key => if String.eqb key "BOT_STREAM_TTL" then "90" else "")%string
           0 "BOT_STREAM_TTL" 60000000000 _))))) 90 _ _ _);
    [right; reflexivity | lia | reflexivity | lia].
Defined.
